(** * CSIP: the model-state container and the plugin-callback bridge

    A shallow embedding of [src/csip.c], the C facade over the SCIP
    mixed-integer solver.  The solver itself (every function whose name
    starts with [SCIP]) is an external collaborator: it is represented by
    the interface [Engine], and the wrapper's functions are written once
    for every implementation of that interface.  A small executable
    implementation, [Toy.engine], is used to run the wrapper on concrete
    inputs.

    Conventions of the embedding:
    - a C [double] is a binary64 value of the Standard Library's
      [spec_float] (precision 53, maximal exponent 1024);
    - a C [int] is a [Z]; an arithmetic result outside the 32-bit range
      is undefined behaviour;
    - a pointer to a solver object is an opaque handle; a pointer that may
      be [NULL] is an [option];
    - a function returning [CSIP_RETCODE] returns
      [option (CSIP_RETCODE * state)]: the state is returned with every
      code because the source never rolls anything back, and [None] is a
      run that does not return (a failed [assert], a read outside an
      array, a read of a cell never written). *)

From Stdlib Require Import ZArith Bool Lia String.
From Stdlib Require Import Floats.SpecFloat.
From Stdlib Require Import Ascii DecimalString DecimalZ.
From stdpp Require Import base tactics option list.

Local Open Scope Z_scope.

(** ** C doubles *)

Definition double := spec_float.

Definition prec : Z := 53.
Definition emax : Z := 1024.

Definition dbl_valid (x : double) : bool := valid_binary prec emax x.
Definition dbl_mul (x y : double) : double := SFmul prec emax x y.
Definition dbl_neg (x : double) : double := SFopp x.
Definition dbl_lt (x y : double) : bool := SFltb x y.
Definition dbl_gt (x y : double) : bool := SFltb y x.

(** Conversion of a C [int] to [double] (exact on the whole [int] range). *)
Definition dbl_of_int (z : Z) : double := binary_normalize prec emax z 0 false.

(** The literals [0.0], [1.0] and [-1.0], and [strtod("NaN", NULL)]. *)
Definition dbl_0 : double := S754_zero false.
Definition dbl_1 : double := S754_finite false 4503599627370496 (-52).
Definition dbl_m1 : double := S754_finite true 4503599627370496 (-52).
Definition dbl_NaN : double := S754_nan.

(** ** C ints *)

Definition INT_MAX : Z := 2147483647.
Definition INT_MIN : Z := -2147483648.

(** The value of an [int] expression, [None] on signed overflow. *)
Definition int_val (z : Z) : option Z :=
  if (INT_MIN <=? z) && (z <=? INT_MAX) then Some z else None.

(** ** Enumerations *)

(** Modelled from the spec: the wrapper's return codes, declared in
    [csip.h], which is not among the sources ("Taxonomy: OK,
    OUT_OF_MEMORY, GENERIC_ERROR").  The names are those [csip.c] uses. *)
Inductive CSIP_RETCODE :=
  | CSIP_RETCODE_OK
  | CSIP_RETCODE_ERROR
  | CSIP_RETCODE_NOMEMORY.

(** The solver's return codes ([scip/type_retcode.h]).  The source names
    three of them; every other member of the solver's enumeration is a
    [SCIP_RETCODE_OTHER]. *)
Inductive SCIP_RETCODE :=
  | SCIP_OKAY
  | SCIP_ERROR
  | SCIP_NOMEMORY
  | SCIP_RETCODE_OTHER (tag : positive).

(** Modelled from the spec: the wrapper's solve statuses, declared in
    [csip.h] ("the wrapper's reduced set"). *)
Inductive CSIP_STATUS :=
  | CSIP_STATUS_UNKNOWN
  | CSIP_STATUS_USERLIMIT
  | CSIP_STATUS_NODELIMIT
  | CSIP_STATUS_TIMELIMIT
  | CSIP_STATUS_MEMLIMIT
  | CSIP_STATUS_OPTIMAL
  | CSIP_STATUS_INFEASIBLE
  | CSIP_STATUS_UNBOUNDED
  | CSIP_STATUS_INFORUNBD.

(** The solver's terminal statuses ([scip/type_stat.h]): the fifteen the
    source names, and [SCIP_STATUS_OTHER] for any member the source does
    not name. *)
Inductive SCIP_STATUS :=
  | SCIP_STATUS_UNKNOWN
  | SCIP_STATUS_USERINTERRUPT
  | SCIP_STATUS_NODELIMIT
  | SCIP_STATUS_TOTALNODELIMIT
  | SCIP_STATUS_STALLNODELIMIT
  | SCIP_STATUS_TIMELIMIT
  | SCIP_STATUS_MEMLIMIT
  | SCIP_STATUS_GAPLIMIT
  | SCIP_STATUS_SOLLIMIT
  | SCIP_STATUS_BESTSOLLIMIT
  | SCIP_STATUS_RESTARTLIMIT
  | SCIP_STATUS_OPTIMAL
  | SCIP_STATUS_INFEASIBLE
  | SCIP_STATUS_UNBOUNDED
  | SCIP_STATUS_INFORUNBD
  | SCIP_STATUS_OTHER (tag : positive).

(** The solver's stages; the source only tests for the solved one. *)
Inductive SCIP_STAGE :=
  | SCIP_STAGE_SOLVED
  | SCIP_STAGE_OTHER (tag : positive).

(** Results a plugin reports to the solver ([scip/type_result.h]). *)
Inductive SCIP_RESULT :=
  | SCIP_FEASIBLE
  | SCIP_INFEASIBLE
  | SCIP_CONSADDED
  | SCIP_DIDNOTFIND
  | SCIP_FOUNDSOL
  | SCIP_RESULT_OTHER (tag : positive).

Inductive SCIP_OBJSENSE :=
  | SCIP_OBJSENSE_MINIMIZE
  | SCIP_OBJSENSE_MAXIMIZE.

(** Variable types.  The source passes a [CSIP_VARTYPE] to the solver
    unchanged, so one enumeration serves both sides. *)
Inductive CSIP_VARTYPE :=
  | CSIP_VARTYPE_BINARY
  | CSIP_VARTYPE_INTEGER
  | CSIP_VARTYPE_IMPLINT
  | CSIP_VARTYPE_CONTINUOUS.

#[global] Instance CSIP_RETCODE_eq_dec : EqDecision CSIP_RETCODE.
Proof. solve_decision. Defined.
#[global] Instance SCIP_RETCODE_eq_dec : EqDecision SCIP_RETCODE.
Proof. solve_decision. Defined.
#[global] Instance CSIP_STATUS_eq_dec : EqDecision CSIP_STATUS.
Proof. solve_decision. Defined.
#[global] Instance SCIP_STAGE_eq_dec : EqDecision SCIP_STAGE.
Proof. solve_decision. Defined.
#[global] Instance SCIP_RESULT_eq_dec : EqDecision SCIP_RESULT.
Proof. solve_decision. Defined.
#[global] Instance SCIP_OBJSENSE_eq_dec : EqDecision SCIP_OBJSENSE.
Proof. solve_decision. Defined.
#[global] Instance CSIP_VARTYPE_eq_dec : EqDecision CSIP_VARTYPE.
Proof. solve_decision. Defined.

(** ** The vocabulary of the status translation *)

(** The solver's limit reasons: node limit (of a run and in total), stall,
    time, memory, gap, solution count, best solution, restart, and user
    interrupt. *)
Definition limit_reasons : list SCIP_STATUS :=
  [SCIP_STATUS_NODELIMIT; SCIP_STATUS_TOTALNODELIMIT;
   SCIP_STATUS_STALLNODELIMIT; SCIP_STATUS_TIMELIMIT; SCIP_STATUS_MEMLIMIT;
   SCIP_STATUS_GAPLIMIT; SCIP_STATUS_SOLLIMIT; SCIP_STATUS_BESTSOLLIMIT;
   SCIP_STATUS_RESTARTLIMIT; SCIP_STATUS_USERINTERRUPT].

(** The wrapper's limit statuses. *)
Definition limit_statuses : list CSIP_STATUS :=
  [CSIP_STATUS_USERLIMIT; CSIP_STATUS_NODELIMIT; CSIP_STATUS_TIMELIMIT;
   CSIP_STATUS_MEMLIMIT].

(** The wrapper's reduced set. *)
Definition reduced_set : list CSIP_STATUS :=
  [CSIP_STATUS_UNKNOWN; CSIP_STATUS_USERLIMIT; CSIP_STATUS_NODELIMIT;
   CSIP_STATUS_TIMELIMIT; CSIP_STATUS_MEMLIMIT; CSIP_STATUS_OPTIMAL;
   CSIP_STATUS_INFEASIBLE; CSIP_STATUS_UNBOUNDED; CSIP_STATUS_INFORUNBD].

(** The terminal algorithmic outcomes and their counterparts. *)
Definition counterpart (s : SCIP_STATUS) : option CSIP_STATUS :=
  match s with
  | SCIP_STATUS_OPTIMAL => Some CSIP_STATUS_OPTIMAL
  | SCIP_STATUS_INFEASIBLE => Some CSIP_STATUS_INFEASIBLE
  | SCIP_STATUS_UNBOUNDED => Some CSIP_STATUS_UNBOUNDED
  | SCIP_STATUS_INFORUNBD => Some CSIP_STATUS_INFORUNBD
  | _ => None
  end.

(** ** Handles *)

Definition SCIP_VAR := nat.
Definition SCIP_CONS := nat.
Definition SCIP_SOL := nat.
Definition SCIP_HEUR := nat.

(** ** Return-code translation *)

(** map return codes: SCIP -> CSIP *)
Definition retCodeSCIPtoCSIP (scipRetCode : SCIP_RETCODE) : CSIP_RETCODE :=
  match scipRetCode with
  | SCIP_OKAY => CSIP_RETCODE_OK
  | SCIP_NOMEMORY => CSIP_RETCODE_NOMEMORY
  | _ => CSIP_RETCODE_ERROR
  end.

(** map return codes: CSIP -> SCIP *)
Definition retCodeCSIPtoSCIP (csipRetCode : CSIP_RETCODE) : SCIP_RETCODE :=
  match csipRetCode with
  | CSIP_RETCODE_OK => SCIP_OKAY
  | CSIP_RETCODE_NOMEMORY => SCIP_NOMEMORY
  | _ => SCIP_ERROR
  end.

(** ** Growable arrays *)

Definition INITIALSIZE : Z := 64.
Definition GROWFACTOR : Z := 2.

(** A heap block of handles: one cell per allocated slot, [None] in a
    cell that was never written.  A pointer to such a block is an
    [option array], [None] being [NULL]. *)
Definition array := list (option nat).

(** [malloc (n * sizeof(ptr))]; [ok] is the allocator's answer. *)
Definition malloc (ok : bool) (n : Z) : option array :=
  if ok then Some (replicate (Z.to_nat n) None) else None.

(** [realloc (p, n * sizeof(ptr))]: on success the old cells are kept
    (cut to the new size) and the new ones are unwritten; on failure the
    result is [NULL]. *)
Definition realloc (ok : bool) (p : option array) (n : Z) : option array :=
  if ok then
    let old := default [] p in
    Some (take (Z.to_nat n) (old ++ replicate (Z.to_nat n - length old) None))
  else None.

(** [p[i]] as an rvalue. *)
Definition array_get (p : option array) (i : Z) : option nat :=
  match p with
  | None => None
  | Some a => if i <? 0 then None else mjoin (a !! Z.to_nat i)
  end.

(** [p[i] = h]: the block after the write, [None] when [p] is [NULL] or
    [i] is outside the block. *)
Definition array_set (p : option array) (i : Z) (h : nat) : option array :=
  match p with
  | None => None
  | Some a =>
      if (0 <=? i) && (i <? Z.of_nat (length a))
      then Some (<[Z.to_nat i := Some h]> a)
      else None
  end.

(** [a[i]] for an argument array of the caller, as an rvalue. *)
Definition arg_get {A} (a : list A) (i : Z) : option A :=
  if i <? 0 then None else a !! Z.to_nat i.

(** ** The solver interface

    Every solver function [csip.c] calls, as a state transformer on the
    solver session.  A function that returns [SCIP_RETCODE] yields the
    code, what it writes through its output pointers, and the session
    after the call. *)

Class Engine := {
  SCIP : Type;
  (* queries *)
  SCIPgetStatus : SCIP -> SCIP_STATUS;
  SCIPgetStage : SCIP -> SCIP_STAGE;
  SCIPgetDualbound : SCIP -> double;
  SCIPgetBestSol : SCIP -> option SCIP_SOL;
  SCIPgetSolOrigObj : SCIP -> SCIP_SOL -> double;
  SCIPgetSolVal : SCIP -> option SCIP_SOL -> SCIP_VAR -> double;
  SCIPvarGetObj : SCIP -> SCIP_VAR -> double;
  SCIPvarGetLbLocal : SCIP -> SCIP_VAR -> double;
  SCIPvarGetUbLocal : SCIP -> SCIP_VAR -> double;
  (* session *)
  SCIPcreate : SCIP_RETCODE * unit * SCIP;
  SCIPincludeDefaultPlugins : SCIP -> SCIP_RETCODE * unit * SCIP;
  SCIPcreateProbBasic : SCIP -> string -> SCIP_RETCODE * unit * SCIP;
  SCIPsetParam : SCIP -> string -> Z -> SCIP_RETCODE * unit * SCIP;
  (* variables *)
  SCIPcreateVarBasic :
    SCIP -> double -> double -> double -> CSIP_VARTYPE ->
    SCIP_RETCODE * SCIP_VAR * SCIP;
  SCIPaddVar : SCIP -> SCIP_VAR -> SCIP_RETCODE * unit * SCIP;
  SCIPchgVarObj : SCIP -> SCIP_VAR -> double -> SCIP_RETCODE * unit * SCIP;
  SCIPchgVarLb : SCIP -> SCIP_VAR -> double -> SCIP_RETCODE * unit * SCIP;
  SCIPchgVarUb : SCIP -> SCIP_VAR -> double -> SCIP_RETCODE * unit * SCIP;
  SCIPchgVarType :
    SCIP -> SCIP_VAR -> CSIP_VARTYPE -> SCIP_RETCODE * bool * SCIP;
  (* constraints *)
  SCIPcreateConsBasicLinear :
    SCIP -> string -> double -> double -> SCIP_RETCODE * SCIP_CONS * SCIP;
  SCIPaddCoefLinear :
    SCIP -> SCIP_CONS -> SCIP_VAR -> double -> SCIP_RETCODE * unit * SCIP;
  SCIPaddCons : SCIP -> SCIP_CONS -> SCIP_RETCODE * unit * SCIP;
  SCIPcheckCons :
    SCIP -> SCIP_CONS -> option SCIP_SOL -> bool -> bool -> bool ->
    SCIP_RETCODE * SCIP_RESULT * SCIP;
  SCIPreleaseCons : SCIP -> SCIP_CONS -> SCIP_RETCODE * unit * SCIP;
  (* solutions: the [option SCIP_SOL] written back is the new content of
     the pointer cell the call was given the address of *)
  SCIPcreateSol :
    SCIP -> option SCIP_HEUR -> SCIP_RETCODE * option SCIP_SOL * SCIP;
  SCIPsetSolVals :
    SCIP -> option SCIP_SOL -> list SCIP_VAR -> list double ->
    SCIP_RETCODE * unit * SCIP;
  SCIPfreeSol : SCIP -> SCIP_SOL -> SCIP_RETCODE * option SCIP_SOL * SCIP;
  SCIPaddSolFree :
    SCIP -> SCIP_SOL -> SCIP_RETCODE * (option SCIP_SOL * bool) * SCIP;
  SCIPtrySolFree :
    SCIP -> SCIP_SOL -> bool -> bool -> bool -> bool ->
    SCIP_RETCODE * (option SCIP_SOL * bool) * SCIP;
  (* search *)
  SCIPsolve : SCIP -> SCIP_RETCODE * unit * SCIP;
  SCIPfreeTransform : SCIP -> SCIP_RETCODE * unit * SCIP
}.

(** ** Plugin data

    The mutable part of [struct SCIP_ConshdlrData] and of
    [struct SCIP_HeurData].  Their [model] field points to the model the
    plugin was registered on, which the embedding passes alongside; the
    [callback] and [userdata] fields are written once at registration and
    are arguments of the handlers below. *)

Module ConshdlrData.
Record t := mk {
  checkonly : bool;
  feasible : bool;
  sol : option SCIP_SOL
}.
Definition set_checkonly (d : t) (b : bool) : t := mk b (feasible d) (sol d).
Definition set_feasible (d : t) (b : bool) : t := mk (checkonly d) b (sol d).
Definition set_sol (d : t) (s : option SCIP_SOL) : t :=
  mk (checkonly d) (feasible d) s.
End ConshdlrData.

Module HeurData.
Record t := mk {
  heur : SCIP_HEUR;
  sol : option SCIP_SOL
}.
Definition set_sol (d : t) (s : option SCIP_SOL) : t := mk (heur d) s.
End HeurData.

Definition SCIP_CONSHDLRDATA := ConshdlrData.t.
Definition CSIP_CBDATA := ConshdlrData.t.
Definition SCIP_HEURDATA := HeurData.t.
Definition CSIP_HEURDATA := HeurData.t.

(** What a function returning [CSIP_RETCODE] produces. *)
Abbreviation outcome R := (option (CSIP_RETCODE * R)) (only parsing).

(** [CSIP_CALL(x); k]: a code other than OK is returned at once (the
    message the macro prints is not modelled). *)
Definition CSIP_CALL {R R'} (x : outcome R) (early : R -> R')
    (k : R -> outcome R') : outcome R' :=
  match x with
  | None => None
  | Some (CSIP_RETCODE_OK, r) => k r
  | Some (rc, r) => Some (rc, early r)
  end.

(** ** The wrapper *)

Section Wrapper.
Context {E : Engine}.

(** [struct csip_model]. *)
Record csip_model := mk_model {
  scip : SCIP;
  (* variable sized array for variables *)
  nvars : Z;
  varssize : Z;
  vars : option array;
  (* variable sized array for constraints *)
  nconss : Z;
  consssize : Z;
  conss : option array;
  (* counter for callbacks *)
  nlazycb : Z;
  nheur : Z;
  (* the user-defined optimization sense, because SCIP always minimizes *)
  sense : SCIP_OBJSENSE;
  (* user-defined solution, is checked before solving *)
  initialsol : option SCIP_SOL;
  (* the optimization status (for after freeTransform) *)
  status : CSIP_STATUS;
  (* the best bound (for after freeTransform) *)
  objbound : double
}.

Definition CSIP_MODEL := csip_model.

Definition set_scip (m : csip_model) (s : SCIP) : csip_model :=
  mk_model s (nvars m) (varssize m) (vars m) (nconss m) (consssize m)
    (conss m) (nlazycb m) (nheur m) (sense m) (initialsol m) (status m)
    (objbound m).
Definition set_nvars (m : csip_model) (n : Z) : csip_model :=
  mk_model (scip m) n (varssize m) (vars m) (nconss m) (consssize m)
    (conss m) (nlazycb m) (nheur m) (sense m) (initialsol m) (status m)
    (objbound m).
Definition set_varssize (m : csip_model) (n : Z) : csip_model :=
  mk_model (scip m) (nvars m) n (vars m) (nconss m) (consssize m)
    (conss m) (nlazycb m) (nheur m) (sense m) (initialsol m) (status m)
    (objbound m).
Definition set_vars (m : csip_model) (p : option array) : csip_model :=
  mk_model (scip m) (nvars m) (varssize m) p (nconss m) (consssize m)
    (conss m) (nlazycb m) (nheur m) (sense m) (initialsol m) (status m)
    (objbound m).
Definition set_nconss (m : csip_model) (n : Z) : csip_model :=
  mk_model (scip m) (nvars m) (varssize m) (vars m) n (consssize m)
    (conss m) (nlazycb m) (nheur m) (sense m) (initialsol m) (status m)
    (objbound m).
Definition set_consssize (m : csip_model) (n : Z) : csip_model :=
  mk_model (scip m) (nvars m) (varssize m) (vars m) (nconss m) n
    (conss m) (nlazycb m) (nheur m) (sense m) (initialsol m) (status m)
    (objbound m).
Definition set_conss (m : csip_model) (p : option array) : csip_model :=
  mk_model (scip m) (nvars m) (varssize m) (vars m) (nconss m) (consssize m)
    p (nlazycb m) (nheur m) (sense m) (initialsol m) (status m)
    (objbound m).
Definition set_sense (m : csip_model) (x : SCIP_OBJSENSE) : csip_model :=
  mk_model (scip m) (nvars m) (varssize m) (vars m) (nconss m) (consssize m)
    (conss m) (nlazycb m) (nheur m) x (initialsol m) (status m)
    (objbound m).
Definition set_initialsol (m : csip_model) (x : option SCIP_SOL)
  : csip_model :=
  mk_model (scip m) (nvars m) (varssize m) (vars m) (nconss m) (consssize m)
    (conss m) (nlazycb m) (nheur m) (sense m) x (status m) (objbound m).
Definition set_status (m : csip_model) (x : CSIP_STATUS) : csip_model :=
  mk_model (scip m) (nvars m) (varssize m) (vars m) (nconss m) (consssize m)
    (conss m) (nlazycb m) (nheur m) (sense m) (initialsol m) x (objbound m).
Definition set_objbound (m : csip_model) (x : double) : csip_model :=
  mk_model (scip m) (nvars m) (varssize m) (vars m) (nconss m) (consssize m)
    (conss m) (nlazycb m) (nheur m) (sense m) (initialsol m) (status m) x.

(** [SCIP_in_CSIP(x); k]: the solver call [x] was made on the model's
    session, which becomes the session after the call; a code that does
    not translate to OK is returned at once. *)
Definition SCIP_in_CSIP {A R} (m : csip_model) (x : SCIP_RETCODE * A * SCIP)
    (early : A -> csip_model -> R) (k : A -> csip_model -> outcome R)
  : outcome R :=
  CSIP_CALL (Some (retCodeSCIPtoCSIP (x.1.1), (x.1.2, set_scip m (x.2))))
    (fun r => early (r.1) (r.2)) (fun r => k (r.1) (r.2)).

(** [for (i = from; i < from + n; ++i) body(i)], where every step is a
    call checked by [CSIP_CALL]; the bound is not written by the bodies
    of the loops of this file, so the number of iterations is known at
    entry. *)
Fixpoint for_loop {St} (n : nat) (i : Z) (body : Z -> St -> outcome St)
    (s : St) : outcome St :=
  match n with
  | O => Some (CSIP_RETCODE_OK, s)
  | S n' => CSIP_CALL (body i s) id (for_loop n' (i + 1) body)
  end.

(** *** local methods *)

Definition getStatus (model : csip_model) : CSIP_STATUS :=
  match SCIPgetStatus (scip model) with
  | SCIP_STATUS_UNKNOWN => CSIP_STATUS_UNKNOWN
  | SCIP_STATUS_USERINTERRUPT => CSIP_STATUS_USERLIMIT
  | SCIP_STATUS_NODELIMIT => CSIP_STATUS_NODELIMIT
  | SCIP_STATUS_TOTALNODELIMIT => CSIP_STATUS_NODELIMIT
  | SCIP_STATUS_STALLNODELIMIT => CSIP_STATUS_USERLIMIT
  | SCIP_STATUS_TIMELIMIT => CSIP_STATUS_TIMELIMIT
  | SCIP_STATUS_MEMLIMIT => CSIP_STATUS_MEMLIMIT
  | SCIP_STATUS_GAPLIMIT => CSIP_STATUS_USERLIMIT
  | SCIP_STATUS_SOLLIMIT => CSIP_STATUS_USERLIMIT
  | SCIP_STATUS_BESTSOLLIMIT => CSIP_STATUS_USERLIMIT
  | SCIP_STATUS_RESTARTLIMIT => CSIP_STATUS_USERLIMIT
  | SCIP_STATUS_OPTIMAL => CSIP_STATUS_OPTIMAL
  | SCIP_STATUS_INFEASIBLE => CSIP_STATUS_INFEASIBLE
  | SCIP_STATUS_UNBOUNDED => CSIP_STATUS_UNBOUNDED
  | SCIP_STATUS_INFORUNBD => CSIP_STATUS_INFORUNBD
  | SCIP_STATUS_OTHER _ => CSIP_STATUS_UNKNOWN
  end.

(** One step of the loop of [createLinCons]:
    [var = model->vars[indices[i]]; SCIPaddCoefLinear(..., coefs[i])]. *)
Definition createLinCons_step (indices : list Z) (coefs : list double)
    (c : SCIP_CONS) (i : Z) (model : csip_model) : outcome csip_model :=
  idx ← arg_get indices i;
  var ← array_get (vars model) idx;
  coef ← arg_get coefs i;
  SCIP_in_CSIP model (SCIPaddCoefLinear (scip model) c var coef)
    (fun _ m => m) (fun _ m => Some (CSIP_RETCODE_OK, m)).

(** The constraint handle written to [*cons] is returned with the
    model. *)
Definition createLinCons (model : csip_model) (numindices : Z)
    (indices : list Z) (coefs : list double) (lhs rhs : double)
  : outcome (csip_model * SCIP_CONS) :=
  SCIP_in_CSIP model
    (SCIPcreateConsBasicLinear (scip model) "lincons" lhs rhs)
    (fun c m => (m, c))
    (fun c m =>
  CSIP_CALL
    (for_loop (Z.to_nat numindices) 0
       (createLinCons_step indices coefs c) m)
    (fun m => (m, c))
    (fun m => Some (CSIP_RETCODE_OK, (m, c)))).

(** The tail of [addCons], after the resize: the handle is written to
    cell [nconss] and the count is incremented.  [idx] tells whether the
    caller passed a cell for the index; the [option Z] of the result is
    what was written to it. *)
Definition addCons_store (model : csip_model) (c : SCIP_CONS) (idx : bool)
  : outcome (csip_model * option Z) :=
  a ← array_set (conss model) (nconss model) c;
  n ← int_val (nconss model + 1);
  Some (CSIP_RETCODE_OK,
        (set_nconss (set_conss model (Some a)) n,
         if idx then Some (nconss model) else None)).

Definition addCons (realloc_ok : bool) (model : csip_model)
    (c : SCIP_CONS) (idx : bool) : outcome (csip_model * option Z) :=
  SCIP_in_CSIP model (SCIPaddCons (scip model) c) (fun _ m => (m, None))
    (fun _ model =>
  (* do we need to resize? *)
  if nconss model >=? consssize model then
    size ← int_val (GROWFACTOR * consssize model);
    let model := set_consssize model size in
    let model := set_conss model (realloc realloc_ok (conss model) size) in
    if decide (conss model = None)
    then Some (CSIP_RETCODE_NOMEMORY, (model, None))
    else addCons_store model c idx
  else addCons_store model c idx).

(** One step of the loop of [reformSenseMinimize]. *)
Definition reformSenseMinimize_step (i : Z) (model : csip_model)
  : outcome csip_model :=
  var ← array_get (vars model) i;
  let coef := SCIPvarGetObj (scip model) var in
  SCIP_in_CSIP model (SCIPchgVarObj (scip model) var (dbl_mul dbl_m1 coef))
    (fun _ m => m) (fun _ m => Some (CSIP_RETCODE_OK, m)).

Definition reformSenseMinimize (model : csip_model) : outcome csip_model :=
  if decide (sense model = SCIP_OBJSENSE_MAXIMIZE) then
    (* negate all objective coefficients *)
    for_loop (Z.to_nat (nvars model)) 0 reformSenseMinimize_step model
  else Some (CSIP_RETCODE_OK, model).

(** The handles in cells [0 .. nvars-1] of [model->vars], in order: what
    a callee given [(model->nvars, model->vars)] reads.  [None] when one
    of these cells cannot be read. *)
Definition stored_vars (model : csip_model) : option (list SCIP_VAR) :=
  mapM (fun i => array_get (vars model) (Z.of_nat i))
    (seq 0 (Z.to_nat (nvars model))).

(** *** interface methods *)

Definition CSIPsetParameterGeneric (model : csip_model) (name : string)
    (value : Z) : outcome csip_model :=
  SCIP_in_CSIP model (SCIPsetParam (scip model) name value)
    (fun _ m => m) (fun _ m => Some (CSIP_RETCODE_OK, m)).

(** Modelled from the spec: [CSIPsetParameter] is declared in [csip.h],
    which is not among the sources; it is "parameter/configuration
    plumbing" over [CSIPsetParameterGeneric]. *)
Definition CSIPsetParameter := CSIPsetParameterGeneric.

(** What [CSIPcreateModel] leaves in [*modelptr].  The struct is
    allocated first, [*modelptr] is set to it, and its fields are written
    in the order of the source; a return before the last write leaves the
    struct in [*modelptr] with the later fields indeterminate.
    [unfinished_model] is such a struct: the session as the last solver
    call left it and, for each store, its three fields (count, capacity,
    array) if they were written; the six fields after the stores are not
    written. *)
Record unfinished_model := mk_unfinished {
  scip_written : SCIP;
  vars_written : option (Z * Z * option array);
  conss_written : option (Z * Z * option array)
}.

Inductive modelptr :=
  | Null
  | Unfinished (u : unfinished_model)
  | Finished (model : csip_model).

(** The struct, if every field of it is written. *)
Definition finished (p : modelptr) : option csip_model :=
  match p with
  | Finished model => Some model
  | _ => None
  end.

(** The three booleans are the allocator's answers to the three [malloc]
    calls.  No return frees what was allocated before it. *)
Definition CSIPcreateModel (ok_model ok_vars ok_conss : bool)
  : outcome modelptr :=
  if negb ok_model then Some (CSIP_RETCODE_NOMEMORY, Null) else
  let r1 := SCIPcreate in
  match retCodeSCIPtoCSIP (r1.1.1) with
  | CSIP_RETCODE_OK =>
  let r2 := SCIPincludeDefaultPlugins (r1.2) in
  match retCodeSCIPtoCSIP (r2.1.1) with
  | CSIP_RETCODE_OK =>
  let r3 := SCIPcreateProbBasic (r2.2) "name" in
  match retCodeSCIPtoCSIP (r3.1.1) with
  | CSIP_RETCODE_OK =>
  let v := malloc ok_vars INITIALSIZE in
  match v with
  | None =>
      Some (CSIP_RETCODE_NOMEMORY,
            Unfinished (mk_unfinished (r3.2) (Some (0, INITIALSIZE, v)) None))
  | Some _ =>
  let c := malloc ok_conss INITIALSIZE in
  match c with
  | None =>
      Some (CSIP_RETCODE_NOMEMORY,
            Unfinished
              (mk_unfinished (r3.2) (Some (0, INITIALSIZE, v))
                 (Some (0, INITIALSIZE, c))))
  | Some _ =>
      let model :=
        mk_model (r3.2) 0 INITIALSIZE v 0 INITIALSIZE c 0 0
          SCIP_OBJSENSE_MINIMIZE None CSIP_STATUS_UNKNOWN dbl_NaN in
      CSIP_CALL (CSIPsetParameter model "display/width" 80) Finished
        (fun model => Some (CSIP_RETCODE_OK, Finished model))
  end end
  | rc => Some (rc, Unfinished (mk_unfinished (r3.2) None None)) end
  | rc => Some (rc, Unfinished (mk_unfinished (r2.2) None None)) end
  | rc => Some (rc, Unfinished (mk_unfinished (r1.2) None None)) end.

(** The tail of [CSIPaddVar], after the resize. *)
Definition CSIPaddVar_store (model : csip_model) (var : SCIP_VAR)
    (idx : bool) : outcome (csip_model * option Z) :=
  a ← array_set (vars model) (nvars model) var;
  n ← int_val (nvars model + 1);
  Some (CSIP_RETCODE_OK,
        (set_nvars (set_vars model (Some a)) n,
         if idx then Some (nvars model) else None)).

Definition CSIPaddVar (realloc_ok : bool) (model : csip_model)
    (lowerbound upperbound : double) (vartype : CSIP_VARTYPE) (idx : bool)
  : outcome (csip_model * option Z) :=
  SCIP_in_CSIP model
    (SCIPcreateVarBasic (scip model) lowerbound upperbound dbl_0 vartype)
    (fun _ m => (m, None)) (fun var model =>
  SCIP_in_CSIP model (SCIPaddVar (scip model) var)
    (fun _ m => (m, None)) (fun _ model =>
  (* do we need to resize? *)
  if nvars model >=? varssize model then
    size ← int_val (GROWFACTOR * varssize model);
    let model := set_varssize model size in
    let model := set_vars model (realloc realloc_ok (vars model) size) in
    if decide (vars model = None)
    then Some (CSIP_RETCODE_NOMEMORY, (model, None))
    else CSIPaddVar_store model var idx
  else CSIPaddVar_store model var idx)).

(** The loop shared in shape by [CSIPchgVarLB], [CSIPchgVarUB] and
    [CSIPsetObj]: [var = model->vars[indices[i]]; chg(scip, var, vals[i])]. *)
Definition chg_step
    (chg : SCIP -> SCIP_VAR -> double -> SCIP_RETCODE * unit * SCIP)
    (indices : list Z) (vals : list double) (i : Z) (model : csip_model)
  : outcome csip_model :=
  idx ← arg_get indices i;
  var ← array_get (vars model) idx;
  x ← arg_get vals i;
  SCIP_in_CSIP model (chg (scip model) var x)
    (fun _ m => m) (fun _ m => Some (CSIP_RETCODE_OK, m)).

Definition CSIPchgVarLB (model : csip_model) (numindices : Z)
    (indices : list Z) (lowerbounds : list double) : outcome csip_model :=
  for_loop (Z.to_nat numindices) 0
    (chg_step SCIPchgVarLb indices lowerbounds) model.

Definition CSIPchgVarUB (model : csip_model) (numindices : Z)
    (indices : list Z) (upperbounds : list double) : outcome csip_model :=
  for_loop (Z.to_nat numindices) 0
    (chg_step SCIPchgVarUb indices upperbounds) model.

Definition CSIPchgVarType (model : csip_model) (varindex : Z)
    (vartype : CSIP_VARTYPE) : outcome csip_model :=
  var ← array_get (vars model) varindex;
  SCIP_in_CSIP model (SCIPchgVarType (scip model) var vartype)
    (fun _ m => m) (fun infeas model =>
  (* the infeasibility flag is ignored; a binary variable with bounds
     not in [0,1] gets them changed to the correct value *)
  CSIP_CALL
    (if bool_decide (vartype = CSIP_VARTYPE_BINARY)
        && dbl_lt (SCIPvarGetLbLocal (scip model) var) dbl_0
     then SCIP_in_CSIP model (SCIPchgVarLb (scip model) var dbl_0)
            (fun _ m => m) (fun _ m => Some (CSIP_RETCODE_OK, m))
     else Some (CSIP_RETCODE_OK, model))
    id (fun model =>
  CSIP_CALL
    (if bool_decide (vartype = CSIP_VARTYPE_BINARY)
        && dbl_gt (SCIPvarGetUbLocal (scip model) var) dbl_1
     then SCIP_in_CSIP model (SCIPchgVarUb (scip model) var dbl_1)
            (fun _ m => m) (fun _ m => Some (CSIP_RETCODE_OK, m))
     else Some (CSIP_RETCODE_OK, model))
    id (fun model => Some (CSIP_RETCODE_OK, model)))).

Definition CSIPaddLinCons (realloc_ok : bool) (model : csip_model)
    (numindices : Z) (indices : list Z) (coefs : list double)
    (lhs rhs : double) (idx : bool) : outcome (csip_model * option Z) :=
  CSIP_CALL (createLinCons model numindices indices coefs lhs rhs)
    (fun r => (r.1, None)) (fun r =>
  CSIP_CALL (addCons realloc_ok (r.1) (r.2) idx)
    id (fun r => Some (CSIP_RETCODE_OK, r))).

Definition CSIPsetObj (model : csip_model) (numindices : Z)
    (indices : list Z) (coefs : list double) : outcome csip_model :=
  for_loop (Z.to_nat numindices) 0
    (chg_step SCIPchgVarObj indices coefs) model.

Definition CSIPsetSenseMinimize (model : csip_model) : outcome csip_model :=
  Some (CSIP_RETCODE_OK, set_sense model SCIP_OBJSENSE_MINIMIZE).

Definition CSIPsetSenseMaximize (model : csip_model) : outcome csip_model :=
  Some (CSIP_RETCODE_OK, set_sense model SCIP_OBJSENSE_MAXIMIZE).

(** The block of [CSIPsolve] that hands a pending initial solution to
    the solver; [SCIPaddSolFree] is given the address of
    [model->initialsol] and writes the cell. *)
Definition CSIPsolve_addsol (model : csip_model) : outcome csip_model :=
  match initialsol model with
  | Some sol =>
      SCIP_in_CSIP model (SCIPaddSolFree (scip model) sol)
        (fun w m => set_initialsol m (w.1))
        (fun w m => Some (CSIP_RETCODE_OK, set_initialsol m (w.1)))
  | None => Some (CSIP_RETCODE_OK, model)
  end.

(** The three lines of [CSIPsolve] between [SCIPsolve] and
    [SCIPfreeTransform]: [model->status = getStatus(model)] and
    [model->objbound = (sense == MINIMIZE ? dual : -dual)]. *)
Definition CSIPsolve_cache (model : csip_model) : csip_model :=
  let model := set_status model (getStatus model) in
  let dual := SCIPgetDualbound (scip model) in
  set_objbound model
    (if decide (sense model = SCIP_OBJSENSE_MINIMIZE)
     then dual else dbl_neg dual).

Definition CSIPsolve (model : csip_model) : outcome csip_model :=
  (* always pose the problem as a minimization *)
  CSIP_CALL (reformSenseMinimize model) id (fun model =>
  (* add initial solution *)
  CSIP_CALL (CSIPsolve_addsol model) id (fun model =>
  SCIP_in_CSIP model (SCIPsolve (scip model)) (fun _ m => m) (fun _ model =>
  let model := CSIPsolve_cache model in
  SCIP_in_CSIP model (SCIPfreeTransform (scip model)) (fun _ m => m)
    (fun _ model =>
  (* reset the objective (might be negated) *)
  CSIP_CALL (reformSenseMinimize model) id (fun model =>
  Some (CSIP_RETCODE_OK, model)))))).

Definition CSIPgetStatus (model : csip_model) : CSIP_STATUS := status model.

(** [error_code] is the integer value of [CSIP_RETCODE_ERROR], a constant
    of [csip.h], which is not among the sources. *)
Definition CSIPgetObjValue (error_code : Z) (model : csip_model) : double :=
  match SCIPgetBestSol (scip model) with
  | None => dbl_of_int error_code
  | Some sol =>
      let objval := SCIPgetSolOrigObj (scip model) sol in
      if decide (sense model = SCIP_OBJSENSE_MINIMIZE)
      then objval else dbl_neg objval
  end.

Definition CSIPgetObjBound (model : csip_model) : double := objbound model.

Definition CSIPgetNumVars (model : csip_model) : Z := nvars model.

Definition CSIPsetInitialSolution (model : csip_model)
    (values : list double) : outcome csip_model :=
  CSIP_CALL
    (match initialsol model with
     | Some sol => (* was solution already given? *)
         SCIP_in_CSIP model (SCIPfreeSol (scip model) sol)
           (fun p m => set_initialsol m p)
           (fun p m => Some (CSIP_RETCODE_OK, set_initialsol m p))
     | None => Some (CSIP_RETCODE_OK, model)
     end)
    id (fun model =>
  if decide (initialsol model = None) then (* the assert *)
    (* create new solution object *)
    SCIP_in_CSIP model (SCIPcreateSol (scip model) None)
      (fun p m => set_initialsol m p) (fun p model =>
    let model := set_initialsol model p in
    (* copy the given values *)
    vs ← stored_vars model;
    SCIP_in_CSIP model (SCIPsetSolVals (scip model) (initialsol model) vs values)
      (fun _ m => m) (fun _ m => Some (CSIP_RETCODE_OK, m)))
  else None).

(** *** Constraint Handler *)

(** A user's lazy-constraint callback: [callback(model, cbdata, userdata)]
    may change the model and the session through the interface. *)
Definition CSIP_LAZYCALLBACK (U : Type) : Type :=
  csip_model -> CSIP_CBDATA -> U -> outcome (csip_model * CSIP_CBDATA).

(** What a handler hands back to the solver: its return code, [*result],
    and the model and the plugin data after the call. *)
Definition handler_outcome (D : Type) : Type :=
  option (SCIP_RETCODE * SCIP_RESULT * csip_model * D).

(** [conshdlrdata] is what [SCIPconshdlrGetData(conshdlr)] returns. *)
Definition consEnfolpLazy {U} (callback : CSIP_LAZYCALLBACK U) (userdata : U)
    (model : csip_model) (conshdlrdata : option SCIP_CONSHDLRDATA)
  : handler_outcome SCIP_CONSHDLRDATA :=
  let result := SCIP_FEASIBLE in
  d ← conshdlrdata;
  let d := ConshdlrData.set_checkonly d false in
  let d := ConshdlrData.set_feasible d true in
  r ← callback model d userdata;
  let rc := retCodeCSIPtoSCIP (r.1) in
  let model := r.2.1 in
  let d := r.2.2 in
  if decide (rc = SCIP_OKAY) then
    Some (SCIP_OKAY,
          if ConshdlrData.feasible d then result else SCIP_CONSADDED,
          model, d)
  else Some (rc, result, model, d).

(** enfo pseudo solution just call enfo lp solution *)
Definition consEnfopsLazy {U} (callback : CSIP_LAZYCALLBACK U) (userdata : U)
    (model : csip_model) (conshdlrdata : option SCIP_CONSHDLRDATA)
  : handler_outcome SCIP_CONSHDLRDATA :=
  consEnfolpLazy callback userdata model conshdlrdata.

(** check callback; [sol] is the solution the solver wants checked. *)
Definition consCheckLazy {U} (callback : CSIP_LAZYCALLBACK U) (userdata : U)
    (model : csip_model) (conshdlrdata : option SCIP_CONSHDLRDATA)
    (sol : option SCIP_SOL) : handler_outcome SCIP_CONSHDLRDATA :=
  let result := SCIP_FEASIBLE in
  d ← conshdlrdata;
  let d := ConshdlrData.set_checkonly d true in
  let d := ConshdlrData.set_feasible d true in
  let d := ConshdlrData.set_sol d sol in
  r ← callback model d userdata;
  let rc := retCodeCSIPtoSCIP (r.1) in
  let model := r.2.1 in
  let d := r.2.2 in
  if decide (rc = SCIP_OKAY) then
    Some (SCIP_OKAY,
          if ConshdlrData.feasible d then result else SCIP_INFEASIBLE,
          model, d)
  else Some (rc, result, model, d).

(** *** callback methods *)

(** The solution the session's accessors work on: the lines
    [if (cbdata->checkonly) sol = cbdata->sol; else sol = NULL;] of
    [CSIPcbGetVarValues] and [CSIPcbAddLinCons]. *)
Definition cb_sol (cbdata : CSIP_CBDATA) : option SCIP_SOL :=
  if ConshdlrData.checkonly cbdata then ConshdlrData.sol cbdata else None.

(** returns LP or given solution depending whether we are called from
    check or enfo; the list is what is written to [output]. *)
Definition CSIPcbGetVarValues (model : csip_model) (cbdata : CSIP_CBDATA)
  : outcome (list double) :=
  let sol := cb_sol cbdata in
  vs ← stored_vars model;
  Some (CSIP_RETCODE_OK, map (SCIPgetSolVal (scip model) sol) vs).

Definition CSIPcbAddLinCons (model : csip_model) (cbdata : CSIP_CBDATA)
    (numindices : Z) (indices : list Z) (coefs : list double)
    (lhs rhs : double) (islocal : Z) : outcome (csip_model * CSIP_CBDATA) :=
  let sol := cb_sol cbdata in
  if decide (SCIPgetStage (scip model) = SCIP_STAGE_SOLVED) then
    if ConshdlrData.checkonly cbdata (* the assert *) then
      let cbdata := ConshdlrData.set_feasible cbdata true in
      Some (CSIP_RETCODE_OK, (model, cbdata))
    else None
  else
  CSIP_CALL (createLinCons model numindices indices coefs lhs rhs)
    (fun r => (r.1, cbdata)) (fun r =>
  let model := r.1 in
  let c := r.2 in
  SCIP_in_CSIP model (SCIPcheckCons (scip model) c sol false false false)
    (fun _ m => (m, cbdata)) (fun result model =>
  let cbdata :=
    if decide (result = SCIP_INFEASIBLE)
    then ConshdlrData.set_feasible cbdata false else cbdata in
  CSIP_CALL
    (if negb (ConshdlrData.checkonly cbdata) then
       (* we do not store cons, because the original problem does not
          contain them *)
       SCIP_in_CSIP model (SCIPaddCons (scip model) c)
         (fun _ m => m) (fun _ m => Some (CSIP_RETCODE_OK, m))
     else Some (CSIP_RETCODE_OK, model))
    (fun m => (m, cbdata)) (fun model =>
  SCIP_in_CSIP model (SCIPreleaseCons (scip model) c)
    (fun _ m => (m, cbdata))
    (fun _ m => Some (CSIP_RETCODE_OK, (m, cbdata)))))).

(** *** Heuristic Plugin *)

Definition CSIP_HEURCALLBACK (U : Type) : Type :=
  csip_model -> CSIP_HEURDATA -> U -> outcome (csip_model * CSIP_HEURDATA).

(** [heurdata] is what [SCIPheurGetData(heur)] returns. *)
Definition heurExecUser {U} (callback : CSIP_HEURCALLBACK U) (userdata : U)
    (model : csip_model) (heurdata : option SCIP_HEURDATA)
  : handler_outcome SCIP_HEURDATA :=
  d ← heurdata; (* assert(heurdata != NULL) *)
  let result := SCIP_DIDNOTFIND in
  if decide (HeurData.sol d = None) then (* the first assert on the slot *)
    r ← callback model d userdata;
    let rc := retCodeCSIPtoSCIP (r.1) in
    let model := r.2.1 in
    let d := r.2.2 in
    if decide (rc = SCIP_OKAY) then
      match HeurData.sol d with
      | Some sol =>
          let t := SCIPtrySolFree (scip model) sol false true true true in
          let model := set_scip model (t.2) in
          let d := HeurData.set_sol d (t.1.2.1) in
          let stored := t.1.2.2 in
          if decide (t.1.1 = SCIP_OKAY) then
            if decide (HeurData.sol d = None) (* the last assert *) then
              Some (SCIP_OKAY,
                    if stored then SCIP_FOUNDSOL else result, model, d)
            else None
          else Some (t.1.1, result, model, d)
      | None => Some (SCIP_OKAY, result, model, d)
      end
    else Some (rc, result, model, d)
  else None.

(** Supply a solution (as a dense array).  Only complete solutions are
    supported. *)
Definition CSIPheurSetSolution (model : csip_model)
    (heurdata : CSIP_HEURDATA) (values : list double)
  : outcome (csip_model * CSIP_HEURDATA) :=
  SCIP_in_CSIP model (SCIPcreateSol (scip model) (Some (HeurData.heur heurdata)))
    (fun p m => (m, HeurData.set_sol heurdata p)) (fun p model =>
  let heurdata := HeurData.set_sol heurdata p in
  vs ← stored_vars model;
  SCIP_in_CSIP model
    (SCIPsetSolVals (scip model) (HeurData.sol heurdata) vs values)
    (fun _ m => (m, heurdata))
    (fun _ m => Some (CSIP_RETCODE_OK, (m, heurdata)))).

End Wrapper.

Arguments csip_model : clear implicits.
Arguments CSIP_LAZYCALLBACK : clear implicits.
Arguments CSIP_HEURCALLBACK : clear implicits.

(** ** Building a model

    The calls of the interface that build or edit a model, as data, so
    that properties can speak of every sequence of them.  [run_op] is the
    model a call leaves, whatever code it returns. *)

Section Building.
Context {E : Engine}.

Inductive build_op :=
  | OpAddVar (realloc_ok : bool) (lowerbound upperbound : double)
      (vartype : CSIP_VARTYPE) (idx : bool)
  | OpChgVarLB (numindices : Z) (indices : list Z) (lowerbounds : list double)
  | OpChgVarUB (numindices : Z) (indices : list Z) (upperbounds : list double)
  | OpChgVarType (varindex : Z) (vartype : CSIP_VARTYPE)
  | OpAddLinCons (realloc_ok : bool) (numindices : Z) (indices : list Z)
      (coefs : list double) (lhs rhs : double) (idx : bool)
  | OpSetObj (numindices : Z) (indices : list Z) (coefs : list double)
  | OpSetSenseMinimize
  | OpSetSenseMaximize
  | OpSetInitialSolution (values : list double)
  | OpSetParameterGeneric (name : string) (value : Z).

Definition run_op (op : build_op) (m : csip_model E) : option (csip_model E) :=
  match op with
  | OpAddVar ok lb ub t idx => (fun r => r.2.1) <$> CSIPaddVar ok m lb ub t idx
  | OpChgVarLB n indices xs => snd <$> CSIPchgVarLB m n indices xs
  | OpChgVarUB n indices xs => snd <$> CSIPchgVarUB m n indices xs
  | OpChgVarType i t => snd <$> CSIPchgVarType m i t
  | OpAddLinCons ok n indices coefs lhs rhs idx =>
      (fun r => r.2.1) <$> CSIPaddLinCons ok m n indices coefs lhs rhs idx
  | OpSetObj n indices coefs => snd <$> CSIPsetObj m n indices coefs
  | OpSetSenseMinimize => snd <$> CSIPsetSenseMinimize m
  | OpSetSenseMaximize => snd <$> CSIPsetSenseMaximize m
  | OpSetInitialSolution values => snd <$> CSIPsetInitialSolution m values
  | OpSetParameterGeneric name value =>
      snd <$> CSIPsetParameterGeneric m name value
  end.

Fixpoint run_ops (ops : list build_op) (m : csip_model E)
  : option (csip_model E) :=
  match ops with
  | [] => Some m
  | op :: ops => m' ← run_op op m; run_ops ops m'
  end.

End Building.

(** ** An executable solver double

    [Toy.engine] implements [Engine] far enough to run the wrapper: it
    keeps the data of the variables, hands out fresh handles, records the
    commands it receives, and answers a search, a constraint check and a
    solution check from a script held in its state.  It never fails. *)

Module Toy.

Record var_data := mk_var {
  v_lb : double;
  v_ub : double;
  v_obj : double;
  v_type : CSIP_VARTYPE
}.

(** The commands the double records. *)
Inductive call :=
  | AddVar (v : SCIP_VAR)
  | ChgVarObj (v : SCIP_VAR) (x : double)
  | ChgVarLb (v : SCIP_VAR) (x : double)
  | ChgVarUb (v : SCIP_VAR) (x : double)
  | ChgVarType (v : SCIP_VAR) (t : CSIP_VARTYPE)
  | CreateCons (c : SCIP_CONS)
  | AddCoef (c : SCIP_CONS) (v : SCIP_VAR) (x : double)
  | AddCons (c : SCIP_CONS)
  | CheckCons (c : SCIP_CONS) (s : option SCIP_SOL)
  | ReleaseCons (c : SCIP_CONS)
  | CreateSol (s : SCIP_SOL) (h : option SCIP_HEUR)
  | SetSolVals (s : option SCIP_SOL) (vs : list SCIP_VAR)
  | FreeSol (s : SCIP_SOL)
  | AddSolFree (s : SCIP_SOL)
  | TrySolFree (s : SCIP_SOL)
  | Solve
  | FreeTransform
  | Other.

(** The script: what the next search ends with, and what the checks
    answer. *)
Record script := mk_script {
  end_status : SCIP_STATUS;
  end_dual : double;
  end_best : option (SCIP_SOL * double);
  verdict : SCIP_RESULT;
  accept : bool
}.

Record state := mk {
  tvars : nat -> var_data;
  fresh : nat;
  stage : SCIP_STAGE;
  status : SCIP_STATUS;
  dual : double;
  best : option (SCIP_SOL * double);
  plan : script;
  log : list call
}.

Definition PROBLEM : SCIP_STAGE := SCIP_STAGE_OTHER 1.

Definition default_script : script :=
  mk_script SCIP_STATUS_OPTIMAL dbl_0 None SCIP_FEASIBLE true.

Definition init : state :=
  mk (fun _ => mk_var dbl_0 dbl_0 dbl_0 CSIP_VARTYPE_CONTINUOUS) 0
    PROBLEM SCIP_STATUS_UNKNOWN dbl_NaN None default_script [].

Definition record (c : call) (s : state) : state :=
  mk (tvars s) (fresh s) (stage s) (status s) (dual s) (best s) (plan s)
    (log s ++ [c]).
Definition take_fresh (s : state) : state :=
  mk (tvars s) (S (fresh s)) (stage s) (status s) (dual s) (best s)
    (plan s) (log s).
Definition set_var (v : SCIP_VAR) (d : var_data) (s : state) : state :=
  mk (fun w => if decide (w = v) then d else tvars s w) (fresh s) (stage s)
    (status s) (dual s) (best s) (plan s) (log s).
Definition set_plan (p : script) (s : state) : state :=
  mk (tvars s) (fresh s) (stage s) (status s) (dual s) (best s) p (log s).
Definition set_search (g : SCIP_STAGE) (st : SCIP_STATUS) (d : double)
    (b : option (SCIP_SOL * double)) (s : state) : state :=
  mk (tvars s) (fresh s) g st d b (plan s) (log s).

Definition ok {A} (a : A) (s : state) : SCIP_RETCODE * A * state :=
  (SCIP_OKAY, a, s).

Definition engine : Engine := {|
  SCIP := state;
  SCIPgetStatus s := status s;
  SCIPgetStage s := stage s;
  SCIPgetDualbound s := dual s;
  SCIPgetBestSol s := fst <$> best s;
  SCIPgetSolOrigObj s sol :=
    match best s with
    | Some (b, x) => if decide (b = sol) then x else dbl_0
    | None => dbl_0
    end;
  SCIPgetSolVal s sol v := dbl_0;
  SCIPvarGetObj s v := v_obj (tvars s v);
  SCIPvarGetLbLocal s v := v_lb (tvars s v);
  SCIPvarGetUbLocal s v := v_ub (tvars s v);
  SCIPcreate := ok tt init;
  SCIPincludeDefaultPlugins s := ok tt (record Other s);
  SCIPcreateProbBasic s name := ok tt (record Other s);
  SCIPsetParam s name value := ok tt (record Other s);
  SCIPcreateVarBasic s l u o t :=
    ok (fresh s) (set_var (fresh s) (mk_var l u o t) (take_fresh s));
  SCIPaddVar s v := ok tt (record (AddVar v) s);
  SCIPchgVarObj s v x :=
    let d := tvars s v in
    ok tt (record (ChgVarObj v x)
             (set_var v (mk_var (v_lb d) (v_ub d) x (v_type d)) s));
  SCIPchgVarLb s v x :=
    let d := tvars s v in
    ok tt (record (ChgVarLb v x)
             (set_var v (mk_var x (v_ub d) (v_obj d) (v_type d)) s));
  SCIPchgVarUb s v x :=
    let d := tvars s v in
    ok tt (record (ChgVarUb v x)
             (set_var v (mk_var (v_lb d) x (v_obj d) (v_type d)) s));
  SCIPchgVarType s v t :=
    let d := tvars s v in
    ok false (record (ChgVarType v t)
                (set_var v (mk_var (v_lb d) (v_ub d) (v_obj d) t) s));
  SCIPcreateConsBasicLinear s name lhs rhs :=
    ok (fresh s) (record (CreateCons (fresh s)) (take_fresh s));
  SCIPaddCoefLinear s c v x := ok tt (record (AddCoef c v x) s);
  SCIPaddCons s c := ok tt (record (AddCons c) s);
  SCIPcheckCons s c sol _ _ _ :=
    ok (verdict (plan s)) (record (CheckCons c sol) s);
  SCIPreleaseCons s c := ok tt (record (ReleaseCons c) s);
  SCIPcreateSol s h :=
    ok (Some (fresh s)) (record (CreateSol (fresh s) h) (take_fresh s));
  SCIPsetSolVals s sol vs vals := ok tt (record (SetSolVals sol vs) s);
  SCIPfreeSol s sol := ok None (record (FreeSol sol) s);
  SCIPaddSolFree s sol := ok (None, true) (record (AddSolFree sol) s);
  SCIPtrySolFree s sol _ _ _ _ :=
    ok (None, accept (plan s)) (record (TrySolFree sol) s);
  SCIPsolve s :=
    ok tt (record Solve
             (set_search SCIP_STAGE_SOLVED (end_status (plan s))
                (end_dual (plan s)) (end_best (plan s)) s));
  SCIPfreeTransform s :=
    ok tt (record FreeTransform
             (set_search PROBLEM SCIP_STATUS_UNKNOWN dbl_NaN (best s) s))
|}.

Definition model := csip_model engine.

(** *** Sample runs *)

(** What a run leaves behind; [blank] stands for a run that does not
    return. *)
Definition blank : model :=
  mk_model (E:=engine) init 0 0 None 0 0 None 0 0 SCIP_OBJSENSE_MINIMIZE None
    CSIP_STATUS_UNKNOWN dbl_NaN.
Definition final {R} (d : R) (r : outcome R) : R := from_option snd d r.

Definition dbl_2 : double := S754_finite false 4503599627370496 (-51).
Definition dbl_3 : double := S754_finite false 6755399441055744 (-51).
Definition dbl_m5 : double := S754_finite true 5629499534213120 (-50).

(** A fresh model. *)
Definition created : model :=
  from_option id blank
    (finished (final Null (CSIPcreateModel (E:=engine) true true true))).

(** Two variables, [x0] continuous in [[0,2]] and [x1] integer in
    [[-5,3]], with objective [2 x0 + 3 x1]. *)
Definition two_vars : model :=
  let m := created in
  let m := (final (m, None)
              (CSIPaddVar true m dbl_0 dbl_2 CSIP_VARTYPE_CONTINUOUS true)).1 in
  let m := (final (m, None)
              (CSIPaddVar true m dbl_m5 dbl_3 CSIP_VARTYPE_INTEGER true)).1 in
  final m (CSIPsetObj m 2 [0; 1] [dbl_2; dbl_3]).

(** The calls that make [two_vars] of [created]. *)
Definition two_vars_calls : list build_op :=
  [OpAddVar true dbl_0 dbl_2 CSIP_VARTYPE_CONTINUOUS true;
   OpAddVar true dbl_m5 dbl_3 CSIP_VARTYPE_INTEGER true;
   OpSetObj 2 [0; 1] [dbl_2; dbl_3]].

(** The solver is scripted to stop at the gap limit with dual bound 3 and
    a best solution of objective 1. *)
Definition gap_script : script :=
  mk_script SCIP_STATUS_GAPLIMIT dbl_3 (Some (7%nat, dbl_1)) SCIP_FEASIBLE true.

Definition with_plan (p : script) (m : model) : model :=
  set_scip m (set_plan p (scip m)).

Definition min_model : model := with_plan gap_script two_vars.
Definition max_model : model :=
  final min_model (CSIPsetSenseMaximize min_model).

Definition min_solved : model := final blank (CSIPsolve min_model).
Definition max_solved : model := final blank (CSIPsolve max_model).

(** A store that is full: 64 variables and 64 constraints. *)
Definition full_model : model :=
  let m :=
    Nat.iter 64
      (fun m => (final (m, None)
                   (CSIPaddVar true m dbl_0 dbl_1 CSIP_VARTYPE_BINARY false)).1)
      created in
  Nat.iter 64
    (fun m => (final (m, None)
                 (CSIPaddLinCons true m 1 [0] [dbl_1] dbl_0 dbl_1 false)).1)
    m.

(** A model whose search has ended and whose transformed problem has not
    been discarded. *)
Definition solved_stage_model : model :=
  set_scip two_vars ((SCIPsolve (Engine:=engine) (scip two_vars)).2).

(** The solver is scripted to find every constraint violated. *)
Definition violated_script : script :=
  mk_script SCIP_STATUS_OPTIMAL dbl_0 None SCIP_INFEASIBLE true.
Definition cb_model : model := with_plan violated_script two_vars.

(** A lazy-constraint callback that adds the cut [0 <= x0 <= 1]. *)
Definition cut_callback : CSIP_LAZYCALLBACK engine unit :=
  fun m cbdata _ => CSIPcbAddLinCons m cbdata 1 [0] [dbl_1] dbl_0 dbl_1 0.

(** Plugin data as an earlier feasibility check of solution 9 left it. *)
Definition stale_cbdata : CSIP_CBDATA := ConshdlrData.mk true false (Some 9%nat).

(** Heuristic callbacks: one that supplies the all-zero solution, one that
    supplies nothing, and one that supplies the all-zero solution and
    then reports an error. *)
Definition zero_heur : CSIP_HEURCALLBACK engine unit :=
  fun m heurdata _ => CSIPheurSetSolution m heurdata [dbl_0; dbl_0].
Definition idle_heur : CSIP_HEURCALLBACK engine unit :=
  fun m heurdata _ => Some (CSIP_RETCODE_OK, (m, heurdata)).
Definition failing_heur : CSIP_HEURCALLBACK engine unit :=
  fun m heurdata _ =>
    r ← CSIPheurSetSolution m heurdata [dbl_0; dbl_0];
    Some (CSIP_RETCODE_ERROR, r.2).

(** The data of heuristic plugin 5, its slot empty. *)
Definition heurdata0 : CSIP_HEURDATA := HeurData.mk 5%nat None.

(** The sessions the two handlers make of [stale_cbdata], the second for
    a check of solution 3, and what [cut_callback] leaves of them. *)
Definition enfo_session : CSIP_CBDATA := ConshdlrData.mk false true (Some 9%nat).
Definition check_session : CSIP_CBDATA := ConshdlrData.mk true true (Some 3%nat).
Definition after_enfo_cut : model * CSIP_CBDATA :=
  final (blank, enfo_session) (cut_callback cb_model enfo_session tt).
Definition after_check_cut : model * CSIP_CBDATA :=
  final (blank, check_session) (cut_callback cb_model check_session tt).

(** What the heuristic callbacks leave. *)
Definition after_zero_heur : model * CSIP_HEURDATA :=
  final (blank, heurdata0) (zero_heur two_vars heurdata0 tt).
Definition after_failing_heur : model * CSIP_HEURDATA :=
  final (blank, heurdata0) (failing_heur two_vars heurdata0 tt).

(** Whether the solver was asked to try a solution. *)
Definition is_TrySolFree (c : call) : bool :=
  match c with TrySolFree _ => true | _ => false end.

End Toy.

(** ** What the wrapper assumes of the solver

    The contracts of the solver functions that the properties below rest
    on.  Each is a statement about an arbitrary [Engine]; [Toy.engine]
    satisfies all of them. *)

(** Objective coefficients: a successful [SCIPchgVarObj] stores the given
    value in the given variable and in no other; the search, the discard
    of the transformed problem and the hand-over of a solution never
    write an objective coefficient. *)
Record ObjectiveLaws (E : Engine) : Prop := {
  chgVarObj_same : forall s v x,
    (SCIPchgVarObj s v x).1.1 = SCIP_OKAY ->
    SCIPvarGetObj ((SCIPchgVarObj s v x).2) v = x;
  chgVarObj_other : forall s v w x,
    (SCIPchgVarObj s v x).1.1 = SCIP_OKAY -> w <> v ->
    SCIPvarGetObj ((SCIPchgVarObj s v x).2) w = SCIPvarGetObj s w;
  solve_obj : forall s v,
    SCIPvarGetObj ((SCIPsolve s).2) v = SCIPvarGetObj s v;
  freeTransform_obj : forall s v,
    SCIPvarGetObj ((SCIPfreeTransform s).2) v = SCIPvarGetObj s v;
  addSolFree_obj : forall s sol v,
    SCIPvarGetObj ((SCIPaddSolFree s sol).2) v = SCIPvarGetObj s v
}.

(** Bounds: a successful [SCIPchgVarLb] ([SCIPchgVarUb]) stores the given
    value as the lower (upper) bound and leaves the other bound alone.
    Nothing is assumed of what [SCIPchgVarType] does to the bounds. *)
Record BoundLaws (E : Engine) : Prop := {
  chgVarLb_lb : forall s v x,
    (SCIPchgVarLb s v x).1.1 = SCIP_OKAY ->
    SCIPvarGetLbLocal ((SCIPchgVarLb s v x).2) v = x;
  chgVarLb_ub : forall s v x,
    (SCIPchgVarLb s v x).1.1 = SCIP_OKAY ->
    SCIPvarGetUbLocal ((SCIPchgVarLb s v x).2) v = SCIPvarGetUbLocal s v;
  chgVarUb_ub : forall s v x,
    (SCIPchgVarUb s v x).1.1 = SCIP_OKAY ->
    SCIPvarGetUbLocal ((SCIPchgVarUb s v x).2) v = x;
  chgVarUb_lb : forall s v x,
    (SCIPchgVarUb s v x).1.1 = SCIP_OKAY ->
    SCIPvarGetLbLocal ((SCIPchgVarUb s v x).2) v = SCIPvarGetLbLocal s v
}.

(** ** Vocabulary of the properties *)

Section Vocabulary.
Context {E : Engine}.

(** [m'] differs from [m] in the solver session at most. *)
Definition only_scip (m m' : csip_model E) : Prop :=
  m' = set_scip m (scip m').

(** [m'] has the entity store and the sense of [m]. *)
Definition same_store (m m' : csip_model E) : Prop :=
  nvars m' = nvars m /\ varssize m' = varssize m /\ vars m' = vars m /\
  nconss m' = nconss m /\ consssize m' = consssize m /\ conss m' = conss m /\
  sense m' = sense m.

(** In session [s'] the objective coefficient of every variable of [vs]
    is [-1.0] times what it is in [s], and that of every other variable
    is what it is in [s]. *)
Definition negated_on (vs : list SCIP_VAR) (s s' : SCIP) : Prop :=
  forall v,
    SCIPvarGetObj s' v =
    if decide (v ∈ vs) then dbl_mul dbl_m1 (SCIPvarGetObj s v)
    else SCIPvarGetObj s v.

(** Sessions [s] and [s'] give every variable the same objective
    coefficient. *)
Definition same_objs (s s' : SCIP) : Prop :=
  forall v, SCIPvarGetObj s' v = SCIPvarGetObj s v.

(** The objective coefficients of the variables [vs] are binary64
    values. *)
Definition valid_objs (s : SCIP) (vs : list SCIP_VAR) : bool :=
  forallb (fun v => dbl_valid (SCIPvarGetObj s v)) vs.

(** The model right after the search that [CSIPsolve] starts from [m]
    has ended and its status and bound are cached, and the model after
    the solver was then told to discard the transformed problem. *)
Definition after_search (m : csip_model E) : csip_model E :=
  CSIPsolve_cache (set_scip m ((SCIPsolve (scip m)).2)).
Definition after_discard (m : csip_model E) : csip_model E :=
  set_scip (after_search m) ((SCIPfreeTransform (scip (after_search m))).2).

(** [CSIPsolve], started on [m], reaches the call of the search with the
    model [m2]: the objective was normalised and a pending initial
    solution handed over, both with code OK. *)
Definition search_reached (m m2 : csip_model E) : Prop :=
  exists m1,
    reformSenseMinimize m = Some (CSIP_RETCODE_OK, m1) /\
    CSIPsolve_addsol m1 = Some (CSIP_RETCODE_OK, m2).

(** [m'] has the cached status and bound of [m]. *)
Definition same_cache (m m' : csip_model E) : Prop :=
  status m' = status m /\ objbound m' = objbound m.

End Vocabulary.

(** ** The rest of the interface on [Engine] *)

Section Readers.
Context {E : Engine}.

(** The list is what is written to [output]; nothing is written when
    there is no best solution. *)
Definition CSIPgetVarValues (model : csip_model E) : outcome (list double) :=
  if decide (SCIPgetBestSol (scip model) = None)
  then Some (CSIP_RETCODE_ERROR, [])
  else
    vs ← stored_vars model;
    Some (CSIP_RETCODE_OK,
          map (SCIPgetSolVal (scip model) (SCIPgetBestSol (scip model))) vs).

Definition CSIPgetInternalSCIP (model : csip_model E) : SCIP := scip model.

End Readers.

(** ** Vocabulary of the store *)

Section StoreVocabulary.
Context {E : Engine}.

(** A block of [size] cells whose first cells hold the handles [hs], in
    order, and whose other cells were never written. *)
Definition block_of (hs : list nat) (size : Z) : array :=
  (Some <$> hs) ++ replicate (Z.to_nat size - length hs) None.

(** The variable store of [m] holds exactly the handles [hs]: they are
    in the cells [0 .. nvars-1], in order, of a block of [varssize]
    cells, [varssize] being a positive [int]. *)
Definition vars_hold (m : csip_model E) (hs : list SCIP_VAR) : Prop :=
  nvars m = Z.of_nat (length hs) /\ nvars m <= varssize m /\
  0 < varssize m <= INT_MAX /\ vars m = Some (block_of hs (varssize m)).

(** The same for the constraint store. *)
Definition conss_hold (m : csip_model E) (cs : list SCIP_CONS) : Prop :=
  nconss m = Z.of_nat (length cs) /\ nconss m <= consssize m /\
  0 < consssize m <= INT_MAX /\ conss m = Some (block_of cs (consssize m)).

(** The capacity a store of capacity [size] has once it holds [n]
    entries and one more is added. *)
Definition grown (n size : Z) : Z :=
  if n >=? size then GROWFACTOR * size else size.

(** No call of the sequence is refused memory by [realloc]. *)
Definition no_alloc_failure (ops : list build_op) : bool :=
  forallb (fun op =>
             match op with
             | OpAddVar ok _ _ _ _ => ok
             | OpAddLinCons ok _ _ _ _ _ _ => ok
             | _ => true
             end) ops.

(** The handles a call reads for the positions [0 .. n-1] of its index
    array: [model->vars[indices[i]]]. *)
Definition indexed_vars (m : csip_model E) (n : Z) (indices : list Z)
  : option (list SCIP_VAR) :=
  mapM (fun i => idx ← arg_get indices (Z.of_nat i); array_get (vars m) idx)
    (seq 0 (Z.to_nat n)).

(** The coefficient a sequence of writes [vs[0] := xs[0]; vs[1] := xs[1];
    ...] leaves in the variable [v]: that of the last write to [v], if
    there is one. *)
Fixpoint last_assigned (vs : list SCIP_VAR) (xs : list double) (v : SCIP_VAR)
  : option double :=
  match vs, xs with
  | w :: vs', x :: xs' =>
      match last_assigned vs' xs' v with
      | Some y => Some y
      | None => if decide (w = v) then Some x else None
      end
  | _, _ => None
  end.

End StoreVocabulary.

(** ** User callbacks

    [struct SCIP_ConshdlrData] is defined in [csip.c], so a user's
    lazy-constraint callback can work on the [CSIP_CBDATA] it is given
    only through [CSIPcbGetVarValues] and [CSIPcbAddLinCons].  [cb_prog]
    is such a callback: a sequence of calls of these two functions and of
    anything that works on the model alone, each continued with what the
    call returned, and ended by a return code. *)

Section Callbacks.
Context {E : Engine}.

Inductive cb_prog :=
  | CbReturn (rc : CSIP_RETCODE)
  | CbGetVarValues (k : CSIP_RETCODE -> list double -> cb_prog)
  | CbAddLinCons (numindices : Z) (indices : list Z) (coefs : list double)
      (lhs rhs : double) (islocal : Z) (k : CSIP_RETCODE -> cb_prog)
  | CbModel (A : Type) (f : csip_model E -> option (A * csip_model E))
      (k : A -> cb_prog).

Fixpoint run_cb (p : cb_prog) (model : csip_model E) (cbdata : CSIP_CBDATA)
  : outcome (csip_model E * CSIP_CBDATA) :=
  match p with
  | CbReturn rc => Some (rc, (model, cbdata))
  | CbGetVarValues k =>
      r ← CSIPcbGetVarValues model cbdata;
      run_cb (k (r.1) (r.2)) model cbdata
  | CbAddLinCons numindices indices coefs lhs rhs islocal k =>
      r ← CSIPcbAddLinCons model cbdata numindices indices coefs lhs rhs
            islocal;
      run_cb (k (r.1)) (r.2.1) (r.2.2)
  | CbModel _ f k =>
      r ← f model;
      run_cb (k (r.1)) (r.2) cbdata
  end.

(** The callback that runs the program its user data selects. *)
Definition cb_of {U} (p : U -> cb_prog) : CSIP_LAZYCALLBACK E U :=
  fun model cbdata userdata => run_cb (p userdata) model cbdata.

(** Two states of the plugin data that no accessor can tell apart: the
    same mode, the same verdict, and the same solution for the accessors
    to work on. *)
Definition cb_agree (d1 d2 : CSIP_CBDATA) : Prop :=
  ConshdlrData.checkonly d1 = ConshdlrData.checkonly d2 /\
  ConshdlrData.feasible d1 = ConshdlrData.feasible d2 /\
  cb_sol d1 = cb_sol d2.

(** What two runs of a callback hand back, compared: both fail to
    return, or both return, with the same code and model and with plugin
    data that agree. *)
Definition same_run
    (r1 r2 : outcome (csip_model E * CSIP_CBDATA)) : Prop :=
  match r1, r2 with
  | Some (rc1, (m1, d1)), Some (rc2, (m2, d2)) =>
      rc1 = rc2 /\ m1 = m2 /\ cb_agree d1 d2
  | None, None => True
  | _, _ => False
  end.

End Callbacks.

(** ** The rest of the solver interface

    The solver functions that only the functions below call. *)

(** The solver's variable types ([scip/type_var.h]): the four the source
    names, and [SCIP_VARTYPE_OTHER] for any member it does not name. *)
Inductive SCIP_VARTYPE :=
  | SCIP_VARTYPE_BINARY
  | SCIP_VARTYPE_INTEGER
  | SCIP_VARTYPE_IMPLINT
  | SCIP_VARTYPE_CONTINUOUS
  | SCIP_VARTYPE_OTHER (tag : positive).

(** When a heuristic is called; the source names one timing. *)
Inductive SCIP_HEURTIMING :=
  | SCIP_HEURTIMING_AFTERNODE
  | SCIP_HEURTIMING_OTHER (tag : positive).

Definition SCIP_CONSHDLR := nat.

Class EngineExt := {
  engine_base :: Engine;
  SCIPvarGetType : SCIP -> SCIP_VAR -> SCIP_VARTYPE;
  SCIPgetSolVals :
    SCIP -> option SCIP_SOL -> list SCIP_VAR ->
    SCIP_RETCODE * list double * SCIP;
  SCIPreleaseVar : SCIP -> SCIP_VAR -> SCIP_RETCODE * unit * SCIP;
  SCIPfree : SCIP -> SCIP_RETCODE * unit * SCIP;
  (* the arguments are the name and the two sides; the source passes no
     initial term *)
  SCIPcreateConsBasicQuadratic :
    SCIP -> string -> double -> double -> SCIP_RETCODE * SCIP_CONS * SCIP;
  SCIPaddLinearVarQuadratic :
    SCIP -> SCIP_CONS -> SCIP_VAR -> double -> SCIP_RETCODE * unit * SCIP;
  SCIPaddBilinTermQuadratic :
    SCIP -> SCIP_CONS -> SCIP_VAR -> SCIP_VAR -> double ->
    SCIP_RETCODE * unit * SCIP;
  (* name, count, variables, weights ([NULL] or an array) *)
  SCIPcreateConsBasicSOS1 :
    SCIP -> string -> Z -> list SCIP_VAR -> option (list double) ->
    SCIP_RETCODE * SCIP_CONS * SCIP;
  SCIPcreateConsBasicSOS2 :
    SCIP -> string -> Z -> list SCIP_VAR -> option (list double) ->
    SCIP_RETCODE * SCIP_CONS * SCIP;
  (* plugins: the block for the plugin data, and the registrations; the
     function pointers the source passes are always those of the handlers
     above *)
  SCIPallocMemory : SCIP -> SCIP_RETCODE * unit * SCIP;
  SCIPincludeConshdlrBasic :
    SCIP -> string -> string -> Z -> Z -> Z -> bool ->
    SCIP_RETCODE * SCIP_CONSHDLR * SCIP;
  SCIPsetConshdlrFree : SCIP -> SCIP_CONSHDLR -> SCIP_RETCODE * unit * SCIP;
  SCIPincludeHeurBasic :
    SCIP -> string -> string -> ascii -> Z -> Z -> Z -> Z ->
    SCIP_HEURTIMING -> bool -> SCIP_RETCODE * SCIP_HEUR * SCIP;
  SCIPsetHeurFree : SCIP -> SCIP_HEUR -> SCIP_RETCODE * unit * SCIP
}.

(** The length of the solver's name buffers ([scip/def.h]). *)
Definition SCIP_MAXSTRLEN : Z := 1024.

(** [SCIPsnprintf(name, size, "<prefix>%d", n)]: the decimal form of the
    [int] appended to the prefix, cut to [size - 1] characters. *)
Definition SCIPsnprintf (size : Z) (prefix : string) (n : Z) : string :=
  substring 0 (Z.to_nat (size - 1))
    (prefix ++ NilZero.string_of_int (Z.to_int n)).

(** ** The rest of the wrapper *)

Section WrapperExt.
Context {X : EngineExt}.
Local Abbreviation csip_model := (csip_model engine_base).

Definition set_nlazycb (m : csip_model) (n : Z) : csip_model :=
  mk_model (scip m) (nvars m) (varssize m) (vars m) (nconss m) (consssize m)
    (conss m) n (nheur m) (sense m) (initialsol m) (status m) (objbound m).
Definition set_nheur (m : csip_model) (n : Z) : csip_model :=
  mk_model (scip m) (nvars m) (varssize m) (vars m) (nconss m) (consssize m)
    (conss m) (nlazycb m) n (sense m) (initialsol m) (status m) (objbound m).

(** One step of each of the three loops of [CSIPfreeModel]'s kind: the
    release of the variable in cell [i].  The solver is given the address
    of a local copy of the handle. *)
Definition CSIPfreeModel_var (i : Z) (model : csip_model)
  : outcome csip_model :=
  var ← array_get (vars model) i;
  SCIP_in_CSIP model (SCIPreleaseVar (scip model) var)
    (fun _ m => m) (fun _ m => Some (CSIP_RETCODE_OK, m)).

(** The release of the constraint in cell [i].  The solver is given the
    address of the cell itself, [&model->conss[i]], and overwrites it;
    what it writes is not part of [Engine], so the cell counts as
    unwritten from then on. *)
Definition CSIPfreeModel_cons (i : Z) (model : csip_model)
  : outcome csip_model :=
  c ← array_get (conss model) i;
  a ← conss model;
  let model := set_conss model (Some (<[Z.to_nat i := None]> a)) in
  SCIP_in_CSIP model (SCIPreleaseCons (scip model) c)
    (fun _ m => m) (fun _ m => Some (CSIP_RETCODE_OK, m)).

(** The model is returned as the last solver call left it, with whether
    the three blocks (the two arrays and the struct) were then freed; once
    they are, the model must not be used. *)
Definition CSIPfreeModel (model : csip_model) : outcome (csip_model * bool) :=
  CSIP_CALL
    (match initialsol model with
     | Some sol => (* solve was not called? *)
         SCIP_in_CSIP model (SCIPfreeSol (scip model) sol)
           (fun p m => set_initialsol m p)
           (fun p m => Some (CSIP_RETCODE_OK, set_initialsol m p))
     | None => Some (CSIP_RETCODE_OK, model)
     end)
    (fun m => (m, false)) (fun model =>
  CSIP_CALL (for_loop (Z.to_nat (nvars model)) 0 CSIPfreeModel_var model)
    (fun m => (m, false)) (fun model =>
  CSIP_CALL (for_loop (Z.to_nat (nconss model)) 0 CSIPfreeModel_cons model)
    (fun m => (m, false)) (fun model =>
  SCIP_in_CSIP model (SCIPfree (scip model))
    (fun _ m => (m, false))
    (fun _ m => Some (CSIP_RETCODE_OK, (m, true)))))).

(** The inner [option] is [None] for the value [-1] the source returns
    for a solver type it does not name. *)
Definition CSIPgetVarType (model : csip_model) (varindex : Z)
  : option (option CSIP_VARTYPE) :=
  if (0 <=? varindex) && (varindex <? nvars model) then (* the assert *)
    var ← array_get (vars model) varindex;
    Some (match SCIPvarGetType (scip model) var with
          | SCIP_VARTYPE_BINARY => Some CSIP_VARTYPE_BINARY
          | SCIP_VARTYPE_INTEGER => Some CSIP_VARTYPE_INTEGER
          | SCIP_VARTYPE_IMPLINT => Some CSIP_VARTYPE_IMPLINT
          | SCIP_VARTYPE_CONTINUOUS => Some CSIP_VARTYPE_CONTINUOUS
          | SCIP_VARTYPE_OTHER _ => None
          end)
  else None.

(** The two loops of [CSIPaddQuadCons]. *)
Definition CSIPaddQuadCons_lin (linindices : list Z) (lincoefs : list double)
    (c : SCIP_CONS) (i : Z) (model : csip_model) : outcome csip_model :=
  idx ← arg_get linindices i;
  linvar ← array_get (vars model) idx;
  coef ← arg_get lincoefs i;
  SCIP_in_CSIP model (SCIPaddLinearVarQuadratic (scip model) c linvar coef)
    (fun _ m => m) (fun _ m => Some (CSIP_RETCODE_OK, m)).

Definition CSIPaddQuadCons_bilin (quadrowindices quadcolindices : list Z)
    (quadcoefs : list double) (c : SCIP_CONS) (i : Z) (model : csip_model)
  : outcome csip_model :=
  row ← arg_get quadrowindices i;
  var1 ← array_get (vars model) row;
  col ← arg_get quadcolindices i;
  var2 ← array_get (vars model) col;
  coef ← arg_get quadcoefs i;
  SCIP_in_CSIP model (SCIPaddBilinTermQuadratic (scip model) c var1 var2 coef)
    (fun _ m => m) (fun _ m => Some (CSIP_RETCODE_OK, m)).

Definition CSIPaddQuadCons (realloc_ok : bool) (model : csip_model)
    (numlinindices : Z) (linindices : list Z) (lincoefs : list double)
    (numquadterms : Z) (quadrowindices quadcolindices : list Z)
    (quadcoefs : list double) (lhs rhs : double) (idx : bool)
  : outcome (csip_model * option Z) :=
  SCIP_in_CSIP model
    (SCIPcreateConsBasicQuadratic (scip model) "quadcons" lhs rhs)
    (fun _ m => (m, None)) (fun c model =>
  CSIP_CALL
    (for_loop (Z.to_nat numlinindices) 0
       (CSIPaddQuadCons_lin linindices lincoefs c) model)
    (fun m => (m, None)) (fun model =>
  CSIP_CALL
    (for_loop (Z.to_nat numquadterms) 0
       (CSIPaddQuadCons_bilin quadrowindices quadcolindices quadcoefs c) model)
    (fun m => (m, None)) (fun model =>
  CSIP_CALL (addCons realloc_ok model c idx)
    id (fun r => Some (CSIP_RETCODE_OK, r))))).

(** [CSIPaddSOS1] and [CSIPaddSOS2] differ in the solver function they
    call and in the name they give it.  [malloc_ok] is the allocator's
    answer for the temporary array, which the loop fills with
    [model->vars[indices[i]]] before the solver reads it.  The boolean of
    the result tells whether the temporary array is still allocated when
    the function returns: [free(vars)] is its last statement but one. *)
Definition CSIPaddSOS
    (create : SCIP -> string -> Z -> list SCIP_VAR -> option (list double) ->
              SCIP_RETCODE * SCIP_CONS * SCIP)
    (name : string) (malloc_ok realloc_ok : bool) (model : csip_model)
    (numindices : Z) (indices : list Z) (weights : option (list double))
    (idx : bool) : outcome (csip_model * option Z * bool) :=
  match malloc malloc_ok numindices with
  | None => Some (CSIP_RETCODE_NOMEMORY, (model, None, false))
  | Some _ =>
      vars ← indexed_vars model numindices indices;
      SCIP_in_CSIP model (create (scip model) name numindices vars weights)
        (fun _ m => (m, None, true)) (fun c model =>
      CSIP_CALL (addCons realloc_ok model c idx)
        (fun r => (r, true)) (fun r => Some (CSIP_RETCODE_OK, (r, false))))
  end.

Definition CSIPaddSOS1 := CSIPaddSOS SCIPcreateConsBasicSOS1 "sos1".
Definition CSIPaddSOS2 := CSIPaddSOS SCIPcreateConsBasicSOS2 "sos2".

(** *** callback methods *)

(** The callback and the user data go into the plugin data, whose other
    fields are not written here. *)
Definition CSIPaddLazyCallback (model : csip_model) (fractional : Z)
  : outcome csip_model :=
  (* it is -1 or 1 because cons_integral has priority 0 *)
  let priority := if decide (fractional = 0) then 1 else -1 in
  SCIP_in_CSIP model (SCIPallocMemory (scip model))
    (fun _ m => m) (fun _ model =>
  let name := SCIPsnprintf SCIP_MAXSTRLEN "lazycons_" (nlazycb model) in
  SCIP_in_CSIP model
    (SCIPincludeConshdlrBasic (scip model) name "lazy constraint callback"
       priority (-1) (-1) false)
    (fun _ m => m) (fun conshdlr model =>
  SCIP_in_CSIP model (SCIPsetConshdlrFree (scip model) conshdlr)
    (fun _ m => m) (fun _ model =>
  n ← int_val (nlazycb model + 1);
  Some (CSIP_RETCODE_OK, set_nlazycb model n)))).

(** Copy values of solution to output array.  Solution is LP relaxation
    of current node.  The list is what the solver wrote to [output]. *)
Definition CSIPheurGetVarValues (model : csip_model)
    (heurdata : CSIP_HEURDATA) : outcome (csip_model * list double) :=
  vs ← stored_vars model;
  SCIP_in_CSIP model (SCIPgetSolVals (scip model) None vs)
    (fun out m => (m, out)) (fun out m => Some (CSIP_RETCODE_OK, (m, out))).

(** The plugin data is returned once its fields are written. *)
Definition CSIPaddHeuristicCallback (model : csip_model)
  : outcome (csip_model * option SCIP_HEURDATA) :=
  SCIP_in_CSIP model (SCIPallocMemory (scip model))
    (fun _ m => (m, None)) (fun _ model =>
  let name := SCIPsnprintf SCIP_MAXSTRLEN "heur_" (nheur model) in
  SCIP_in_CSIP model
    (SCIPincludeHeurBasic (scip model) name "heuristic callback"
       "x"%char
       1 1 0 (-1) SCIP_HEURTIMING_AFTERNODE false)
    (fun _ m => (m, None)) (fun heur model =>
  let heurdata := HeurData.mk heur None in
  SCIP_in_CSIP model (SCIPsetHeurFree (scip model) heur)
    (fun _ m => (m, Some heurdata)) (fun _ model =>
  n ← int_val (nheur model + 1);
  Some (CSIP_RETCODE_OK, (set_nheur model n, Some heurdata))))).

End WrapperExt.

(** The solver's name for a variable type of the wrapper. *)
Definition scip_vartype (t : CSIP_VARTYPE) : SCIP_VARTYPE :=
  match t with
  | CSIP_VARTYPE_BINARY => SCIP_VARTYPE_BINARY
  | CSIP_VARTYPE_INTEGER => SCIP_VARTYPE_INTEGER
  | CSIP_VARTYPE_IMPLINT => SCIP_VARTYPE_IMPLINT
  | CSIP_VARTYPE_CONTINUOUS => SCIP_VARTYPE_CONTINUOUS
  end.

Section ExtVocabulary.
Context {E : Engine}.

(** The session after the handles [hs] were released one by one, in
    order, each release returning OKAY; [None] if one did not. *)
Fixpoint release_all {A} (release : SCIP -> A -> SCIP_RETCODE * unit * SCIP)
    (s : SCIP) (hs : list A) : option SCIP :=
  match hs with
  | [] => Some s
  | h :: hs' =>
      if decide ((release s h).1.1 = SCIP_OKAY)
      then release_all release ((release s h).2) hs'
      else None
  end.

(** The session [CSIPfreeModel] starts its releases in: the one a pending
    initial solution was freed in, or the model's. *)
Definition after_freeSol (m : csip_model E) : SCIP :=
  match initialsol m with
  | Some sol => (SCIPfreeSol (scip m) sol).2
  | None => scip m
  end.

(** [m'] differs from [m] in the solver session and in the cells of the
    constraint array at most. *)
Definition conss_cleared (m m' : csip_model E) : Prop :=
  m' = set_conss (set_scip m (scip m')) (conss m').

End ExtVocabulary.

(** ** The solver double, extended *)

Module ToyExt.

Definition engine : EngineExt := {|
  engine_base := Toy.engine;
  SCIPvarGetType s v := scip_vartype (Toy.v_type (Toy.tvars s v));
  SCIPgetSolVals s sol vs :=
    Toy.ok (map (fun _ => dbl_0) vs) (Toy.record Toy.Other s);
  SCIPreleaseVar s v := Toy.ok tt (Toy.record Toy.Other s);
  SCIPfree s := Toy.ok tt (Toy.record Toy.Other s);
  SCIPcreateConsBasicQuadratic s name lhs rhs :=
    Toy.ok (Toy.fresh s)
      (Toy.record (Toy.CreateCons (Toy.fresh s)) (Toy.take_fresh s));
  SCIPaddLinearVarQuadratic s c v x := Toy.ok tt (Toy.record (Toy.AddCoef c v x) s);
  SCIPaddBilinTermQuadratic s c v w x := Toy.ok tt (Toy.record Toy.Other s);
  SCIPcreateConsBasicSOS1 s name n vs ws :=
    Toy.ok (Toy.fresh s)
      (Toy.record (Toy.CreateCons (Toy.fresh s)) (Toy.take_fresh s));
  SCIPcreateConsBasicSOS2 s name n vs ws :=
    Toy.ok (Toy.fresh s)
      (Toy.record (Toy.CreateCons (Toy.fresh s)) (Toy.take_fresh s));
  SCIPallocMemory s := Toy.ok tt s;
  SCIPincludeConshdlrBasic s name desc p1 p2 p3 b :=
    Toy.ok (Toy.fresh s) (Toy.record Toy.Other (Toy.take_fresh s));
  SCIPsetConshdlrFree s h := Toy.ok tt (Toy.record Toy.Other s);
  SCIPincludeHeurBasic s name desc c p1 p2 p3 p4 t b :=
    Toy.ok (Toy.fresh s) (Toy.record Toy.Other (Toy.take_fresh s));
  SCIPsetHeurFree s h := Toy.ok tt (Toy.record Toy.Other s)
|}.

Definition model := csip_model (@engine_base engine).

(** The two-variable model with the constraint [0 <= x0 + x1 <= 3]. *)
Definition with_cons : model :=
  (Toy.final (Toy.two_vars, None)
     (CSIPaddLinCons true Toy.two_vars 2 [0; 1] [dbl_1; dbl_1] dbl_0
        Toy.dbl_3 true)).1.

End ToyExt.

(** ** A solver double whose search fails

    [Faulty.engine] is [Toy.engine] with a search that changes nothing
    and returns [SCIP_ERROR]. *)

Module Faulty.

Definition engine : Engine := {|
  SCIP := Toy.state;
  SCIPgetStatus := SCIPgetStatus (Engine:=Toy.engine);
  SCIPgetStage := SCIPgetStage (Engine:=Toy.engine);
  SCIPgetDualbound := SCIPgetDualbound (Engine:=Toy.engine);
  SCIPgetBestSol := SCIPgetBestSol (Engine:=Toy.engine);
  SCIPgetSolOrigObj := SCIPgetSolOrigObj (Engine:=Toy.engine);
  SCIPgetSolVal := SCIPgetSolVal (Engine:=Toy.engine);
  SCIPvarGetObj := SCIPvarGetObj (Engine:=Toy.engine);
  SCIPvarGetLbLocal := SCIPvarGetLbLocal (Engine:=Toy.engine);
  SCIPvarGetUbLocal := SCIPvarGetUbLocal (Engine:=Toy.engine);
  SCIPcreate := SCIPcreate (Engine:=Toy.engine);
  SCIPincludeDefaultPlugins := SCIPincludeDefaultPlugins (Engine:=Toy.engine);
  SCIPcreateProbBasic := SCIPcreateProbBasic (Engine:=Toy.engine);
  SCIPsetParam := SCIPsetParam (Engine:=Toy.engine);
  SCIPcreateVarBasic := SCIPcreateVarBasic (Engine:=Toy.engine);
  SCIPaddVar := SCIPaddVar (Engine:=Toy.engine);
  SCIPchgVarObj := SCIPchgVarObj (Engine:=Toy.engine);
  SCIPchgVarLb := SCIPchgVarLb (Engine:=Toy.engine);
  SCIPchgVarUb := SCIPchgVarUb (Engine:=Toy.engine);
  SCIPchgVarType := SCIPchgVarType (Engine:=Toy.engine);
  SCIPcreateConsBasicLinear := SCIPcreateConsBasicLinear (Engine:=Toy.engine);
  SCIPaddCoefLinear := SCIPaddCoefLinear (Engine:=Toy.engine);
  SCIPaddCons := SCIPaddCons (Engine:=Toy.engine);
  SCIPcheckCons := SCIPcheckCons (Engine:=Toy.engine);
  SCIPreleaseCons := SCIPreleaseCons (Engine:=Toy.engine);
  SCIPcreateSol := SCIPcreateSol (Engine:=Toy.engine);
  SCIPsetSolVals := SCIPsetSolVals (Engine:=Toy.engine);
  SCIPfreeSol := SCIPfreeSol (Engine:=Toy.engine);
  SCIPaddSolFree := SCIPaddSolFree (Engine:=Toy.engine);
  SCIPtrySolFree := SCIPtrySolFree (Engine:=Toy.engine);
  SCIPsolve s := (SCIP_ERROR, tt, Toy.record Toy.Solve s);
  SCIPfreeTransform := SCIPfreeTransform (Engine:=Toy.engine)
|}.

Definition model := csip_model engine.

Definition blank : model :=
  mk_model (E:=engine) Toy.init 0 0 None 0 0 None 0 0 SCIP_OBJSENSE_MINIMIZE
    None CSIP_STATUS_UNKNOWN dbl_NaN.

(** The two-variable model of [Toy.two_vars], on this solver, set to
    MAXIMIZE. *)
Definition max_model : model :=
  let m :=
    from_option id blank
      (finished
         (Toy.final Null (CSIPcreateModel (E:=engine) true true true))) in
  let m := default m (run_ops Toy.two_vars_calls m) in
  Toy.final m (CSIPsetSenseMaximize m).

(** The model when the search is called, and what the solve leaves. *)
Definition at_search : model := Toy.final blank (reformSenseMinimize max_model).
Definition after_solve : model := Toy.final blank (CSIPsolve max_model).

End Faulty.

(** ** More sample runs *)

Module Samples.

(** A third variable, binary, added to the two-variable model. *)
Definition third_var : Toy.model * option Z :=
  Toy.final (Toy.blank, None)
    (CSIPaddVar true Toy.two_vars dbl_0 dbl_1 CSIP_VARTYPE_BINARY true).

(** The constraint [0 <= x0 + x1 <= 3] added to the two-variable model. *)
Definition first_cons : Toy.model * option Z :=
  Toy.final (Toy.blank, None)
    (CSIPaddLinCons true Toy.two_vars 2 [0; 1] [dbl_1; dbl_1] dbl_0 Toy.dbl_3
       true).

(** The two-variable model with an initial solution pending, and
    solved. *)
Definition with_initial : Toy.model :=
  Toy.final Toy.blank (CSIPsetInitialSolution Toy.min_model [dbl_0; dbl_0]).
Definition with_initial_solved : Toy.model :=
  Toy.final Toy.blank (CSIPsolve with_initial).

(** The objective [3 x1 + 2 x0], then [x1] set again, to 1. *)
Definition obj_twice : Toy.model :=
  Toy.final Toy.blank
    (CSIPsetObj Toy.two_vars 3 [1; 0; 1] [Toy.dbl_3; Toy.dbl_2; dbl_1]).

(** A callback that reads the values, adds the cut [0 <= x0 <= 1], and
    returns what the cut returned. *)
Definition read_and_cut : unit -> cb_prog (E:=Toy.engine) :=
  fun _ =>
    CbGetVarValues (fun _ _ =>
    CbAddLinCons 1 [0] [dbl_1] dbl_0 dbl_1 0 CbReturn).

(** The quadratic constraint [0 <= x0 + x0 x1 <= 3] and the SOS1
    constraint on [x1, x0], added to the two-variable model. *)
Definition quad_cons : ToyExt.model * option Z :=
  Toy.final (Toy.blank, None)
    (CSIPaddQuadCons (X:=ToyExt.engine) true Toy.two_vars 1 [0] [dbl_1]
       1 [0] [1] [dbl_1] dbl_0 Toy.dbl_3 true).
Definition sos_cons : ToyExt.model * option Z * bool :=
  Toy.final (Toy.blank, None, false)
    (CSIPaddSOS1 (X:=ToyExt.engine) true true Toy.two_vars 2 [1; 0] None true).

(** Two variables whose bounds lie outside [[0, 1]] on one side only,
    [y0] in [[2, 3]] and [y1] in [[-5, 0.5]], and each of them made
    binary. *)
Definition dbl_half : double := S754_finite false 4503599627370496 (-53).
Definition one_sided : Toy.model :=
  let m := Toy.created in
  let m := (Toy.final (m, None)
              (CSIPaddVar true m Toy.dbl_2 Toy.dbl_3 CSIP_VARTYPE_CONTINUOUS
                 true)).1 in
  (Toy.final (m, None)
     (CSIPaddVar true m Toy.dbl_m5 dbl_half CSIP_VARTYPE_CONTINUOUS true)).1.
Definition binary_y0 : Toy.model :=
  Toy.final Toy.blank (CSIPchgVarType one_sided 0 CSIP_VARTYPE_BINARY).
Definition binary_y1 : Toy.model :=
  Toy.final Toy.blank (CSIPchgVarType one_sided 1 CSIP_VARTYPE_BINARY).

(** In the two-variable model, [x1] made binary and [x0] made integer. *)
Definition binary_x1 : Toy.model :=
  Toy.final Toy.blank (CSIPchgVarType Toy.two_vars 1 CSIP_VARTYPE_BINARY).
Definition integer_x0 : Toy.model :=
  Toy.final Toy.blank (CSIPchgVarType Toy.two_vars 0 CSIP_VARTYPE_INTEGER).

(** More building on the two-variable model: a constraint, a third
    variable, and [x0] made binary. *)
Definition more_calls : list build_op :=
  [OpAddLinCons true 2 [0; 1] [dbl_1; dbl_1] dbl_0 Toy.dbl_3 true;
   OpAddVar true dbl_0 dbl_1 CSIP_VARTYPE_BINARY true;
   OpChgVarType 0 CSIP_VARTYPE_BINARY].
Definition built : Toy.model := default Toy.blank (run_ops more_calls Toy.two_vars).

End Samples.

(** * Properties *)

(** ** Doubles: multiplying by [-1.0] *)

Lemma digits2_pos_iter (m : positive) (n : nat) :
  Z.pos (digits2_pos (Nat.iter n xO m)) = Z.pos (digits2_pos m) + Z.of_nat n.
Proof.
  induction n as [|n IH]; [simpl; lia|].
  simpl Nat.iter. cbn [digits2_pos]. change PosDef.Pos.succ with Pos.succ.
  rewrite Pos2Z.inj_succ, IH. lia.
Qed.

Lemma digits2_pos_shift52 (m : positive) :
  Z.pos (digits2_pos (4503599627370496 * m)) = Z.pos (digits2_pos m) + 52.
Proof. exact (digits2_pos_iter m 52). Qed.

Lemma shr_shift52 (m : positive) :
  @SpecFloat.iter_pos shr_record shr_1 52%positive
    (Build_shr_record (Z.pos (4503599627370496 * m)) false false)
  = Build_shr_record (Z.pos m) false false.
Proof. reflexivity. Qed.

Lemma bounded_inv (m : positive) (e : Z) :
  bounded prec emax m e = true ->
  fexp prec emax (Z.pos (digits2_pos m) + e) = e /\ e <= emax - prec.
Proof.
  unfold bounded, canonical_mantissa. intros [H1 H2]%andb_true_iff.
  split; [by apply Z.eqb_eq | by apply Z.leb_le].
Qed.

Lemma shr_fexp_shift52 (m : positive) (e : Z) :
  fexp prec emax (Z.pos (digits2_pos m) + e) = e ->
  shr_fexp prec emax (Z.pos (4503599627370496 * m)) (-52 + e) loc_Exact
  = (Build_shr_record (Z.pos m) false false, e).
Proof.
  intros Hc. unfold shr_fexp, Zdigits2. rewrite digits2_pos_shift52.
  replace (Z.pos (digits2_pos m) + 52 + (-52 + e))
    with (Z.pos (digits2_pos m) + e) by lia.
  rewrite Hc. replace (e - (-52 + e)) with 52 by lia.
  unfold shr, shr_record_of_loc. rewrite shr_shift52. f_equal. lia.
Qed.

Lemma shr_fexp_canonical (m : positive) (e : Z) :
  fexp prec emax (Z.pos (digits2_pos m) + e) = e ->
  shr_fexp prec emax (Z.pos m) e loc_Exact
  = (Build_shr_record (Z.pos m) false false, e).
Proof.
  intros Hc. unfold shr_fexp, Zdigits2. by rewrite Hc, Z.sub_diag.
Qed.

(** [-1.0 * x] is the negation of [x], for every binary64 value [x]. *)
Lemma dbl_mul_m1 (x : double) :
  dbl_valid x = true -> dbl_mul dbl_m1 x = dbl_neg x.
Proof.
  destruct x as [s|s| |s m e]; try reflexivity.
  unfold dbl_valid, valid_binary. intros [Hc He]%bounded_inv.
  unfold dbl_mul, dbl_m1, dbl_neg, SFmul, SFopp, binary_round_aux.
  rewrite (shr_fexp_shift52 _ _ Hc).
  cbn [shr_m loc_of_shr_record round_nearest_even].
  rewrite (shr_fexp_canonical _ _ Hc). cbn [shr_m].
  apply Z.leb_le in He. rewrite He. by destruct s.
Qed.

Lemma dbl_neg_valid (x : double) :
  dbl_valid x = true -> dbl_valid (dbl_neg x) = true.
Proof. by destruct x. Qed.

Lemma dbl_neg_involutive (x : double) : dbl_neg (dbl_neg x) = x.
Proof. destruct x; simpl; by rewrite ?negb_involutive. Qed.

Lemma dbl_mul_m1_twice (x : double) :
  dbl_valid x = true -> dbl_mul dbl_m1 (dbl_mul dbl_m1 x) = x.
Proof.
  intros Hx. rewrite (dbl_mul_m1 x Hx), dbl_mul_m1 by by apply dbl_neg_valid.
  apply dbl_neg_involutive.
Qed.

(** ** Return codes and the call macros *)

Lemma retCodeSCIPtoCSIP_OK (rc : SCIP_RETCODE) :
  retCodeSCIPtoCSIP rc = CSIP_RETCODE_OK <-> rc = SCIP_OKAY.
Proof. by destruct rc. Qed.

Lemma retCodeCSIPtoSCIP_OKAY (rc : CSIP_RETCODE) :
  retCodeCSIPtoSCIP rc = SCIP_OKAY <-> rc = CSIP_RETCODE_OK.
Proof. by destruct rc. Qed.

Lemma CSIP_CALL_inv {R R'} (x : outcome R) (early : R -> R')
    (k : R -> outcome R') (rc : CSIP_RETCODE) (r' : R') :
  CSIP_CALL x early k = Some (rc, r') ->
  exists r,
    (x = Some (CSIP_RETCODE_OK, r) /\ k r = Some (rc, r')) \/
    (rc <> CSIP_RETCODE_OK /\ x = Some (rc, r) /\ r' = early r).
Proof.
  destruct x as [[c r]|]; [|done]. destruct c; simpl; intros H.
  - exists r. by left.
  - exists r. right. by simplify_eq.
  - exists r. right. by simplify_eq.
Qed.

Lemma CSIP_CALL_OK {R R'} (x : outcome R) (early : R -> R')
    (k : R -> outcome R') (r' : R') :
  CSIP_CALL x early k = Some (CSIP_RETCODE_OK, r') ->
  exists r, x = Some (CSIP_RETCODE_OK, r) /\ k r = Some (CSIP_RETCODE_OK, r').
Proof. intros [r [[??]|[? _]]]%CSIP_CALL_inv; [by exists r | done]. Qed.

Section Calls.
Context {E : Engine}.
Implicit Types m model : csip_model E.

Lemma SCIP_in_CSIP_inv {A R} m (x : SCIP_RETCODE * A * SCIP)
    (early : A -> csip_model E -> R) (k : A -> csip_model E -> outcome R)
    (rc : CSIP_RETCODE) (r' : R) :
  SCIP_in_CSIP m x early k = Some (rc, r') ->
  (x.1.1 = SCIP_OKAY /\ k (x.1.2) (set_scip m (x.2)) = Some (rc, r')) \/
  (rc <> CSIP_RETCODE_OK /\ rc = retCodeSCIPtoCSIP (x.1.1) /\
   r' = early (x.1.2) (set_scip m (x.2))).
Proof.
  unfold SCIP_in_CSIP. intros [r [[Hx Hk]|(Hrc & Hx & ->)]]%CSIP_CALL_inv.
  - left. simplify_eq. split; [by apply retCodeSCIPtoCSIP_OK | done].
  - right. by simplify_eq.
Qed.

Lemma SCIP_in_CSIP_OK {A R} m (x : SCIP_RETCODE * A * SCIP)
    (early : A -> csip_model E -> R) (k : A -> csip_model E -> outcome R)
    (r' : R) :
  SCIP_in_CSIP m x early k = Some (CSIP_RETCODE_OK, r') ->
  x.1.1 = SCIP_OKAY /\
  k (x.1.2) (set_scip m (x.2)) = Some (CSIP_RETCODE_OK, r').
Proof. intros [?|[? _]]%SCIP_in_CSIP_inv; done. Qed.

Lemma SCIP_in_CSIP_OKAY {A R} m (x : SCIP_RETCODE * A * SCIP)
    (early : A -> csip_model E -> R) (k : A -> csip_model E -> outcome R) :
  x.1.1 = SCIP_OKAY ->
  SCIP_in_CSIP m x early k = k (x.1.2) (set_scip m (x.2)).
Proof. unfold SCIP_in_CSIP. intros ->. done. Qed.

Lemma SCIP_in_CSIP_OKAY_inv {A R} m (x : SCIP_RETCODE * A * SCIP)
    (early : A -> csip_model E -> R) (k : A -> csip_model E -> outcome R)
    (r : outcome R) :
  SCIP_in_CSIP m x early k = r -> x.1.1 = SCIP_OKAY ->
  k (x.1.2) (set_scip m (x.2)) = r.
Proof. intros <- Hx. by rewrite SCIP_in_CSIP_OKAY. Qed.

End Calls.

(** ** The status translator *)

Section Status.
Context {E : Engine}.
Implicit Types m model : csip_model E.

(** C9.  [getStatus] maps every terminal status of the solver into the
    wrapper's reduced set of nine: each limit reason of the solver goes to
    one of the four limit statuses, each terminal algorithmic outcome
    (optimal, infeasible, unbounded, infeasible-or-unbounded) goes to its
    counterpart, and every status that is neither goes to UNKNOWN. *)
Theorem getStatus_reduced_set m :
  getStatus m ∈ reduced_set /\
  (SCIPgetStatus (scip m) ∈ limit_reasons -> getStatus m ∈ limit_statuses) /\
  (forall c, counterpart (SCIPgetStatus (scip m)) = Some c -> getStatus m = c) /\
  (SCIPgetStatus (scip m) ∉ limit_reasons ->
   counterpart (SCIPgetStatus (scip m)) = None ->
   getStatus m = CSIP_STATUS_UNKNOWN).
Proof.
  unfold getStatus, reduced_set, limit_reasons, limit_statuses.
  destruct (SCIPgetStatus (scip m)); simpl; repeat split;
    rewrite ?elem_of_cons, ?elem_of_nil; intuition congruence.
Qed.

End Status.

(** ** Objective sense normalization *)

Section Sense.
Context {E : Engine}.
Implicit Types m model : csip_model E.

Lemma for_loop_rel {St} (R : St -> St -> Prop) `{!Reflexive R, !Transitive R}
    (body : Z -> St -> outcome St) :
  (forall i s rc s', body i s = Some (rc, s') -> R s s') ->
  forall n i s rc s', for_loop n i body s = Some (rc, s') -> R s s'.
Proof.
  intros Hb n. induction n as [|n IH]; simpl; intros i s rc s' H.
  - by simplify_eq.
  - apply CSIP_CALL_inv in H as [r [[H1 H2]|(_ & H1 & ->)]].
    + etrans; [eapply Hb, H1 | eapply IH, H2].
    + eapply Hb, H1.
Qed.

#[global] Instance only_scip_refl : Reflexive (only_scip (E:=E)).
Proof. by intros []. Qed.

#[global] Instance only_scip_trans : Transitive (only_scip (E:=E)).
Proof.
  intros m1 m2 m3 H1 H2. unfold only_scip in *.
  rewrite H2, H1. by destruct m1.
Qed.

Lemma only_scip_set_scip m s : only_scip m (set_scip m s).
Proof. by destruct m. Qed.

Lemma only_scip_same_store m m' : only_scip m m' -> same_store m m'.
Proof. intros ->. by destruct m. Qed.

Lemma only_scip_stored_vars m m' :
  only_scip m m' -> stored_vars m' = stored_vars m.
Proof. intros ->. by destruct m. Qed.

Lemma reformSenseMinimize_step_only_scip i m rc m' :
  reformSenseMinimize_step i m = Some (rc, m') -> only_scip m m'.
Proof.
  unfold reformSenseMinimize_step. destruct (array_get _ _) as [v|]; [|done].
  simpl. intros [[_ H]|(_ & _ & ->)]%SCIP_in_CSIP_inv.
  - simplify_eq. apply only_scip_set_scip.
  - apply only_scip_set_scip.
Qed.

Lemma reformSenseMinimize_only_scip m rc m' :
  reformSenseMinimize m = Some (rc, m') -> only_scip m m'.
Proof.
  unfold reformSenseMinimize. case_decide.
  - apply for_loop_rel; [apply _..|]. apply reformSenseMinimize_step_only_scip.
  - intros. by simplify_eq.
Qed.

(** [createLinCons] changes the solver session only. *)
Lemma createLinCons_only_scip m n indices coefs lhs rhs rc m1 c :
  createLinCons m n indices coefs lhs rhs = Some (rc, (m1, c)) ->
  only_scip m m1.
Proof.
  unfold createLinCons.
  intros [[_ H]|(_ & _ & ?)]%SCIP_in_CSIP_inv; last first.
  { simplify_eq. apply only_scip_set_scip. }
  assert (forall i m0 rc0 m0',
            createLinCons_step indices coefs
              ((SCIPcreateConsBasicLinear (scip m) "lincons" lhs rhs).1.2)
              i m0 = Some (rc0, m0') -> only_scip m0 m0') as Hstep.
  { intros i m0 rc0 m0'. unfold createLinCons_step.
    destruct (arg_get indices i) as [k|]; [|done]. simpl.
    destruct (array_get _ k) as [v|]; [|done]. simpl.
    destruct (arg_get coefs i) as [x|]; [|done]. simpl.
    intros [[_ ?]|(_ & _ & ->)]%SCIP_in_CSIP_inv; [simplify_eq|];
      apply only_scip_set_scip. }
  apply CSIP_CALL_inv in H as [m2 [[Hl ?]|(_ & Hl & ?)]]; simplify_eq;
    (etrans; [apply only_scip_set_scip|]);
    eapply (for_loop_rel only_scip _ Hstep), Hl.
Qed.

Lemma reformSenseMinimize_step_spec (L : ObjectiveLaws E) i m m' :
  reformSenseMinimize_step i m = Some (CSIP_RETCODE_OK, m') ->
  exists v, array_get (vars m) i = Some v /\
    SCIPvarGetObj (scip m') v = dbl_mul dbl_m1 (SCIPvarGetObj (scip m) v) /\
    forall w, w <> v -> SCIPvarGetObj (scip m') w = SCIPvarGetObj (scip m) w.
Proof.
  unfold reformSenseMinimize_step. destruct (array_get _ _) as [v|]; [|done].
  simpl. intros [Hok H]%SCIP_in_CSIP_OK. simplify_eq. exists v.
  split; [done|]. destruct m; simpl in *. split.
  - by apply L.
  - intros w Hw. by apply L.
Qed.

Lemma reformSenseMinimize_loop_spec (L : ObjectiveLaws E) n j m m' vs :
  mapM (fun i => array_get (vars m) (Z.of_nat i)) (seq j n) = Some vs ->
  NoDup vs ->
  for_loop n (Z.of_nat j) reformSenseMinimize_step m
    = Some (CSIP_RETCODE_OK, m') ->
  negated_on vs (scip m) (scip m').
Proof.
  revert j m vs. induction n as [|n IH]; intros j m vs Hvs Hnd Hloop.
  - apply mapM_Some in Hvs. inversion Hvs; subst.
    simpl in Hloop. simplify_eq. intros v. case_decide as Hv; [|done].
    by apply elem_of_nil in Hv.
  - apply mapM_Some in Hvs. simpl in Hvs.
    inversion Hvs as [|? v0 ? vs' Hv0 Hrest]; subst.
    apply NoDup_cons in Hnd as [Hnot Hnd].
    simpl in Hloop. apply CSIP_CALL_OK in Hloop as (m1 & Hstep & Hloop).
    pose proof (reformSenseMinimize_step_only_scip _ _ _ _ Hstep) as Hfr.
    apply (reformSenseMinimize_step_spec L) in Hstep as (v & Hv & Hsame & Hoth).
    assert (v = v0) by congruence. subst v.
    replace (Z.of_nat j + 1) with (Z.of_nat (S j)) in Hloop by lia.
    assert (vars m1 = vars m) as Hvars by apply (only_scip_same_store _ _ Hfr).
    apply (IH (S j) m1 vs') in Hloop; [| |done]; last first.
    { apply mapM_Some. eapply Forall2_impl; [exact Hrest|].
      intros ?? Hx. simpl in *. congruence. }
    intros w. rewrite (Hloop w).
    destruct (decide (w = v0)) as [->|Hne].
    + rewrite decide_False by done. rewrite decide_True by by left. done.
    + rewrite (Hoth w Hne). destruct (decide (w ∈ vs')) as [Hin|Hnin].
      * rewrite decide_True by by right. done.
      * rewrite decide_False; [done|]. by intros [?|?]%elem_of_cons.
Qed.

Lemma reformSenseMinimize_spec (L : ObjectiveLaws E) m m' vs :
  sense m = SCIP_OBJSENSE_MAXIMIZE ->
  stored_vars m = Some vs -> NoDup vs ->
  reformSenseMinimize m = Some (CSIP_RETCODE_OK, m') ->
  negated_on vs (scip m) (scip m').
Proof.
  intros Hs Hvs Hnd. unfold reformSenseMinimize. rewrite decide_True by done.
  by apply (reformSenseMinimize_loop_spec L _ 0%nat).
Qed.

Lemma reformSenseMinimize_minimize m :
  sense m = SCIP_OBJSENSE_MINIMIZE ->
  reformSenseMinimize m = Some (CSIP_RETCODE_OK, m).
Proof.
  intros Hs. unfold reformSenseMinimize. rewrite decide_False; [done|].
  by rewrite Hs.
Qed.

#[global] Instance same_store_refl : Reflexive (same_store (E:=E)).
Proof. by intros m. Qed.

#[global] Instance same_store_trans : Transitive (same_store (E:=E)).
Proof. unfold same_store. intros m1 m2 m3 ??. intuition congruence. Qed.

Lemma same_store_stored_vars m m' :
  same_store m m' -> stored_vars m' = stored_vars m.
Proof. intros (Hn & _ & Hv & _). unfold stored_vars. by rewrite Hn, Hv. Qed.

#[global] Instance same_objs_refl : Reflexive (same_objs (E:=E)).
Proof. by intros s v. Qed.

#[global] Instance same_objs_trans : Transitive (same_objs (E:=E)).
Proof. intros s1 s2 s3 H1 H2 v. by rewrite H2, H1. Qed.

Lemma CSIPsolve_addsol_store m rc m' :
  CSIPsolve_addsol m = Some (rc, m') ->
  same_store m m' /\ status m' = status m /\ objbound m' = objbound m.
Proof.
  unfold CSIPsolve_addsol. destruct (initialsol m) as [sol|].
  - intros [[_ H]|(_ & _ & ->)]%SCIP_in_CSIP_inv; simplify_eq; by destruct m.
  - intros. by simplify_eq.
Qed.

Lemma CSIPsolve_addsol_objs (L : ObjectiveLaws E) m rc m' :
  CSIPsolve_addsol m = Some (rc, m') -> same_objs (scip m) (scip m').
Proof.
  unfold CSIPsolve_addsol. destruct (initialsol m) as [sol|].
  - intros [[_ H]|(_ & _ & ->)]%SCIP_in_CSIP_inv; simplify_eq;
      intros v; destruct m; simpl; apply L.
  - intros. by simplify_eq.
Qed.

Lemma after_search_store m : same_store m (after_search m).
Proof. by destruct m. Qed.

Lemma after_search_objs (L : ObjectiveLaws E) m :
  same_objs (scip m) (scip (after_search m)).
Proof. intros v. destruct m; simpl. apply L. Qed.

Lemma after_discard_store m : same_store m (after_discard m).
Proof. by destruct m. Qed.

Lemma after_discard_objs (L : ObjectiveLaws E) m :
  same_objs (scip m) (scip (after_discard m)).
Proof.
  etrans; [apply (after_search_objs L)|]. intros v.
  unfold after_discard. destruct (after_search m); simpl. apply L.
Qed.

(** What [CSIPsolve] does once the search has been reached. *)
Lemma CSIPsolve_from_search m m1 m2 :
  reformSenseMinimize m = Some (CSIP_RETCODE_OK, m1) ->
  CSIPsolve_addsol m1 = Some (CSIP_RETCODE_OK, m2) ->
  (SCIPsolve (scip m2)).1.1 = SCIP_OKAY ->
  CSIPsolve m =
    match (SCIPfreeTransform (scip (after_search m2))).1.1 with
    | SCIP_OKAY =>
        CSIP_CALL (reformSenseMinimize (after_discard m2)) id
          (fun model => Some (CSIP_RETCODE_OK, model))
    | rc => Some (retCodeSCIPtoCSIP rc, after_discard m2)
    end.
Proof.
  intros H1 H2 H3. unfold CSIPsolve. rewrite H1. simpl. rewrite H2. simpl.
  rewrite SCIP_in_CSIP_OKAY by done.
  unfold SCIP_in_CSIP, after_discard, after_search. simpl.
  by destruct (SCIPfreeTransform _) as [[[] ?] ?].
Qed.

(** The stages of a [CSIPsolve] that returns OK. *)
Lemma CSIPsolve_OK_inv m m' :
  CSIPsolve m = Some (CSIP_RETCODE_OK, m') ->
  exists m1 m2,
    reformSenseMinimize m = Some (CSIP_RETCODE_OK, m1) /\
    CSIPsolve_addsol m1 = Some (CSIP_RETCODE_OK, m2) /\
    (SCIPsolve (scip m2)).1.1 = SCIP_OKAY /\
    (SCIPfreeTransform (scip (after_search m2))).1.1 = SCIP_OKAY /\
    reformSenseMinimize (after_discard m2) = Some (CSIP_RETCODE_OK, m').
Proof.
  unfold CSIPsolve. intros (m1 & H1 & H)%CSIP_CALL_OK.
  apply CSIP_CALL_OK in H as (m2 & H2 & H).
  apply SCIP_in_CSIP_OK in H as (H3 & H). fold (after_search m2) in H.
  apply SCIP_in_CSIP_OK in H as (H4 & H). fold (after_discard m2) in H.
  apply CSIP_CALL_OK in H as (m3 & H5 & H). simplify_eq.
  by exists m1, m2.
Qed.

(** C1.  A solve of a MAXIMIZE model that returns OK multiplies the
    objective coefficient of every stored variable by [-1.0], which
    negates it, before the search is invoked; the coefficients are still
    the negated ones when the solver has discarded the transformed
    problem; then every coefficient is multiplied by [-1.0] a second time,
    so that when the solve returns every variable has the objective
    coefficient it had before the solve.  A solve of a MINIMIZE model
    changes no objective coefficient, whatever it returns.  The stored
    handles are pairwise distinct and the coefficients binary64 values;
    the solver is any engine that meets [ObjectiveLaws]. *)
Theorem CSIPsolve_sense_toggle (L : ObjectiveLaws E) m :
  (forall m' vs,
     sense m = SCIP_OBJSENSE_MAXIMIZE ->
     stored_vars m = Some vs -> NoDup vs -> valid_objs (scip m) vs = true ->
     CSIPsolve m = Some (CSIP_RETCODE_OK, m') ->
     exists m1 m2,
       reformSenseMinimize m = Some (CSIP_RETCODE_OK, m1) /\
       CSIPsolve_addsol m1 = Some (CSIP_RETCODE_OK, m2) /\
       (forall v, v ∈ vs ->
          SCIPvarGetObj (scip m2) v = dbl_neg (SCIPvarGetObj (scip m) v)) /\
       (SCIPsolve (scip m2)).1.1 = SCIP_OKAY /\
       (forall v, v ∈ vs ->
          SCIPvarGetObj (scip (after_discard m2)) v
          = dbl_neg (SCIPvarGetObj (scip m) v)) /\
       reformSenseMinimize (after_discard m2) = Some (CSIP_RETCODE_OK, m') /\
       same_objs (scip m) (scip m')) /\
  (forall rc m',
     sense m = SCIP_OBJSENSE_MINIMIZE ->
     CSIPsolve m = Some (rc, m') ->
     reformSenseMinimize m = Some (CSIP_RETCODE_OK, m) /\
     same_objs (scip m) (scip m')).
Proof.
  split.
  - intros m' vs Hs Hvs Hnd Hval (m1 & m2 & H1 & H2 & H3 & H4 & H5)%CSIPsolve_OK_inv.
    exists m1, m2.
    pose proof (reformSenseMinimize_spec L _ _ _ Hs Hvs Hnd H1) as Hneg1.
    pose proof (only_scip_same_store _ _ (reformSenseMinimize_only_scip _ _ _ H1))
      as Hst1.
    pose proof (CSIPsolve_addsol_store _ _ _ H2) as (Hst2 & _).
    pose proof (CSIPsolve_addsol_objs L _ _ _ H2) as Hob2.
    pose proof (after_discard_store m2) as Hst3.
    pose proof (after_discard_objs L m2) as Hob3.
    assert (same_store m (after_discard m2)) as Hst by (by etrans; [|etrans]).
    assert (forall v, v ∈ vs -> dbl_valid (SCIPvarGetObj (scip m) v) = true)
      as Hvalid.
    { intros v Hv. unfold valid_objs in Hval.
      rewrite forallb_forall in Hval. apply Hval. by apply list_elem_of_In. }
    assert (forall v, v ∈ vs ->
              SCIPvarGetObj (scip m2) v = dbl_neg (SCIPvarGetObj (scip m) v))
      as Hm2.
    { intros v Hv. rewrite Hob2, (Hneg1 v), decide_True by done.
      by apply dbl_mul_m1, Hvalid. }
    assert (negated_on vs (scip (after_discard m2)) (scip m')) as Hneg2.
    { apply (reformSenseMinimize_spec L); [| |done..].
      - destruct Hst as (_ & _ & _ & _ & _ & _ & ->). done.
      - by rewrite (same_store_stored_vars _ _ Hst). }
    repeat split; try done.
    + intros v Hv. rewrite Hob3. by apply Hm2.
    + intros v. rewrite (Hneg2 v), Hob3, Hob2, (Hneg1 v).
      case_decide as Hv; [|done]. by apply dbl_mul_m1_twice, Hvalid.
  - intros rc m' Hs Hsolve.
    pose proof (reformSenseMinimize_minimize _ Hs) as H1. split; [done|].
    revert Hsolve. unfold CSIPsolve. rewrite H1. simpl.
    intros [m2 [[H2 H]|(_ & H2 & ->)]]%CSIP_CALL_inv.
    + pose proof (CSIPsolve_addsol_store _ _ _ H2) as (Hst2 & _).
      pose proof (CSIPsolve_addsol_objs L _ _ _ H2) as Hob2.
      etrans; [exact Hob2|].
      apply SCIP_in_CSIP_inv in H as [[_ H]|(_ & _ & ->)].
      * fold (after_search m2) in H.
        apply SCIP_in_CSIP_inv in H as [[_ H]|(_ & _ & ->)].
        -- fold (after_discard m2) in H.
           rewrite reformSenseMinimize_minimize in H.
           ++ simpl in H. simplify_eq. apply (after_discard_objs L).
           ++ destruct Hst2 as (_ & _ & _ & _ & _ & _ & Hs2).
              destruct (after_discard_store m2) as (_ & _ & _ & _ & _ & _ & Hs3).
              rewrite <- Hs, <- Hs2. exact Hs3.
        -- apply (after_discard_objs L).
      * intros v. destruct m2; simpl. apply L.
    + apply (CSIPsolve_addsol_objs L _ _ _ H2).
Qed.

End Sense.

(** ** The solve lifecycle: cached status and bound *)

Section Cache.
Context {E : Engine}.
Implicit Types m model : csip_model E.

#[global] Instance same_cache_refl : Reflexive (same_cache (E:=E)).
Proof. by intros m. Qed.

#[global] Instance same_cache_trans : Transitive (same_cache (E:=E)).
Proof. unfold same_cache. intros m1 m2 m3 ??. intuition congruence. Qed.

Lemma only_scip_same_cache m m' : only_scip m m' -> same_cache m m'.
Proof. intros ->. by destruct m. Qed.

Lemma after_discard_cache m :
  status (after_discard m) = getStatus (after_search m) /\
  objbound (after_discard m) =
    (if decide (sense m = SCIP_OBJSENSE_MINIMIZE)
     then SCIPgetDualbound (scip (after_search m))
     else dbl_neg (SCIPgetDualbound (scip (after_search m)))).
Proof. by destruct m. Qed.

Lemma search_reached_sense m m2 : search_reached m m2 -> sense m2 = sense m.
Proof.
  intros (m1 & H1 & H2).
  apply reformSenseMinimize_only_scip, only_scip_same_store in H1.
  apply CSIPsolve_addsol_store in H2 as [H2 _].
  destruct H1 as (_ & _ & _ & _ & _ & _ & H1).
  destruct H2 as (_ & _ & _ & _ & _ & _ & H2). congruence.
Qed.

Lemma search_reached_cache m m2 : search_reached m m2 -> same_cache m m2.
Proof.
  intros (m1 & H1 & H2).
  apply reformSenseMinimize_only_scip, only_scip_same_cache in H1.
  apply CSIPsolve_addsol_store in H2 as (_ & H2). by etrans.
Qed.

(** The calls that build a model leave the cache alone. *)

Lemma chg_step_only_scip chg indices vals i m rc m' :
  chg_step chg indices vals i m = Some (rc, m') -> only_scip m m'.
Proof.
  unfold chg_step.
  destruct (arg_get indices i) as [k|]; [|done]. simpl.
  destruct (array_get _ k) as [v|]; [|done]. simpl.
  destruct (arg_get vals i) as [x|]; [|done]. simpl.
  intros [[_ ?]|(_ & _ & ->)]%SCIP_in_CSIP_inv; [simplify_eq|];
    apply only_scip_set_scip.
Qed.

Lemma chg_loop_only_scip chg indices vals n m rc m' :
  for_loop n 0 (chg_step chg indices vals) m = Some (rc, m') -> only_scip m m'.
Proof.
  apply (for_loop_rel only_scip). intros ????. apply chg_step_only_scip.
Qed.

Lemma CSIPaddVar_same_cache ok m lb ub t idx rc m' o :
  CSIPaddVar ok m lb ub t idx = Some (rc, (m', o)) -> same_cache m m'.
Proof.
  unfold CSIPaddVar.
  intros [[_ H]|(_ & _ & ?)]%SCIP_in_CSIP_inv; [|simplify_eq; by destruct m].
  apply SCIP_in_CSIP_inv in H as [[_ H]|(_ & _ & ?)];
    [|simplify_eq; by destruct m].
  unfold CSIPaddVar_store in H.
  repeat (case_match; simplify_option_eq); by destruct m.
Qed.

Lemma addCons_same_cache ok m c idx rc m' o :
  addCons ok m c idx = Some (rc, (m', o)) -> same_cache m m'.
Proof.
  unfold addCons.
  intros [[_ H]|(_ & _ & ?)]%SCIP_in_CSIP_inv; [|simplify_eq; by destruct m].
  unfold addCons_store in H.
  repeat (case_match; simplify_option_eq); by destruct m.
Qed.

Lemma CSIPaddLinCons_same_cache ok m n indices coefs lhs rhs idx rc m' o :
  CSIPaddLinCons ok m n indices coefs lhs rhs idx = Some (rc, (m', o)) ->
  same_cache m m'.
Proof.
  unfold CSIPaddLinCons.
  intros [[m1 c] [[Hc H]|(_ & Hc & ?)]]%CSIP_CALL_inv.
  - apply createLinCons_only_scip, only_scip_same_cache in Hc.
    etrans; [exact Hc|].
    apply CSIP_CALL_inv in H as [[m2 o2] [[Ha ?]|(_ & Ha & ?)]];
      simplify_eq/=; by apply addCons_same_cache in Ha.
  - simplify_eq. by apply createLinCons_only_scip, only_scip_same_cache in Hc.
Qed.

Lemma CSIPchgVarType_only_scip m i t rc m' :
  CSIPchgVarType m i t = Some (rc, m') -> only_scip m m'.
Proof.
  unfold CSIPchgVarType. destruct (array_get _ i) as [v|]; [|done]. simpl.
  intros [[_ H]|(_ & _ & ->)]%SCIP_in_CSIP_inv; [|apply only_scip_set_scip].
  etrans; [apply only_scip_set_scip|].
  assert (forall (c : bool)
            (chg : SCIP -> SCIP_VAR -> double -> SCIP_RETCODE * unit * SCIP)
            x (m0 : csip_model E) rc0 m0',
            (if c
             then SCIP_in_CSIP m0 (chg (scip m0) v x) (fun _ m => m)
                    (fun _ m => Some (CSIP_RETCODE_OK, m))
             else Some (CSIP_RETCODE_OK, m0)) = Some (rc0, m0') ->
            only_scip m0 m0') as Hstep.
  { intros [] chg x m0 rc0 m0' Hs; [|by simplify_eq].
    apply SCIP_in_CSIP_inv in Hs as [[_ ?]|(_ & _ & ->)]; [simplify_eq|];
      apply only_scip_set_scip. }
  apply CSIP_CALL_inv in H as [m2 [[H2 H]|(_ & H2 & ->)]];
    [|by apply Hstep in H2].
  apply Hstep in H2. etrans; [exact H2|].
  apply CSIP_CALL_inv in H as [m3 [[H3 ?]|(_ & H3 & ->)]]; simplify_eq;
    by apply Hstep in H3.
Qed.

Lemma CSIPsetInitialSolution_same_cache m values rc m' :
  CSIPsetInitialSolution m values = Some (rc, m') -> same_cache m m'.
Proof.
  unfold CSIPsetInitialSolution.
  intros [m1 [[H1 H]|(_ & H1 & ->)]]%CSIP_CALL_inv.
  - assert (same_cache m m1) as Hc1.
    { destruct (initialsol m); [|by simplify_eq].
      apply SCIP_in_CSIP_inv in H1 as [[_ ?]|(_ & _ & ?)]; simplify_eq;
        by destruct m. }
    etrans; [exact Hc1|]. case_decide; [|done].
    apply SCIP_in_CSIP_inv in H as [[_ H]|(_ & _ & ?)];
      [|simplify_eq; by destruct m1].
    apply bind_Some in H as (vs & _ & H).
    apply SCIP_in_CSIP_inv in H as [[_ ?]|(_ & _ & ?)]; simplify_eq;
      by destruct m1.
  - destruct (initialsol m); [|by simplify_eq].
    apply SCIP_in_CSIP_inv in H1 as [[_ ?]|(_ & _ & ?)]; simplify_eq;
      by destruct m.
Qed.

Lemma run_op_same_cache op m m' : run_op op m = Some m' -> same_cache m m'.
Proof.
  destruct op; simpl; intros H;
    try (apply fmap_Some in H as ([rc r] & H & ->); simpl).
  - destruct r. by apply CSIPaddVar_same_cache in H.
  - by apply chg_loop_only_scip, only_scip_same_cache in H.
  - by apply chg_loop_only_scip, only_scip_same_cache in H.
  - by apply CSIPchgVarType_only_scip, only_scip_same_cache in H.
  - destruct r. by apply CSIPaddLinCons_same_cache in H.
  - by apply chg_loop_only_scip, only_scip_same_cache in H.
  - simplify_eq. by destruct m.
  - simplify_eq. by destruct m.
  - by apply CSIPsetInitialSolution_same_cache in H.
  - unfold CSIPsetParameterGeneric in H.
    apply SCIP_in_CSIP_inv in H as [[_ ?]|(_ & _ & ->)]; simplify_eq;
      by destruct m.
Qed.

Lemma run_ops_same_cache ops m m' : run_ops ops m = Some m' -> same_cache m m'.
Proof.
  revert m. induction ops as [|op ops IH]; simpl; intros m H.
  - by simplify_eq.
  - apply bind_Some in H as (m1 & H1 & H). etrans.
    + by apply run_op_same_cache in H1.
    + by apply IH.
Qed.

(** C2.  In every solve whose search is reached and ends with code OKAY,
    the status and the dual bound of the session the search ended in are
    stored in the model before the solver is told to discard the
    transformed problem: [after_search m2] holds them and still has the
    session of the end of the search, the discard runs on that model, and
    whatever happens afterwards changes only the session.  The cached
    bound is the dual bound for MINIMIZE and its negation for MAXIMIZE.
    In every other solve the cache is left as it was.  The two getters
    return the cached values.  A model that was created and then built by
    any sequence of calls other than a solve has status UNKNOWN and the
    bound NaN it was initialised with. *)
Theorem CSIPsolve_caches_before_discard m rc m' :
  CSIPsolve m = Some (rc, m') ->
  ((exists m2,
      search_reached m m2 /\
      (SCIPsolve (scip m2)).1.1 = SCIP_OKAY /\
      scip (after_search m2) = (SCIPsolve (scip m2)).2 /\
      status (after_search m2) = getStatus (after_search m2) /\
      objbound (after_search m2) =
        (if decide (sense m = SCIP_OBJSENSE_MINIMIZE)
         then SCIPgetDualbound ((SCIPsolve (scip m2)).2)
         else dbl_neg (SCIPgetDualbound ((SCIPsolve (scip m2)).2))) /\
      scip (after_discard m2)
        = (SCIPfreeTransform ((SCIPsolve (scip m2)).2)).2 /\
      same_cache (after_search m2) (after_discard m2) /\
      only_scip (after_discard m2) m' /\
      CSIPgetStatus m' = status (after_search m2) /\
      CSIPgetObjBound m' = objbound (after_search m2))
   \/
   (rc <> CSIP_RETCODE_OK /\ same_cache m m')) /\
  (forall a b c rc0 m0 ops m1,
     CSIPcreateModel (E:=E) a b c = Some (rc0, Finished m0) ->
     run_ops ops m0 = Some m1 ->
     CSIPgetStatus m1 = CSIP_STATUS_UNKNOWN /\ CSIPgetObjBound m1 = dbl_NaN).
Proof.
  intros Hsolve. split.
  - revert Hsolve. unfold CSIPsolve.
    intros [m1 [[H1 H]|(Hrc & H1 & ->)]]%CSIP_CALL_inv; last first.
    { right. split; [done|].
      by apply only_scip_same_cache, (reformSenseMinimize_only_scip _ rc). }
    apply CSIP_CALL_inv in H as [m2 [[H2 H]|(Hrc & H2 & ->)]]; last first.
    { right. split; [done|].
      etrans; [eapply only_scip_same_cache, reformSenseMinimize_only_scip, H1|].
      by apply CSIPsolve_addsol_store in H2 as (_ & H2). }
    assert (search_reached m m2) as Hreach by by exists m1.
    apply SCIP_in_CSIP_inv in H as [[H3 H]|(Hrc & _ & ->)]; last first.
    { right. split; [done|]. etrans; [by apply search_reached_cache|].
      apply only_scip_same_cache, only_scip_set_scip. }
    left. exists m2. fold (after_search m2) in H.
    assert (only_scip (after_discard m2) m') as Hlast.
    { apply SCIP_in_CSIP_inv in H as [[_ H]|(_ & _ & ->)]; [|done].
      fold (after_discard m2) in H.
      apply CSIP_CALL_inv in H as [m3 [[H5 H]|(_ & H5 & ->)]].
      - simplify_eq. by apply (reformSenseMinimize_only_scip _ CSIP_RETCODE_OK).
      - by apply (reformSenseMinimize_only_scip _ rc). }
    pose proof (search_reached_sense _ _ Hreach) as Hsense.
    pose proof (only_scip_same_cache _ _ Hlast) as [Hst Hob].
    split; [done|]. split; [done|]. split; [by destruct m2|].
    split; [by destruct m2|]. split.
    { rewrite <- Hsense. by destruct m2. }
    split; [by destruct m2|]. split; [by destruct m2|]. split; [done|].
    unfold CSIPgetStatus, CSIPgetObjBound. rewrite Hst, Hob. by destruct m2.
  - intros a b c rc0 m0 ops m1 Hnew [Hst Hob]%run_ops_same_cache.
    unfold CSIPgetStatus, CSIPgetObjBound. rewrite Hst, Hob. clear Hst Hob.
    revert Hnew. unfold CSIPcreateModel.
    destruct (negb a); [done|].
    destruct (retCodeSCIPtoCSIP _); [|done..].
    destruct (retCodeSCIPtoCSIP _); [|done..].
    destruct (retCodeSCIPtoCSIP _); [|done..].
    destruct (malloc b _) as [v|]; [|done].
    destruct (malloc c _) as [w|]; [|done].
    intros [m3 [[H1 H]|(_ & H1 & ?)]]%CSIP_CALL_inv; simplify_eq;
      unfold CSIPsetParameter, CSIPsetParameterGeneric in H1;
      apply SCIP_in_CSIP_inv in H1 as [[_ H1]|(_ & _ & ->)]; by simplify_eq.
Qed.

End Cache.

(** ** The growable entity store *)

Section Store.
Context {E : Engine}.
Implicit Types m model : csip_model E.

(** What [CSIPaddVar] does when the store is full and [realloc] fails. *)
Lemma CSIPaddVar_realloc_fails m lb ub t idx size :
  let r1 := SCIPcreateVarBasic (scip m) lb ub dbl_0 t in
  let r2 := SCIPaddVar (r1.2) (r1.1.2) in
  r1.1.1 = SCIP_OKAY -> r2.1.1 = SCIP_OKAY ->
  varssize m <= nvars m ->
  int_val (GROWFACTOR * varssize m) = Some size ->
  CSIPaddVar false m lb ub t idx =
    Some (CSIP_RETCODE_NOMEMORY,
          (set_vars (set_varssize (set_scip m (r2.2)) size) None, None)).
Proof.
  intros r1 r2 H1 H2 Hfull Hsize. unfold CSIPaddVar.
  rewrite SCIP_in_CSIP_OKAY by done. rewrite SCIP_in_CSIP_OKAY by done.
  destruct m; simpl in *.
  destruct (Z.geb_spec nvars0 varssize0); [|lia]. by rewrite Hsize.
Qed.

(** What [addCons] does when the store is full and [realloc] fails. *)
Lemma addCons_realloc_fails m c idx size :
  let r := SCIPaddCons (scip m) c in
  r.1.1 = SCIP_OKAY ->
  consssize m <= nconss m ->
  int_val (GROWFACTOR * consssize m) = Some size ->
  addCons false m c idx =
    Some (CSIP_RETCODE_NOMEMORY,
          (set_conss (set_consssize (set_scip m (r.2)) size) None, None)).
Proof.
  intros r H1 Hfull Hsize. unfold addCons.
  rewrite SCIP_in_CSIP_OKAY by done.
  destruct m; simpl in *.
  destruct (Z.geb_spec nconss0 consssize0); [|lia]. by rewrite Hsize.
Qed.

(** C3 (what the code does).  When the store is full and the growth
    allocation fails, adding a variable and registering a constraint do
    return OUT_OF_MEMORY with the element count unchanged and the new
    entry not appended, but the store is not left as it was: the capacity
    field has already been doubled, and the pointer to the backing array
    has been overwritten with [NULL], so the handles stored so far can no
    longer be reached through the model. *)
Theorem growth_failure_loses_the_store m lb ub t c idx :
  ((SCIPcreateVarBasic (scip m) lb ub dbl_0 t).1.1 = SCIP_OKAY ->
   (SCIPaddVar ((SCIPcreateVarBasic (scip m) lb ub dbl_0 t).2)
      ((SCIPcreateVarBasic (scip m) lb ub dbl_0 t).1.2)).1.1 = SCIP_OKAY ->
   varssize m <= nvars m -> 0 < varssize m <= 1073741823 ->
   exists m',
     CSIPaddVar false m lb ub t idx = Some (CSIP_RETCODE_NOMEMORY, (m', None)) /\
     nvars m' = nvars m /\
     varssize m' = 2 * varssize m /\ varssize m' <> varssize m /\
     vars m' = None) /\
  ((SCIPaddCons (scip m) c).1.1 = SCIP_OKAY ->
   consssize m <= nconss m -> 0 < consssize m <= 1073741823 ->
   exists m',
     addCons false m c idx = Some (CSIP_RETCODE_NOMEMORY, (m', None)) /\
     nconss m' = nconss m /\
     consssize m' = 2 * consssize m /\ consssize m' <> consssize m /\
     conss m' = None).
Proof.
  split.
  - intros H1 H2 Hfull Hrange. eexists. split.
    + apply CSIPaddVar_realloc_fails; [done..|].
      unfold int_val, GROWFACTOR, INT_MIN, INT_MAX.
      rewrite andb_true_intro; [done|]. split; apply Z.leb_le; lia.
    + destruct m; simpl in *. repeat split; lia.
  - intros H1 Hfull Hrange. eexists. split.
    + apply addCons_realloc_fails; [done..|].
      unfold int_val, GROWFACTOR, INT_MIN, INT_MAX.
      rewrite andb_true_intro; [done|]. split; apply Z.leb_le; lia.
    + destruct m; simpl in *. repeat split; lia.
Qed.

End Store.

(** ** Variable types and bounds *)

Section VarType.
Context {E : Engine}.
Implicit Types m model : csip_model E.

(** The solver commands [CSIPchgVarType] issues, by case. *)
Lemma CSIPchgVarType_unfold m i t v :
  array_get (vars m) i = Some v ->
  CSIPchgVarType m i t =
    SCIP_in_CSIP m (SCIPchgVarType (scip m) v t) (fun _ m => m)
      (fun _ m1 =>
    CSIP_CALL
      (if bool_decide (t = CSIP_VARTYPE_BINARY)
          && dbl_lt (SCIPvarGetLbLocal (scip m1) v) dbl_0
       then SCIP_in_CSIP m1 (SCIPchgVarLb (scip m1) v dbl_0)
              (fun _ m => m) (fun _ m => Some (CSIP_RETCODE_OK, m))
       else Some (CSIP_RETCODE_OK, m1))
      id (fun m2 =>
    CSIP_CALL
      (if bool_decide (t = CSIP_VARTYPE_BINARY)
          && dbl_gt (SCIPvarGetUbLocal (scip m2) v) dbl_1
       then SCIP_in_CSIP m2 (SCIPchgVarUb (scip m2) v dbl_1)
              (fun _ m => m) (fun _ m => Some (CSIP_RETCODE_OK, m))
       else Some (CSIP_RETCODE_OK, m2))
      id (fun m3 => Some (CSIP_RETCODE_OK, m3)))).
Proof. intros Hv. unfold CSIPchgVarType. by rewrite Hv. Qed.

(** A change to a type other than binary issues the type change and
    nothing else. *)
Lemma CSIPchgVarType_not_binary m i t v :
  array_get (vars m) i = Some v -> t <> CSIP_VARTYPE_BINARY ->
  CSIPchgVarType m i t =
    Some (retCodeSCIPtoCSIP ((SCIPchgVarType (scip m) v t).1.1),
          set_scip m ((SCIPchgVarType (scip m) v t).2)).
Proof.
  intros Hv Ht. rewrite (CSIPchgVarType_unfold _ _ _ _ Hv).
  rewrite bool_decide_false by done. simpl. unfold SCIP_in_CSIP. simpl.
  by destruct (retCodeSCIPtoCSIP _).
Qed.

(** A change to binary that returns OK moves each bound on its own.
    The bounds the code tests are those the solver reports once its own
    change of type is done: the lower bound goes to 0 if it is below 0,
    the upper bound to 1 if it is above 1; a bound that is not outside on
    its side stays. *)
Lemma CSIPchgVarType_binary_clamps (L : BoundLaws E) m i v m' :
  array_get (vars m) i = Some v ->
  CSIPchgVarType m i CSIP_VARTYPE_BINARY = Some (CSIP_RETCODE_OK, m') ->
  let s1 := (SCIPchgVarType (scip m) v CSIP_VARTYPE_BINARY).2 in
  SCIPvarGetLbLocal (scip m') v =
    (if dbl_lt (SCIPvarGetLbLocal s1 v) dbl_0 then dbl_0
     else SCIPvarGetLbLocal s1 v) /\
  SCIPvarGetUbLocal (scip m') v =
    (if dbl_gt (SCIPvarGetUbLocal s1 v) dbl_1 then dbl_1
     else SCIPvarGetUbLocal s1 v) /\
  (dbl_lt (SCIPvarGetLbLocal s1 v) dbl_0 = false ->
   dbl_gt (SCIPvarGetUbLocal s1 v) dbl_1 = false -> scip m' = s1).
Proof.
  intros Hv Hchg s1. rewrite (CSIPchgVarType_unfold _ _ _ _ Hv) in Hchg.
  apply SCIP_in_CSIP_OK in Hchg as [_ Hchg]. simpl in Hchg. fold s1 in Hchg.
  apply CSIP_CALL_OK in Hchg as (m2 & H2 & Hchg).
  assert (SCIPvarGetLbLocal (scip m2) v =
            (if dbl_lt (SCIPvarGetLbLocal s1 v) dbl_0 then dbl_0
             else SCIPvarGetLbLocal s1 v) /\
          SCIPvarGetUbLocal (scip m2) v = SCIPvarGetUbLocal s1 v /\
          (dbl_lt (SCIPvarGetLbLocal s1 v) dbl_0 = false -> scip m2 = s1))
    as (Hlb2 & Hub2 & Hs2).
  { destruct (dbl_lt _ _).
    - apply SCIP_in_CSIP_OK in H2 as [Hok2 H2]. simpl in *. simplify_eq.
      simpl. by rewrite (chgVarLb_lb _ L), (chgVarLb_ub _ L).
    - by simplify_eq. }
  simpl in Hchg. rewrite Hub2 in Hchg.
  apply CSIP_CALL_OK in Hchg as (m3 & H3 & Hchg). simplify_eq.
  destruct (dbl_gt _ _).
  - apply SCIP_in_CSIP_OK in H3 as [Hok3 H3]. simpl in *. simplify_eq.
    simpl. by rewrite (chgVarUb_lb _ L), (chgVarUb_ub _ L).
  - simplify_eq. split; [done|]. split; [done|]. by intros ? _; apply Hs2.
Qed.

(** C8, as amended.  A change of type to binary that returns OK moves
    each bound on its own.  The bounds the code tests are those the
    solver reports once its own change of type is done: a lower bound
    below 0 becomes exactly 0 and an upper bound above 1 becomes exactly
    1, and a bound that is not outside on its own side stays as it is,
    wherever it lies.  So the bounds end as [[0, 1]] exactly when the
    lower bound was below 0 and the upper bound above 1, and when neither
    was outside the wrapper calls the solver for the change of type
    alone.  A change to any type other than binary calls the solver for
    the change of type alone: the wrapper itself changes no bound, and
    every bound is what that call of the solver left.  The solver is any
    engine that meets [BoundLaws]; the variable is a stored one. *)
Theorem CSIPchgVarType_bounds (L : BoundLaws E) m i t v m' :
  array_get (vars m) i = Some v ->
  CSIPchgVarType m i t = Some (CSIP_RETCODE_OK, m') ->
  let s1 := (SCIPchgVarType (scip m) v t).2 in
  (t = CSIP_VARTYPE_BINARY ->
   SCIPvarGetLbLocal (scip m') v =
     (if dbl_lt (SCIPvarGetLbLocal s1 v) dbl_0 then dbl_0
      else SCIPvarGetLbLocal s1 v) /\
   SCIPvarGetUbLocal (scip m') v =
     (if dbl_gt (SCIPvarGetUbLocal s1 v) dbl_1 then dbl_1
      else SCIPvarGetUbLocal s1 v) /\
   (dbl_lt (SCIPvarGetLbLocal s1 v) dbl_0 = true ->
    dbl_gt (SCIPvarGetUbLocal s1 v) dbl_1 = true ->
    SCIPvarGetLbLocal (scip m') v = dbl_0 /\
    SCIPvarGetUbLocal (scip m') v = dbl_1) /\
   (dbl_lt (SCIPvarGetLbLocal s1 v) dbl_0 = false ->
    dbl_gt (SCIPvarGetUbLocal s1 v) dbl_1 = false -> scip m' = s1)) /\
  (t <> CSIP_VARTYPE_BINARY ->
   m' = set_scip m s1 /\
   forall w,
     SCIPvarGetLbLocal (scip m') w = SCIPvarGetLbLocal s1 w /\
     SCIPvarGetUbLocal (scip m') w = SCIPvarGetUbLocal s1 w).
Proof.
  intros Hv Hchg s1. split.
  - intros ->.
    destruct (CSIPchgVarType_binary_clamps L _ _ _ _ Hv Hchg)
      as (Hlb & Hub & Hnone).
    fold s1 in Hlb, Hub, Hnone.
    split; [exact Hlb|]. split; [exact Hub|]. split; [|exact Hnone].
    intros Hl Hu. by rewrite Hlb, Hub, Hl, Hu.
  - intros Ht. rewrite (CSIPchgVarType_not_binary _ _ _ _ Hv Ht) in Hchg.
    simplify_eq. split; [done|]. intros w. by destruct m.
Qed.

End VarType.

(** ** Reading the objective value *)

Section ObjValue.
Context {E : Engine}.
Implicit Types m model : csip_model E.

(** C10.  When the solver holds no best solution, [CSIPgetObjValue]
    returns the integer value of the generic error code converted to a
    double; a MINIMIZE model whose best solution has that very number as
    its objective value gets the same return value, so the failure cannot
    be told from a result. *)
Theorem CSIPgetObjValue_without_solution (error_code : Z) m :
  SCIPgetBestSol (scip m) = None ->
  CSIPgetObjValue error_code m = dbl_of_int error_code /\
  (forall m2 sol,
     SCIPgetBestSol (scip m2) = Some sol ->
     sense m2 = SCIP_OBJSENSE_MINIMIZE ->
     SCIPgetSolOrigObj (scip m2) sol = dbl_of_int error_code ->
     CSIPgetObjValue error_code m2 = CSIPgetObjValue error_code m).
Proof.
  intros Hnone. unfold CSIPgetObjValue. rewrite Hnone. split; [done|].
  intros m2 sol -> Hs ->. by rewrite decide_True.
Qed.

End ObjValue.

(** ** The lazy-constraint callback bridge *)

Section Lazy.
Context {E : Engine} {U : Type}.
Implicit Types m model : csip_model E.
Implicit Types d : CSIP_CBDATA.
Implicit Types callback : CSIP_LAZYCALLBACK E U.

(** C4.  On every invocation of a lazy-constraint handler the user
    callback is run on a session whose verdict is feasible.  In
    enforcement the session is in enforcement mode and gives its
    accessors no solution (they work on the solver's current one); in a
    feasibility check it is in check-only mode and gives them the
    solution under check.  When the callback returns OK the handler
    returns OKAY to the solver, and the result it reports is, in
    enforcement, FEASIBLE if the verdict is still feasible and
    constraint-added otherwise, and in a check INFEASIBLE exactly when the
    verdict is not feasible any more (FEASIBLE otherwise).  When the
    callback returns another code, the handler returns that code's
    translation, which is not OKAY. *)
Theorem lazy_handlers_report_the_verdict callback (userdata : U) m d sol
    rc m' d' :
  let enfo := ConshdlrData.mk false true (ConshdlrData.sol d) in
  let check := ConshdlrData.mk true true sol in
  (ConshdlrData.feasible enfo = true /\ ConshdlrData.checkonly enfo = false /\
   cb_sol enfo = None /\
   ConshdlrData.feasible check = true /\ ConshdlrData.checkonly check = true /\
   cb_sol check = sol) /\
  (callback m enfo userdata = Some (rc, (m', d')) ->
   exists result,
     consEnfolpLazy callback userdata m (Some d)
       = Some (retCodeCSIPtoSCIP rc, result, m', d') /\
     consEnfopsLazy callback userdata m (Some d)
       = Some (retCodeCSIPtoSCIP rc, result, m', d') /\
     (rc = CSIP_RETCODE_OK ->
      retCodeCSIPtoSCIP rc = SCIP_OKAY /\
      result = if ConshdlrData.feasible d' then SCIP_FEASIBLE
               else SCIP_CONSADDED) /\
     (rc <> CSIP_RETCODE_OK -> retCodeCSIPtoSCIP rc <> SCIP_OKAY)) /\
  (callback m check userdata = Some (rc, (m', d')) ->
   exists result,
     consCheckLazy callback userdata m (Some d) sol
       = Some (retCodeCSIPtoSCIP rc, result, m', d') /\
     (rc = CSIP_RETCODE_OK ->
      retCodeCSIPtoSCIP rc = SCIP_OKAY /\
      (result = SCIP_INFEASIBLE <-> ConshdlrData.feasible d' = false) /\
      (result = SCIP_FEASIBLE <-> ConshdlrData.feasible d' = true)) /\
     (rc <> CSIP_RETCODE_OK -> retCodeCSIPtoSCIP rc <> SCIP_OKAY)).
Proof.
  intros enfo check. subst enfo check. split; [done|]. split.
  - intros Hcb. unfold consEnfopsLazy, consEnfolpLazy. cbn [mbind option_bind].
    change (ConshdlrData.set_feasible (ConshdlrData.set_checkonly d false) true)
      with (ConshdlrData.mk false true (ConshdlrData.sol d)).
    rewrite Hcb. simpl.
    destruct rc; simpl; eexists; (split; [done|]); (split; [done|]);
      split; done.
  - intros Hcb. unfold consCheckLazy. cbn [mbind option_bind].
    change (ConshdlrData.set_sol
              (ConshdlrData.set_feasible (ConshdlrData.set_checkonly d true)
                 true) sol)
      with (ConshdlrData.mk true true sol).
    rewrite Hcb. simpl.
    destruct rc; simpl; eexists; (split; [done|]); split; try done.
    intros _. split; [done|]. by destruct (ConshdlrData.feasible d').
Qed.

(** C6.  When the solver is in its solved stage, a call of
    [CSIPcbAddLinCons] in a feasibility check (the mode the source
    asserts for this stage) sets the verdict to feasible and returns OK:
    the model, its solver session included, is what it was, so no
    constraint was built or checked and the solver was given no
    command. *)
Theorem CSIPcbAddLinCons_in_solved_stage m d n indices coefs lhs rhs islocal :
  SCIPgetStage (scip m) = SCIP_STAGE_SOLVED ->
  ConshdlrData.checkonly d = true ->
  CSIPcbAddLinCons m d n indices coefs lhs rhs islocal
    = Some (CSIP_RETCODE_OK, (m, ConshdlrData.set_feasible d true)).
Proof.
  intros Hst Hck. unfold CSIPcbAddLinCons.
  rewrite decide_True by done. by rewrite Hck.
Qed.

(** In enforcement mode the assertion of the solved-stage branch fails. *)
Lemma CSIPcbAddLinCons_in_solved_stage_enfo m d n indices coefs lhs rhs
    islocal :
  SCIPgetStage (scip m) = SCIP_STAGE_SOLVED ->
  ConshdlrData.checkonly d = false ->
  CSIPcbAddLinCons m d n indices coefs lhs rhs islocal = None.
Proof.
  intros Hst Hck. unfold CSIPcbAddLinCons.
  rewrite decide_True by done. by rewrite Hck.
Qed.

(** C5.  Outside the solved stage, a call of [CSIPcbAddLinCons] never
    touches the model's own store (counts, capacities and arrays of
    variables and constraints are what they were) nor the session's mode.
    Once the constraint is built, it is checked against the session's
    target solution ([cb_sol]: the solution under check in check-only
    mode, the solver's current one in enforcement); when the check
    returns OKAY, the verdict becomes infeasible if the check reported
    INFEASIBLE and is left alone otherwise.  In check-only mode the
    constraint is then released and the session the call ends in is the
    one [SCIPreleaseCons] left: [SCIPaddCons] was not called.  In
    enforcement mode [SCIPaddCons] hands it to the solver before the
    release. *)
Theorem CSIPcbAddLinCons_keeps_the_store m d n indices coefs lhs rhs islocal
    rc m' d' :
  SCIPgetStage (scip m) <> SCIP_STAGE_SOLVED ->
  CSIPcbAddLinCons m d n indices coefs lhs rhs islocal = Some (rc, (m', d')) ->
  only_scip m m' /\ same_store m m' /\
  ConshdlrData.checkonly d' = ConshdlrData.checkonly d /\
  ConshdlrData.sol d' = ConshdlrData.sol d /\
  (forall m1 c,
     createLinCons m n indices coefs lhs rhs
       = Some (CSIP_RETCODE_OK, (m1, c)) ->
     let chk := SCIPcheckCons (scip m1) c (cb_sol d) false false false in
     chk.1.1 = SCIP_OKAY ->
     ConshdlrData.feasible d' =
       (if decide (chk.1.2 = SCIP_INFEASIBLE) then false
        else ConshdlrData.feasible d) /\
     (ConshdlrData.checkonly d = true ->
      scip m' = (SCIPreleaseCons (chk.2) c).2 /\
      rc = retCodeSCIPtoCSIP ((SCIPreleaseCons (chk.2) c).1.1)) /\
     (ConshdlrData.checkonly d = false ->
      let add := SCIPaddCons (chk.2) c in
      (add.1.1 = SCIP_OKAY ->
       scip m' = (SCIPreleaseCons (add.2) c).2 /\
       rc = retCodeSCIPtoCSIP ((SCIPreleaseCons (add.2) c).1.1)) /\
      (add.1.1 <> SCIP_OKAY ->
       scip m' = add.2 /\ rc = retCodeSCIPtoCSIP (add.1.1)))).
Proof.
  intros Hst. unfold CSIPcbAddLinCons. rewrite decide_False by done.
  intros [[m1 c] [[Hc H]|(Hrc & Hc & ?)]]%CSIP_CALL_inv; last first.
  { simplify_eq. pose proof (createLinCons_only_scip _ _ _ _ _ _ _ _ _ Hc).
    split; [done|]. split; [by apply only_scip_same_store|].
    split; [done|]. split; [done|].
    intros ?? Hc2. rewrite Hc in Hc2. by simplify_eq. }
  pose proof (createLinCons_only_scip _ _ _ _ _ _ _ _ _ Hc) as H1. simpl in H.
  assert (only_scip m m' /\
          ConshdlrData.checkonly d' = ConshdlrData.checkonly d /\
          ConshdlrData.sol d' = ConshdlrData.sol d) as (Hfr & Hck & Hsol).
  { apply SCIP_in_CSIP_inv in H as [[_ H]|(_ & _ & ?)]; last first.
    { simplify_eq. split; [|done]. etrans; [done|apply only_scip_set_scip]. }
    apply CSIP_CALL_inv in H as [m3 [[Ha H]|(_ & Ha & ?)]].
    - assert (only_scip m1 m3) as H3.
      { destruct (negb _); simplify_eq; [|apply only_scip_set_scip].
        apply SCIP_in_CSIP_inv in Ha as [[_ ?]|(_ & _ & ->)]; simplify_eq;
          (etrans; [apply only_scip_set_scip|apply only_scip_set_scip]). }
      apply SCIP_in_CSIP_inv in H as [[_ ?]|(_ & _ & ?)]; simplify_eq;
        (split; [|by case_decide]);
        (etrans; [done|etrans; [done|apply only_scip_set_scip]]).
    - simplify_eq. split; [|by case_decide]. etrans; [done|].
      destruct (negb _); simplify_eq; [|apply only_scip_set_scip].
      apply SCIP_in_CSIP_inv in Ha as [[_ ?]|(_ & _ & ->)]; simplify_eq;
        (etrans; [apply only_scip_set_scip|apply only_scip_set_scip]). }
  split; [done|]. split; [by apply only_scip_same_store|].
  split; [done|]. split; [done|].
  intros m1' c' Hc' Hchk. rewrite Hc in Hc'. simplify_eq.
  apply SCIP_in_CSIP_OKAY_inv in H; [|done].
  set (chk := SCIPcheckCons (scip m1') c' (cb_sol d) false false false) in *.
  simpl in H. destruct (ConshdlrData.checkonly d) eqn:Hmode.
  - assert (ConshdlrData.checkonly
              (if decide (chk.1.2 = SCIP_INFEASIBLE)
               then ConshdlrData.set_feasible d false else d) = true) as Hm
      by by case_decide.
    rewrite Hm in H. simpl in H.
    unfold SCIP_in_CSIP, CSIP_CALL in H. simpl in H.
    split; [|split; [|done]].
    + destruct (retCodeSCIPtoCSIP _); simplify_eq; by case_decide.
    + intros _. by destruct (retCodeSCIPtoCSIP _); simplify_eq.
  - assert (ConshdlrData.checkonly
              (if decide (chk.1.2 = SCIP_INFEASIBLE)
               then ConshdlrData.set_feasible d false else d) = false) as Hm
      by by case_decide.
    rewrite Hm in H. simpl in H.
    unfold SCIP_in_CSIP, CSIP_CALL in H. simpl in H.
    split; [|split; [done|]].
    + destruct (retCodeSCIPtoCSIP (SCIPaddCons _ _).1.1);
        [destruct (retCodeSCIPtoCSIP _)|..]; simplify_eq; by case_decide.
    + intros _. split.
      * intros Hadd. rewrite Hadd in H. simpl in H.
        by destruct (retCodeSCIPtoCSIP _); simplify_eq.
      * intros Hadd.
        destruct ((SCIPaddCons (chk.2) c').1.1) eqn:Hrc; [done|..];
          simpl in H; by simplify_eq.
Qed.

End Lazy.

(** ** The heuristic callback bridge *)

Section Heur.
Context {E : Engine} {U : Type}.
Implicit Types m model : csip_model E.
Implicit Types d : CSIP_HEURDATA.
Implicit Types callback : CSIP_HEURCALLBACK E U.

(** C7, as amended.  On every invocation of the heuristic handler that
    returns, the slot was empty when the user callback was run.  When the
    callback returns OK without a candidate, the handler returns OKAY and
    reports DID-NOT-FIND, and the slot is empty.  When it returns OK with
    a candidate, the candidate is submitted to [SCIPtrySolFree] (bounds,
    integrality and LP rows checked); if that returns OKAY, the handler
    returns OKAY, the slot is empty again, and the result is FOUND exactly
    when the solver stored the candidate and DID-NOT-FIND otherwise.  When
    the callback returns another code, the handler returns its
    translation at once with result DID-NOT-FIND, and nothing is
    submitted: the session is the one the callback left. *)
Theorem heurExecUser_reports_the_candidate callback (userdata : U) m d
    rcs result m' d' :
  heurExecUser callback userdata m (Some d) = Some (rcs, result, m', d') ->
  HeurData.sol d = None /\
  exists rc m1 d1,
    callback m d userdata = Some (rc, (m1, d1)) /\
    (rc = CSIP_RETCODE_OK -> HeurData.sol d1 = None ->
     rcs = SCIP_OKAY /\ result = SCIP_DIDNOTFIND /\ m' = m1 /\ d' = d1 /\
     HeurData.sol d' = None) /\
    (rc = CSIP_RETCODE_OK -> forall sol, HeurData.sol d1 = Some sol ->
     rcs = (SCIPtrySolFree (scip m1) sol false true true true).1.1 /\
     m' = set_scip m1 ((SCIPtrySolFree (scip m1) sol false true true true).2) /\
     (rcs = SCIP_OKAY ->
      HeurData.sol d' = None /\
      result =
        if (SCIPtrySolFree (scip m1) sol false true true true).1.2.2
        then SCIP_FOUNDSOL else SCIP_DIDNOTFIND) /\
     (rcs <> SCIP_OKAY -> result = SCIP_DIDNOTFIND)) /\
    (rc <> CSIP_RETCODE_OK ->
     rcs = retCodeCSIPtoSCIP rc /\ rcs <> SCIP_OKAY /\
     result = SCIP_DIDNOTFIND /\ scip m' = scip m1).
Proof.
  unfold heurExecUser. cbn [mbind option_bind].
  destruct (decide (HeurData.sol d = None)) as [Hd|]; [|done].
  destruct (callback m d userdata) as [[rc [m1 d1]]|]; [|done]. simpl.
  intros H. split; [done|]. exists rc, m1, d1. split; [done|].
  destruct (decide (retCodeCSIPtoSCIP rc = SCIP_OKAY)) as [Hrc|Hrc].
  - apply retCodeCSIPtoSCIP_OKAY in Hrc as ->.
    destruct (HeurData.sol d1) as [sol|] eqn:Hsol.
    + split; [done|]. split; [|done]. intros _ sol' ?. simplify_eq.
      destruct (decide _) as [Hok|Hok] in H.
      * destruct (decide _) as [Hnull|] in H; [|done]. simplify_eq.
        rewrite Hok. done.
      * by simplify_eq.
    + simplify_eq. split; [done|]. split; [|done]. by intros.
  - simplify_eq. split; [|split].
    + intros ->. done.
    + intros ->. done.
    + done.
Qed.

End Heur.

(** ** The solver double meets the contracts *)

Lemma toy_objective_laws : ObjectiveLaws Toy.engine.
Proof.
  split; simpl; unfold Toy.set_var; simpl; intros; try done.
  - by rewrite decide_True.
  - by rewrite decide_False.
Qed.

Lemma toy_bound_laws : BoundLaws Toy.engine.
Proof.
  split; simpl; unfold Toy.set_var; simpl; intros; try done;
    by try (case_decide; simplify_eq).
Qed.

(** ** Runs on the solver double *)

(** Witness of C1: the two-variable model, solved as MAXIMIZE and as
    MINIMIZE, has its objective coefficients back after the solve. *)
Lemma CSIPsolve_sense_toggle_witness :
  same_objs (scip Toy.max_model) (scip Toy.max_solved) /\
  same_objs (scip Toy.min_model) (scip Toy.min_solved).
Proof.
  split.
  - destruct (proj1 (CSIPsolve_sense_toggle toy_objective_laws Toy.max_model)
                Toy.max_solved [0; 1]%nat) as (m1 & m2 & H);
      [vm_compute; reflexivity | vm_compute; reflexivity |
       | vm_compute; reflexivity | vm_compute; reflexivity | apply H].
    apply (bool_decide_unpack _). vm_compute. exact I.
  - apply (proj2 (CSIPsolve_sense_toggle toy_objective_laws Toy.min_model)
             CSIP_RETCODE_OK Toy.min_solved); vm_compute; reflexivity.
Defined.

(** The commands the double received during that MAXIMIZE solve, after
    the seven that built the model. *)
Example max_solve_commands :
  drop 7 (Toy.log (scip Toy.max_solved)) =
  [Toy.ChgVarObj 0%nat (dbl_neg Toy.dbl_2);
   Toy.ChgVarObj 1%nat (dbl_neg Toy.dbl_3);
   Toy.Solve; Toy.FreeTransform;
   Toy.ChgVarObj 0%nat Toy.dbl_2; Toy.ChgVarObj 1%nat Toy.dbl_3].
Proof. vm_compute. reflexivity. Qed.

(** Witness of C2: the MAXIMIZE solve of the two-variable model, whose
    search the double ends at the gap limit with dual bound 3, and a
    model that was built and not solved. *)
Lemma CSIPsolve_caches_before_discard_witness :
  (exists m2,
     search_reached Toy.max_model m2 /\
     CSIPgetStatus Toy.max_solved = getStatus (after_search m2) /\
     CSIPgetObjBound Toy.max_solved
       = dbl_neg (SCIPgetDualbound ((SCIPsolve (scip m2)).2))) /\
  CSIPgetObjBound Toy.two_vars = dbl_NaN.
Proof.
  destruct (CSIPsolve_caches_before_discard Toy.max_model CSIP_RETCODE_OK
              Toy.max_solved) as [[H|[H _]] Hnew];
    [vm_compute; reflexivity | | exfalso; apply H; reflexivity].
  split.
  - destruct H as (m2 & Hr & _ & _ & H4 & H5 & _ & _ & _ & H9 & H10).
    exists m2. rewrite H9, H10, H4, H5.
    split; [exact Hr|]. split; reflexivity.
  - apply (Hnew true true true CSIP_RETCODE_OK Toy.created
             Toy.two_vars_calls Toy.two_vars); vm_compute; reflexivity.
Defined.

(** C3 at a concrete input: the full store of the double, one more
    variable, one more constraint, and a [realloc] that fails. *)
Lemma growth_failure_on_a_full_store :
  (exists m',
     CSIPaddVar false Toy.full_model dbl_0 dbl_1 CSIP_VARTYPE_BINARY true
       = Some (CSIP_RETCODE_NOMEMORY, (m', None)) /\
     nvars m' = 64 /\ varssize m' = 128 /\ vars m' = None) /\
  (exists m',
     addCons false Toy.full_model 200%nat true
       = Some (CSIP_RETCODE_NOMEMORY, (m', None)) /\
     nconss m' = 64 /\ consssize m' = 128 /\ conss m' = None).
Proof.
  destruct (growth_failure_loses_the_store Toy.full_model dbl_0 dbl_1
              CSIP_VARTYPE_BINARY 200%nat true) as [Hv Hc].
  split.
  - destruct Hv as (m' & H1 & H2 & H3 & _ & H4);
      [vm_compute; reflexivity | vm_compute; reflexivity
      | vm_compute; discriminate | vm_compute; split; [reflexivity|discriminate]
      | ].
    exists m'. vm_compute in H2, H3.
    split; [exact H1|]. split; [exact H2|]. split; [exact H3|exact H4].
  - destruct Hc as (m' & H1 & H2 & H3 & _ & H4);
      [vm_compute; reflexivity
      | vm_compute; discriminate | vm_compute; split; [reflexivity|discriminate]
      | ].
    exists m'. vm_compute in H2, H3.
    split; [exact H1|]. split; [exact H2|]. split; [exact H3|exact H4].
Defined.

(** Witness of C4: the cut callback on a model whose solver finds every
    constraint violated, in enforcement and in a check of solution 3. *)
Lemma lazy_handlers_report_the_verdict_witness :
  (exists result,
     consEnfolpLazy Toy.cut_callback tt Toy.cb_model (Some Toy.stale_cbdata)
       = Some (SCIP_OKAY, result, Toy.after_enfo_cut.1, Toy.after_enfo_cut.2) /\
     result = SCIP_CONSADDED) /\
  (exists result,
     consCheckLazy Toy.cut_callback tt Toy.cb_model (Some Toy.stale_cbdata)
       (Some 3%nat)
       = Some (SCIP_OKAY, result, Toy.after_check_cut.1, Toy.after_check_cut.2) /\
     result = SCIP_INFEASIBLE).
Proof.
  split.
  - destruct (lazy_handlers_report_the_verdict Toy.cut_callback tt Toy.cb_model
                Toy.stale_cbdata None CSIP_RETCODE_OK
                Toy.after_enfo_cut.1 Toy.after_enfo_cut.2)
      as (_ & (result & H1 & _ & H2 & _) & _); [vm_compute; reflexivity|].
    exists result. split; [exact H1|]. 
    destruct (H2 eq_refl) as [_ ->]. vm_compute. reflexivity.
  - destruct (lazy_handlers_report_the_verdict Toy.cut_callback tt Toy.cb_model
                Toy.stale_cbdata (Some 3%nat) CSIP_RETCODE_OK
                Toy.after_check_cut.1 Toy.after_check_cut.2)
      as (_ & _ & (result & H1 & H2 & _)); [vm_compute; reflexivity|].
    exists result. split; [exact H1|].
    destruct (H2 eq_refl) as (_ & H3 & _). apply H3. vm_compute. reflexivity.
Defined.

(** Witness of C5: the cut added in enforcement and in a check. *)
Lemma CSIPcbAddLinCons_keeps_the_store_witness :
  same_store Toy.cb_model Toy.after_enfo_cut.1 /\
  same_store Toy.cb_model Toy.after_check_cut.1.
Proof.
  split.
  - apply (CSIPcbAddLinCons_keeps_the_store Toy.cb_model
             Toy.enfo_session 1 [0] [dbl_1] dbl_0 dbl_1 0 CSIP_RETCODE_OK
             Toy.after_enfo_cut.1 Toy.after_enfo_cut.2);
      [vm_compute; discriminate | vm_compute; reflexivity].
  - apply (CSIPcbAddLinCons_keeps_the_store Toy.cb_model
             Toy.check_session 1 [0] [dbl_1] dbl_0 dbl_1 0 CSIP_RETCODE_OK
             Toy.after_check_cut.1 Toy.after_check_cut.2);
      [vm_compute; discriminate | vm_compute; reflexivity].
Defined.

(** The commands the double received from the cut callback: in
    enforcement the constraint is added to the problem between the check
    and the release, in a check it is not. *)
Example cut_commands :
  drop 7 (Toy.log (scip (Toy.after_enfo_cut.1))) =
    [Toy.CreateCons 2%nat; Toy.AddCoef 2%nat 0%nat dbl_1;
     Toy.CheckCons 2%nat None; Toy.AddCons 2%nat; Toy.ReleaseCons 2%nat] /\
  drop 7 (Toy.log (scip (Toy.after_check_cut.1))) =
    [Toy.CreateCons 2%nat; Toy.AddCoef 2%nat 0%nat dbl_1;
     Toy.CheckCons 2%nat (Some 3%nat); Toy.ReleaseCons 2%nat].
Proof. vm_compute. split; reflexivity. Qed.

(** Witness of C6: the cut callback in a check made in the solved stage. *)
Lemma CSIPcbAddLinCons_in_solved_stage_witness :
  Toy.cut_callback Toy.solved_stage_model Toy.check_session tt
  = Some (CSIP_RETCODE_OK,
          (Toy.solved_stage_model,
           ConshdlrData.set_feasible Toy.check_session true)).
Proof.
  apply (CSIPcbAddLinCons_in_solved_stage); vm_compute; reflexivity.
Defined.

(** Counterexample to C7 as stated: the callback supplies a candidate and
    then returns an error.  The invocation returns ERROR to the solver
    with the candidate still in the slot (which was empty before), and
    the solver was never asked to try the candidate. *)
Lemma heurExecUser_error_keeps_the_candidate :
  heurExecUser Toy.failing_heur tt Toy.two_vars (Some Toy.heurdata0)
    = Some (SCIP_ERROR, SCIP_DIDNOTFIND,
            Toy.after_failing_heur.1, Toy.after_failing_heur.2) /\
  HeurData.sol Toy.heurdata0 = None /\
  HeurData.sol (Toy.after_failing_heur.2) = Some 2%nat /\
  existsb Toy.is_TrySolFree (Toy.log (scip (Toy.after_failing_heur.1))) = false.
Proof. vm_compute. repeat split. Qed.

(** Witness of C7 as amended: the callback that supplies the all-zero
    solution, which the double accepts. *)
Lemma heurExecUser_reports_the_candidate_witness :
  exists m' d',
    heurExecUser Toy.zero_heur tt Toy.two_vars (Some Toy.heurdata0)
      = Some (SCIP_OKAY, SCIP_FOUNDSOL, m', d') /\
    HeurData.sol Toy.heurdata0 = None /\ HeurData.sol d' = None.
Proof.
  destruct (heurExecUser Toy.zero_heur tt Toy.two_vars (Some Toy.heurdata0))
    as [[[[rcs result] m'] d']|] eqn:Hrun; [|vm_compute in Hrun; discriminate].
  destruct (heurExecUser_reports_the_candidate _ _ _ _ _ _ _ _ Hrun)
    as (H0 & rc & m1 & d1 & Hcb & _ & Hsome & _).
  assert (rc = CSIP_RETCODE_OK /\ m1 = Toy.after_zero_heur.1 /\
          d1 = Toy.after_zero_heur.2) as (-> & -> & ->).
  { vm_compute in Hcb. injection Hcb as <- <- <-. vm_compute. repeat split. }
  destruct (Hsome eq_refl 2%nat) as (Hrc & _ & Hok & _);
    [vm_compute; reflexivity|].
  vm_compute in Hrc. subst rcs. destruct (Hok eq_refl) as (Hslot & Hres).
  vm_compute in Hres. subst result. exists m', d'.
  split; [reflexivity|]. split; [exact H0|exact Hslot].
Defined.

(** Counterexample to C8 as stated, on two variables whose bounds
    exceed [[0, 1]]: [y0], with bounds [[2, 3]], made binary has the
    bounds [[2, 1]], and [y1], with bounds [[-5, 0.5]], made binary has
    the bounds [[0, 0.5]].  Both calls return OK. *)
Lemma CSIPchgVarType_binary_one_sided :
  (SCIPvarGetLbLocal (scip Samples.one_sided) 0%nat = Toy.dbl_2 /\
   SCIPvarGetUbLocal (scip Samples.one_sided) 0%nat = Toy.dbl_3 /\
   CSIPchgVarType Samples.one_sided 0 CSIP_VARTYPE_BINARY
     = Some (CSIP_RETCODE_OK, Samples.binary_y0) /\
   SCIPvarGetLbLocal (scip Samples.binary_y0) 0%nat = Toy.dbl_2 /\
   SCIPvarGetUbLocal (scip Samples.binary_y0) 0%nat = dbl_1) /\
  (SCIPvarGetLbLocal (scip Samples.one_sided) 1%nat = Toy.dbl_m5 /\
   SCIPvarGetUbLocal (scip Samples.one_sided) 1%nat = Samples.dbl_half /\
   CSIPchgVarType Samples.one_sided 1 CSIP_VARTYPE_BINARY
     = Some (CSIP_RETCODE_OK, Samples.binary_y1) /\
   SCIPvarGetLbLocal (scip Samples.binary_y1) 1%nat = dbl_0 /\
   SCIPvarGetUbLocal (scip Samples.binary_y1) 1%nat = Samples.dbl_half).
Proof. vm_compute. repeat split. Qed.

(** Witness of C8 as amended: in the two-variable model, [x1], with
    bounds [[-5, 3]], is made binary and has the bounds [[0, 1]]; [y0],
    with bounds [[2, 3]], is made binary and keeps its lower bound; and
    [x0] is made integer by the one call of the solver. *)
Lemma CSIPchgVarType_bounds_witness :
  (SCIPvarGetLbLocal (scip Samples.binary_x1) 1%nat = dbl_0 /\
   SCIPvarGetUbLocal (scip Samples.binary_x1) 1%nat = dbl_1) /\
  (SCIPvarGetLbLocal (scip Samples.binary_y0) 0%nat = Toy.dbl_2 /\
   SCIPvarGetUbLocal (scip Samples.binary_y0) 0%nat = dbl_1) /\
  Samples.integer_x0
  = set_scip Toy.two_vars
      ((SCIPchgVarType (scip Toy.two_vars) 0%nat CSIP_VARTYPE_INTEGER).2).
Proof.
  split; [|split].
  - destruct (proj1 (CSIPchgVarType_bounds toy_bound_laws Toy.two_vars 1
                       CSIP_VARTYPE_BINARY 1%nat Samples.binary_x1
                       ltac:(vm_compute; reflexivity)
                       ltac:(vm_compute; reflexivity)) eq_refl)
      as (_ & _ & Hboth & _).
    apply Hboth; vm_compute; reflexivity.
  - destruct (proj1 (CSIPchgVarType_bounds toy_bound_laws Samples.one_sided 0
                       CSIP_VARTYPE_BINARY 0%nat Samples.binary_y0
                       ltac:(vm_compute; reflexivity)
                       ltac:(vm_compute; reflexivity)) eq_refl)
      as (Hlb & Hub & _).
    split.
    + rewrite Hlb. vm_compute. reflexivity.
    + rewrite Hub. vm_compute. reflexivity.
  - apply (proj2 (CSIPchgVarType_bounds toy_bound_laws Toy.two_vars 0
                    CSIP_VARTYPE_INTEGER 0%nat Samples.integer_x0
                    ltac:(vm_compute; reflexivity)
                    ltac:(vm_compute; reflexivity))).
    discriminate.
Defined.

(** Witness of C10, with 1 for the error code: a fresh model, and a solved
    MINIMIZE model whose best solution has objective value 1. *)
Lemma CSIPgetObjValue_without_solution_witness :
  CSIPgetObjValue 1 Toy.created = dbl_of_int 1 /\
  CSIPgetObjValue 1 Toy.min_solved = CSIPgetObjValue 1 Toy.created.
Proof.
  destruct (CSIPgetObjValue_without_solution 1 Toy.created) as [H1 H2];
    [vm_compute; reflexivity|].
  split; [exact H1|]. apply (H2 Toy.min_solved 7%nat); vm_compute; reflexivity.
Defined.

(** * Further properties of the interface *)

(** ** Return codes: round trips *)

(** X1.  A wrapper code translated to the solver's codes and back is the code
    it was.  A solver code translated to the wrapper's codes and back is
    the code it was exactly when it is one of the three the wrapper names;
    every other solver code comes back as [SCIP_ERROR], and neither
    direction ever turns a failure into a success or a success into a
    failure. *)
Theorem retCode_round_trip :
  (forall rc, retCodeSCIPtoCSIP (retCodeCSIPtoSCIP rc) = rc) /\
  (forall s,
     retCodeCSIPtoSCIP (retCodeSCIPtoCSIP s) = s <->
     s ∈ [SCIP_OKAY; SCIP_ERROR; SCIP_NOMEMORY]) /\
  (forall s,
     s ∉ [SCIP_OKAY; SCIP_ERROR; SCIP_NOMEMORY] ->
     retCodeCSIPtoSCIP (retCodeSCIPtoCSIP s) = SCIP_ERROR) /\
  (forall s,
     retCodeCSIPtoSCIP (retCodeSCIPtoCSIP s) = SCIP_OKAY <-> s = SCIP_OKAY).
Proof.
  split; [by intros []|]. split; [|split].
  - intros s. rewrite !elem_of_cons, elem_of_nil.
    destruct s; simpl; intuition congruence.
  - intros s. rewrite !elem_of_cons, elem_of_nil.
    destruct s; simpl; intuition congruence.
  - intros s. destruct s; simpl; intuition congruence.
Qed.

(** ** The store: blocks and what they hold *)

Lemma block_of_length (hs : list nat) (size : Z) :
  Z.of_nat (length hs) <= size -> length (block_of hs size) = Z.to_nat size.
Proof.
  intros H. unfold block_of.
  rewrite length_app, length_fmap, length_replicate. lia.
Qed.

Lemma array_get_block (hs : list nat) (size i : Z) :
  array_get (Some (block_of hs size)) i
  = if i <? 0 then None else hs !! Z.to_nat i.
Proof.
  unfold array_get, block_of, array. destruct (i <? 0); [done|].
  destruct (decide (Z.to_nat i < length hs)%nat) as [Hlt|Hge].
  - rewrite lookup_app_l by by rewrite length_fmap.
    rewrite list_lookup_fmap.
    destruct (lookup_lt_is_Some_2 hs _ Hlt) as [h ->]. done.
  - rewrite lookup_app_r by (rewrite length_fmap; lia).
    rewrite (lookup_ge_None_2 hs) by lia.
    destruct (replicate _ _ !! _) as [x|] eqn:Hx; [|done].
    by apply lookup_replicate in Hx as [-> _].
Qed.

Lemma array_set_block (hs : list nat) (size : Z) (h : nat) :
  Z.of_nat (length hs) < size ->
  array_set (Some (block_of hs size)) (Z.of_nat (length hs)) h
  = Some (block_of (hs ++ [h]) size).
Proof.
  intros Hlt. unfold array_set, array.
  rewrite block_of_length by lia.
  rewrite andb_true_intro by (split; [apply Z.leb_le|apply Z.ltb_lt]; lia).
  f_equal. unfold block_of. rewrite Nat2Z.id.
  replace (length hs) with (length (Some <$> hs) + 0)%nat at 1
    by (rewrite length_fmap; lia).
  rewrite insert_app_r, fmap_app, length_app. simpl.
  destruct (Z.to_nat size - length hs)%nat as [|k] eqn:Hk; [lia|].
  simpl. rewrite <- app_assoc. simpl. do 3 f_equal. lia.
Qed.

Lemma realloc_block (hs : list nat) (size size' : Z) :
  Z.of_nat (length hs) <= size <= size' ->
  realloc true (Some (block_of hs size)) size' = Some (block_of hs size').
Proof.
  intros H. unfold realloc, array. simpl. f_equal.
  rewrite block_of_length by lia. unfold block_of.
  rewrite <- app_assoc, <- replicate_add.
  rewrite take_ge; [f_equal; f_equal; lia|].
  rewrite length_app, length_fmap, length_replicate. lia.
Qed.

Lemma mapM_lookup_seq {A} (hs : list A) :
  mapM (fun i => hs !! i) (seq 0 (length hs)) = Some hs.
Proof.
  apply mapM_Some, Forall2_same_length_lookup_2.
  - by rewrite length_seq.
  - intros i x y Hx Hy. apply lookup_seq in Hx as [-> _]. done.
Qed.

Section StoreFacts.
Context {E : Engine}.
Implicit Types m model : csip_model E.

Lemma vars_hold_get m hs i :
  vars_hold m hs ->
  array_get (vars m) i = if i <? 0 then None else hs !! Z.to_nat i.
Proof. intros (_ & _ & _ & ->). apply array_get_block. Qed.

Lemma conss_hold_get m cs i :
  conss_hold m cs ->
  array_get (conss m) i = if i <? 0 then None else cs !! Z.to_nat i.
Proof. intros (_ & _ & _ & ->). apply array_get_block. Qed.

Lemma vars_hold_stored m hs : vars_hold m hs -> stored_vars m = Some hs.
Proof.
  intros H. unfold stored_vars. destruct H as (Hn & H).
  rewrite Hn, Nat2Z.id. etrans; [|apply (mapM_lookup_seq hs)].
  apply mapM_ext. intros i.
  rewrite (vars_hold_get m hs) by done.
  destruct (Z.ltb_spec (Z.of_nat i) 0); [lia|]. by rewrite Nat2Z.id.
Qed.

Lemma int_val_Some (z : Z) : INT_MIN <= z <= INT_MAX -> int_val z = Some z.
Proof.
  intros H. unfold int_val.
  by rewrite andb_true_intro by (split; apply Z.leb_le; lia).
Qed.

Lemma int_val_inv (z y : Z) :
  int_val z = Some y -> y = z /\ INT_MIN <= z <= INT_MAX.
Proof.
  unfold int_val. destruct (andb _ _) eqn:H; [|done].
  apply andb_prop in H as [?%Z.leb_le ?%Z.leb_le]. intros. by simplify_eq.
Qed.

(** The tail of [CSIPaddVar] on a store with room. *)
Lemma CSIPaddVar_store_appends m hs v idx :
  vars_hold m hs -> nvars m < varssize m ->
  CSIPaddVar_store m v idx =
    Some (CSIP_RETCODE_OK,
          (set_nvars (set_vars m (Some (block_of (hs ++ [v]) (varssize m))))
             (nvars m + 1),
           if idx then Some (nvars m) else None)).
Proof.
  intros (Hn & Hle & Hsz & Hv) Hlt. unfold CSIPaddVar_store, SCIP_VAR in *.
  rewrite Hv, Hn, array_set_block by lia. simpl.
  rewrite int_val_Some by (unfold INT_MIN, INT_MAX in *; lia). done.
Qed.

Lemma vars_hold_appended m hs v :
  vars_hold m hs -> nvars m < varssize m ->
  vars_hold
    (set_nvars (set_vars m (Some (block_of (hs ++ [v]) (varssize m))))
       (nvars m + 1))
    (hs ++ [v]).
Proof.
  intros (Hn & Hle & Hsz & Hv) Hlt. unfold vars_hold, SCIP_VAR in *.
  destruct m; simpl in *.
  repeat split; try lia. rewrite length_app. simpl. lia.
Qed.

Lemma vars_hold_grown m hs size :
  vars_hold m hs -> varssize m <= size <= INT_MAX ->
  vars_hold (set_vars (set_varssize m size) (Some (block_of hs size))) hs.
Proof.
  intros (Hn & Hle & Hsz & Hv) Hs. unfold vars_hold.
  destruct m; simpl in *. repeat split; lia.
Qed.

(** [CSIPaddVar] from the resize test on. *)
Lemma CSIPaddVar_resize ok m hs v idx :
  vars_hold m hs ->
  let tail :=
    if nvars m >=? varssize m then
      size ← int_val (GROWFACTOR * varssize m);
      let model := set_varssize m size in
      let model := set_vars model (realloc ok (vars model) size) in
      if decide (vars model = None)
      then Some (CSIP_RETCODE_NOMEMORY, (model, None))
      else CSIPaddVar_store model v idx
    else CSIPaddVar_store m v idx in
  (GROWFACTOR * varssize m <= INT_MAX -> is_Some tail) /\
  (forall rc m' o,
     tail = Some (rc, (m', o)) ->
     m' = set_nvars (set_vars (set_varssize m (varssize m')) (vars m'))
            (nvars m') /\
     (rc = CSIP_RETCODE_OK ->
      vars_hold m' (hs ++ [v]) /\ nvars m' = nvars m + 1 /\
      varssize m' = grown (nvars m) (varssize m) /\
      o = (if idx then Some (nvars m) else None)) /\
     (rc <> CSIP_RETCODE_OK ->
      ok = false /\ rc = CSIP_RETCODE_NOMEMORY /\ o = None /\
      nvars m' = nvars m)).
Proof.
  intros Hh tail. subst tail. pose proof Hh as (Hn & Hle & Hsz & Hv).
  unfold SCIP_VAR in *.
  unfold grown. destruct (Z.geb_spec (nvars m) (varssize m)) as [Hfull|Hroom].
  - unfold GROWFACTOR in *. split.
    + intros Hmax. rewrite int_val_Some by (unfold INT_MIN; lia). simpl.
      destruct ok.
      * rewrite Hv, realloc_block by lia. simpl.
        erewrite CSIPaddVar_store_appends;
          [done|apply vars_hold_grown; [done|lia]|simpl; lia].
      * by rewrite decide_True.
    + intros rc m' o.
      destruct (int_val _) as [size|] eqn:Hsize; [|done].
      apply int_val_inv in Hsize as [-> Hrange]. simpl.
      destruct ok.
      * rewrite Hv, realloc_block by lia. simpl.
        erewrite CSIPaddVar_store_appends;
          [|apply vars_hold_grown; [done|lia]|simpl; lia].
        intros ?. simplify_eq. split; [by destruct m|]. split; [|done].
        intros _. split; [|by destruct m].
        apply (vars_hold_appended
                 (set_vars (set_varssize m (2 * varssize m))
                    (Some (block_of hs (2 * varssize m)))) hs v);
          [apply vars_hold_grown; [done|lia]|simpl; lia].
      * rewrite decide_True by done. intros ?. simplify_eq.
        split; [by destruct m|]. split; [done|]. intros _.
        repeat split.
  - split.
    + intros _. by erewrite CSIPaddVar_store_appends.
    + intros rc m' o. erewrite CSIPaddVar_store_appends by done.
      intros ?. simplify_eq. split; [by destruct m|]. split; [|done].
      intros _. split; [by apply vars_hold_appended|by destruct m].
Qed.

End StoreFacts.

(** ** Stable indices: adding variables and constraints *)

Section Append.
Context {E : Engine}.
Implicit Types m model : csip_model E.

Lemma vars_hold_set_scip m hs s : vars_hold m hs -> vars_hold (set_scip m s) hs.
Proof. intros H. by destruct m. Qed.

Lemma conss_hold_set_scip m cs s :
  conss_hold m cs -> conss_hold (set_scip m s) cs.
Proof. intros H. by destruct m. Qed.

(** What [CSIPaddVar] does to a variable store that holds [hs]. *)
Lemma CSIPaddVar_inv ok m hs lb ub t idx :
  vars_hold m hs ->
  (GROWFACTOR * varssize m <= INT_MAX ->
   is_Some (CSIPaddVar ok m lb ub t idx)) /\
  (forall rc m' o,
     CSIPaddVar ok m lb ub t idx = Some (rc, (m', o)) ->
     m' = set_nvars
            (set_vars (set_varssize (set_scip m (scip m')) (varssize m'))
               (vars m'))
            (nvars m') /\
     (rc = CSIP_RETCODE_OK ->
      vars_hold m' (hs ++ [(SCIPcreateVarBasic (scip m) lb ub dbl_0 t).1.2]) /\
      nvars m' = nvars m + 1 /\
      varssize m' = grown (nvars m) (varssize m) /\
      o = (if idx then Some (nvars m) else None)) /\
     (rc <> CSIP_RETCODE_OK ->
      o = None /\ nvars m' = nvars m /\ (ok = true -> vars_hold m' hs))).
Proof.
  intros Hh.
  set (r1 := SCIPcreateVarBasic (scip m) lb ub dbl_0 t).
  set (r2 := SCIPaddVar (r1.2) (r1.1.2)).
  pose proof (CSIPaddVar_resize ok (set_scip (set_scip m (r1.2)) (r2.2)) hs
                (r1.1.2) idx
                (vars_hold_set_scip _ _ _ (vars_hold_set_scip _ _ _ Hh)))
    as [Htot Hres].
  unfold CSIPaddVar, SCIP_in_CSIP, CSIP_CALL. simpl. fold r1. fold r2.
  split.
  - intros Hmax.
    destruct (retCodeSCIPtoCSIP (r1.1.1)); [|done..].
    destruct (retCodeSCIPtoCSIP (r2.1.1)); [|done..].
    apply Htot. by destruct m.
  - intros rc m' o.
    destruct (retCodeSCIPtoCSIP (r1.1.1)) eqn:H1; last first.
    { intros ?. simplify_eq. split; [by destruct m|]. split; [done|].
      intros _. split; [done|]. split; [by destruct m|].
      intros _. by apply vars_hold_set_scip. }
    { intros ?. simplify_eq. split; [by destruct m|]. split; [done|].
      intros _. split; [done|]. split; [by destruct m|].
      intros _. by apply vars_hold_set_scip. }
    destruct (retCodeSCIPtoCSIP (r2.1.1)) eqn:H2; last first.
    { intros ?. simplify_eq. split; [by destruct m|]. split; [done|].
      intros _. split; [done|]. split; [by destruct m|].
      intros _. by do 2 apply vars_hold_set_scip. }
    { intros ?. simplify_eq. split; [by destruct m|]. split; [done|].
      intros _. split; [done|]. split; [by destruct m|].
      intros _. by do 2 apply vars_hold_set_scip. }
    intros Htail. apply Hres in Htail as (Heq & Hok & Herr).
    assert (scip m' = r2.2) as Hs by (by rewrite Heq).
    split; [rewrite Hs; etrans; [exact Heq|]; by destruct m|].
    split.
    + intros Hrc. destruct (Hok Hrc) as (Hh' & Hn' & Hsz' & Ho).
      split; [done|]. split; [by destruct m|]. split; by destruct m.
    + intros Hrc. destruct (Herr Hrc) as (-> & -> & -> & Hfull).
      split; [done|]. split; [|done].
      rewrite Hfull. by destruct m.
Qed.

(** In a store that holds [hs ++ hs'], the indices of [hs] denote what
    they denote in a store that holds [hs], and the next index denotes
    the head of [hs']. *)
Lemma vars_hold_extend m m' hs hs' :
  vars_hold m hs -> vars_hold m' (hs ++ hs') ->
  (forall i, 0 <= i < nvars m -> array_get (vars m') i = array_get (vars m) i) /\
  array_get (vars m') (nvars m) = head hs'.
Proof.
  intros Hh Hh'. assert (nvars m = Z.of_nat (length hs)) as Hn by apply Hh.
  unfold SCIP_VAR in *. split.
  - intros i Hi. rewrite (vars_hold_get _ _ _ Hh'), (vars_hold_get _ _ _ Hh).
    destruct (i <? 0); [done|]. apply lookup_app_l. lia.
  - rewrite (vars_hold_get _ _ _ Hh'), Hn, Nat2Z.id.
    destruct (Z.ltb_spec (Z.of_nat (length hs)) 0); [lia|].
    rewrite lookup_app_r, Nat.sub_diag by lia. by destruct hs'.
Qed.

Lemma conss_hold_extend m m' cs cs' :
  conss_hold m cs -> conss_hold m' (cs ++ cs') ->
  (forall i, 0 <= i < nconss m ->
     array_get (conss m') i = array_get (conss m) i) /\
  array_get (conss m') (nconss m) = head cs'.
Proof.
  intros Hh Hh'. assert (nconss m = Z.of_nat (length cs)) as Hn by apply Hh.
  unfold SCIP_CONS in *. split.
  - intros i Hi. rewrite (conss_hold_get _ _ _ Hh'), (conss_hold_get _ _ _ Hh).
    destruct (i <? 0); [done|]. apply lookup_app_l. lia.
  - rewrite (conss_hold_get _ _ _ Hh'), Hn, Nat2Z.id.
    destruct (Z.ltb_spec (Z.of_nat (length cs)) 0); [lia|].
    rewrite lookup_app_r, Nat.sub_diag by lia. by destruct cs'.
Qed.

(** X2.  Adding a variable to a store that holds the handles [hs].  The call
    returns (it reads no cell it should not) as long as a doubled
    capacity is still an [int].  Whatever it returns, it changes nothing
    of the model but the solver session and the variable store.  When it
    returns OK, the store holds [hs] followed by the handle the solver
    created: the count is one more, the index reported is the old count,
    that index denotes the new variable and every earlier index denotes
    the variable it did, and the capacity is doubled exactly when the
    store was full.  When it returns another code, no index is reported
    and the count is what it was; unless [realloc] failed, the store
    still holds [hs]. *)
Theorem CSIPaddVar_appends ok m hs lb ub t idx :
  vars_hold m hs ->
  (GROWFACTOR * varssize m <= INT_MAX ->
   is_Some (CSIPaddVar ok m lb ub t idx)) /\
  (forall rc m' o,
     CSIPaddVar ok m lb ub t idx = Some (rc, (m', o)) ->
     m' = set_nvars
            (set_vars (set_varssize (set_scip m (scip m')) (varssize m'))
               (vars m'))
            (nvars m') /\
     (rc = CSIP_RETCODE_OK ->
      let v := (SCIPcreateVarBasic (scip m) lb ub dbl_0 t).1.2 in
      vars_hold m' (hs ++ [v]) /\
      nvars m' = nvars m + 1 /\
      varssize m' = grown (nvars m) (varssize m) /\
      o = (if idx then Some (nvars m) else None) /\
      array_get (vars m') (nvars m) = Some v /\
      (forall i, 0 <= i < nvars m ->
         array_get (vars m') i = array_get (vars m) i)) /\
     (rc <> CSIP_RETCODE_OK ->
      o = None /\ nvars m' = nvars m /\ (ok = true -> vars_hold m' hs))).
Proof.
  intros Hh. destruct (CSIPaddVar_inv ok m hs lb ub t idx Hh) as [Htot Hinv].
  split; [done|]. intros rc m' o Hadd.
  destruct (Hinv rc m' o Hadd) as (Hfr & Hok & Herr).
  split; [done|]. split; [|done].
  intros Hrc v. destruct (Hok Hrc) as (Hh' & Hn & Hsz & Ho).
  destruct (vars_hold_extend _ _ _ _ Hh Hh') as [Hold Hnew].
  split; [exact Hh'|]. split; [done|]. split; [done|]. split; [done|].
  split; [exact Hnew|exact Hold].
Qed.

(** The same for the constraint store. *)

Lemma addCons_store_appends m cs c idx :
  conss_hold m cs -> nconss m < consssize m ->
  addCons_store m c idx =
    Some (CSIP_RETCODE_OK,
          (set_nconss (set_conss m (Some (block_of (cs ++ [c]) (consssize m))))
             (nconss m + 1),
           if idx then Some (nconss m) else None)).
Proof.
  intros (Hn & Hle & Hsz & Hv) Hlt. unfold addCons_store, SCIP_CONS in *.
  rewrite Hv, Hn, array_set_block by lia. simpl.
  rewrite int_val_Some by (unfold INT_MIN, INT_MAX in *; lia). done.
Qed.

Lemma conss_hold_appended m cs c :
  conss_hold m cs -> nconss m < consssize m ->
  conss_hold
    (set_nconss (set_conss m (Some (block_of (cs ++ [c]) (consssize m))))
       (nconss m + 1))
    (cs ++ [c]).
Proof.
  intros (Hn & Hle & Hsz & Hv) Hlt. unfold conss_hold, SCIP_CONS in *.
  destruct m; simpl in *.
  repeat split; try lia. rewrite length_app. simpl. lia.
Qed.

Lemma conss_hold_grown m cs size :
  conss_hold m cs -> consssize m <= size <= INT_MAX ->
  conss_hold (set_conss (set_consssize m size) (Some (block_of cs size))) cs.
Proof.
  intros (Hn & Hle & Hsz & Hv) Hs. unfold conss_hold.
  destruct m; simpl in *. repeat split; lia.
Qed.

(** [addCons] from the resize test on. *)
Lemma addCons_resize ok m cs c idx :
  conss_hold m cs ->
  let tail :=
    if nconss m >=? consssize m then
      size ← int_val (GROWFACTOR * consssize m);
      let model := set_consssize m size in
      let model := set_conss model (realloc ok (conss model) size) in
      if decide (conss model = None)
      then Some (CSIP_RETCODE_NOMEMORY, (model, None))
      else addCons_store model c idx
    else addCons_store m c idx in
  (GROWFACTOR * consssize m <= INT_MAX -> is_Some tail) /\
  (forall rc m' o,
     tail = Some (rc, (m', o)) ->
     m' = set_nconss (set_conss (set_consssize m (consssize m')) (conss m'))
            (nconss m') /\
     (rc = CSIP_RETCODE_OK ->
      conss_hold m' (cs ++ [c]) /\ nconss m' = nconss m + 1 /\
      consssize m' = grown (nconss m) (consssize m) /\
      o = (if idx then Some (nconss m) else None)) /\
     (rc <> CSIP_RETCODE_OK ->
      ok = false /\ rc = CSIP_RETCODE_NOMEMORY /\ o = None /\
      nconss m' = nconss m)).
Proof.
  intros Hh tail. subst tail. pose proof Hh as (Hn & Hle & Hsz & Hv).
  unfold SCIP_CONS in *.
  unfold grown. destruct (Z.geb_spec (nconss m) (consssize m)) as [Hfull|Hroom].
  - unfold GROWFACTOR in *. split.
    + intros Hmax. rewrite int_val_Some by (unfold INT_MIN; lia). simpl.
      destruct ok.
      * rewrite Hv, realloc_block by lia. simpl.
        erewrite addCons_store_appends;
          [done|apply conss_hold_grown; [done|lia]|simpl; lia].
      * by rewrite decide_True.
    + intros rc m' o.
      destruct (int_val _) as [size|] eqn:Hsize; [|done].
      apply int_val_inv in Hsize as [-> Hrange]. simpl.
      destruct ok.
      * rewrite Hv, realloc_block by lia. simpl.
        erewrite addCons_store_appends;
          [|apply conss_hold_grown; [done|lia]|simpl; lia].
        intros ?. simplify_eq. split; [by destruct m|]. split; [|done].
        intros _. split; [|by destruct m].
        apply (conss_hold_appended
                 (set_conss (set_consssize m (2 * consssize m))
                    (Some (block_of cs (2 * consssize m)))) cs c);
          [apply conss_hold_grown; [done|lia]|simpl; lia].
      * rewrite decide_True by done. intros ?. simplify_eq.
        split; [by destruct m|]. split; [done|]. intros _.
        repeat split.
  - split.
    + intros _. by erewrite addCons_store_appends.
    + intros rc m' o. erewrite addCons_store_appends by done.
      intros ?. simplify_eq. split; [by destruct m|]. split; [|done].
      intros _. split; [by apply conss_hold_appended|by destruct m].
Qed.

(** What [addCons] does to a constraint store that holds [cs]. *)
Lemma addCons_appends ok m cs c idx :
  conss_hold m cs ->
  (GROWFACTOR * consssize m <= INT_MAX -> is_Some (addCons ok m c idx)) /\
  (forall rc m' o,
     addCons ok m c idx = Some (rc, (m', o)) ->
     m' = set_nconss
            (set_conss (set_consssize (set_scip m (scip m')) (consssize m'))
               (conss m'))
            (nconss m') /\
     (rc = CSIP_RETCODE_OK ->
      conss_hold m' (cs ++ [c]) /\ nconss m' = nconss m + 1 /\
      consssize m' = grown (nconss m) (consssize m) /\
      o = (if idx then Some (nconss m) else None)) /\
     (rc <> CSIP_RETCODE_OK ->
      o = None /\ nconss m' = nconss m /\ (ok = true -> conss_hold m' cs))).
Proof.
  intros Hh. set (r := SCIPaddCons (scip m) c).
  pose proof (addCons_resize ok (set_scip m (r.2)) cs c idx
                (conss_hold_set_scip _ _ _ Hh)) as [Htot Hres].
  unfold addCons, SCIP_in_CSIP, CSIP_CALL. simpl. fold r. split.
  - intros Hmax. destruct (retCodeSCIPtoCSIP (r.1.1)); [|done..].
    apply Htot. by destruct m.
  - intros rc m' o.
    destruct (retCodeSCIPtoCSIP (r.1.1)) eqn:H1; last first.
    { intros ?. simplify_eq. split; [by destruct m|]. split; [done|].
      intros _. split; [done|]. split; [by destruct m|].
      intros _. by apply conss_hold_set_scip. }
    { intros ?. simplify_eq. split; [by destruct m|]. split; [done|].
      intros _. split; [done|]. split; [by destruct m|].
      intros _. by apply conss_hold_set_scip. }
    intros Htail. apply Hres in Htail as (Heq & Hok & Herr).
    assert (scip m' = r.2) as Hs by (by rewrite Heq).
    split; [rewrite Hs; etrans; [exact Heq|]; by destruct m|].
    split.
    + intros Hrc. destruct (Hok Hrc) as (Hh' & Hn' & Hsz' & Ho).
      split; [done|]. split; [by destruct m|]. split; by destruct m.
    + intros Hrc. destruct (Herr Hrc) as (-> & -> & -> & Hfull).
      split; [done|]. split; [|done].
      rewrite Hfull. by destruct m.
Qed.

End Append.

(** ** The index loops *)

Lemma CSIP_CALL_is_Some {R R'} (x : outcome R) (early : R -> R')
    (k : R -> outcome R') :
  is_Some x -> (forall r, is_Some (k r)) -> is_Some (CSIP_CALL x early k).
Proof. intros [[[] r] ->] Hk; simpl; [apply Hk|done..]. Qed.

Lemma CSIP_CALL_assoc {R} (x : outcome R) (f g : R -> outcome R) :
  CSIP_CALL (CSIP_CALL x id f) id g
  = CSIP_CALL x id (fun r => CSIP_CALL (f r) id g).
Proof. by destruct x as [[[] r]|]. Qed.

Lemma CSIP_CALL_ext {R R'} (x : outcome R) (early : R -> R')
    (k k' : R -> outcome R') :
  (forall r, k r = k' r) -> CSIP_CALL x early k = CSIP_CALL x early k'.
Proof. intros H. destruct x as [[[] r]|]; simpl; by rewrite ?H. Qed.

Lemma for_loop_split {St} (a b : nat) (i : Z) (body : Z -> St -> outcome St)
    (s : St) :
  for_loop (a + b) i body s
  = CSIP_CALL (for_loop a i body s) id (for_loop b (i + Z.of_nat a) body).
Proof.
  revert i s. induction a as [|a IH]; intros i s.
  - simpl. by rewrite Z.add_0_r.
  - cbn [for_loop Nat.add]. rewrite CSIP_CALL_assoc.
    apply CSIP_CALL_ext. intros r. rewrite IH.
    by replace (i + Z.of_nat (S a)) with (i + 1 + Z.of_nat a) by lia.
Qed.

Lemma for_loop_ext {St} (n : nat) (i : Z) (body body' : Z -> St -> outcome St)
    (s : St) :
  (forall j s, i <= j < i + Z.of_nat n -> body j s = body' j s) ->
  for_loop n i body s = for_loop n i body' s.
Proof.
  revert i s. induction n as [|n IH]; intros i s H; [done|].
  simpl. rewrite H by lia. apply CSIP_CALL_ext. intros r. apply IH.
  intros j s' Hj. apply H. lia.
Qed.

Lemma for_loop_shift {St} (n : nat) (i d : Z) (body : Z -> St -> outcome St)
    (s : St) :
  for_loop n i (fun j => body (j + d)) s = for_loop n (i + d) body s.
Proof.
  revert i s. induction n as [|n IH]; intros i s; [done|].
  simpl. apply CSIP_CALL_ext. intros r. rewrite IH.
  by replace (i + d + 1) with (i + 1 + d) by lia.
Qed.

Lemma for_loop_is_Some {St} (P : St -> Prop) (n : nat) (i : Z)
    (body : Z -> St -> outcome St) (s : St) :
  (forall j s, i <= j < i + Z.of_nat n -> P s -> is_Some (body j s)) ->
  (forall j s rc s', P s -> body j s = Some (rc, s') -> P s') ->
  P s -> is_Some (for_loop n i body s).
Proof.
  intros Hsome Hkeep. revert i s Hsome.
  induction n as [|n IH]; intros i s Hsome Hs; [done|].
  simpl. destruct (Hsome i s) as [[rc s'] Hb]; [lia|done|].
  rewrite Hb. destruct rc; simpl; [|done..].
  apply IH; [|by eapply Hkeep].
  intros j s0 Hj. apply Hsome. lia.
Qed.

Lemma arg_get_app_l {A} (l1 l2 : list A) (j : Z) :
  j < Z.of_nat (length l1) -> arg_get (l1 ++ l2) j = arg_get l1 j.
Proof.
  intros H. unfold arg_get. destruct (Z.ltb_spec j 0); [done|].
  apply lookup_app_l. lia.
Qed.

Lemma arg_get_app_r {A} (l1 l2 : list A) (j : Z) :
  0 <= j -> arg_get (l1 ++ l2) (j + Z.of_nat (length l1)) = arg_get l2 j.
Proof.
  intros H. unfold arg_get.
  destruct (Z.ltb_spec (j + Z.of_nat (length l1)) 0); [lia|].
  destruct (Z.ltb_spec j 0); [lia|].
  rewrite lookup_app_r by lia. f_equal. lia.
Qed.

Section Loops.
Context {E : Engine}.
Implicit Types m model : csip_model E.
Implicit Types chg : SCIP -> SCIP_VAR -> double -> SCIP_RETCODE * unit * SCIP.

Lemma SCIP_in_CSIP_is_Some {A R} m (x : SCIP_RETCODE * A * SCIP)
    (early : A -> csip_model E -> R) (k : A -> csip_model E -> outcome R) :
  is_Some (k (x.1.2) (set_scip m (x.2))) ->
  is_Some (SCIP_in_CSIP m x early k).
Proof.
  intros Hk. unfold SCIP_in_CSIP, CSIP_CALL. simpl.
  by destruct (retCodeSCIPtoCSIP _).
Qed.

Lemma chg_step_is_Some chg indices vals j m k v x :
  arg_get indices j = Some k -> array_get (vars m) k = Some v ->
  arg_get vals j = Some x -> is_Some (chg_step chg indices vals j m).
Proof.
  intros H1 H2 H3. unfold chg_step. rewrite H1. simpl. rewrite H2. simpl.
  rewrite H3. simpl. by apply SCIP_in_CSIP_is_Some.
Qed.

(** One loop over concatenated arrays is the loop over the first arrays
    followed, if it returned OK, by the loop over the second ones. *)
Lemma chg_loop_app chg m (i1 i2 : list Z) (c1 c2 : list double) (n2 : nat) :
  length c1 = length i1 ->
  for_loop (length i1 + n2) 0 (chg_step chg (i1 ++ i2) (c1 ++ c2)) m
  = CSIP_CALL (for_loop (length i1) 0 (chg_step chg i1 c1) m) id
      (for_loop n2 0 (chg_step chg i2 c2)).
Proof.
  intros Hlen. rewrite for_loop_split.
  rewrite (for_loop_ext _ _ _ (chg_step chg i1 c1)); last first.
  { intros j s Hj. unfold chg_step. by rewrite !arg_get_app_l by lia. }
  apply CSIP_CALL_ext. intros r. rewrite <- for_loop_shift.
  apply for_loop_ext. intros j s Hj. unfold chg_step.
  rewrite arg_get_app_r by lia. rewrite <- Hlen.
  by rewrite arg_get_app_r by lia.
Qed.

(** X3.  Batching.  For each of [CSIPchgVarLB], [CSIPchgVarUB] and
    [CSIPsetObj], one call on the concatenation of two index arrays and
    of the two value arrays that go with them is the call on the first
    pair followed, if that returned OK, by the call on the second pair
    (and it returns what the first call returned otherwise, the second
    pair untouched).  The first count is the length of the first
    arrays. *)
Theorem batched_changes_compose m (i1 i2 : list Z) (c1 c2 : list double)
    (n2 : Z) :
  length c1 = length i1 -> 0 <= n2 ->
  let n1 := Z.of_nat (length i1) in
  CSIPchgVarLB m (n1 + n2) (i1 ++ i2) (c1 ++ c2)
  = CSIP_CALL (CSIPchgVarLB m n1 i1 c1) id
      (fun m1 => CSIPchgVarLB m1 n2 i2 c2) /\
  CSIPchgVarUB m (n1 + n2) (i1 ++ i2) (c1 ++ c2)
  = CSIP_CALL (CSIPchgVarUB m n1 i1 c1) id
      (fun m1 => CSIPchgVarUB m1 n2 i2 c2) /\
  CSIPsetObj m (n1 + n2) (i1 ++ i2) (c1 ++ c2)
  = CSIP_CALL (CSIPsetObj m n1 i1 c1) id
      (fun m1 => CSIPsetObj m1 n2 i2 c2).
Proof.
  intros H1 H2 n1. subst n1.
  unfold CSIPchgVarLB, CSIPchgVarUB, CSIPsetObj.
  rewrite Z2Nat.inj_add, !Nat2Z.id by lia.
  by rewrite !chg_loop_app.
Qed.

Lemma vars_hold_only_scip m m' hs :
  only_scip m m' -> vars_hold m hs -> vars_hold m' hs.
Proof. intros -> H. by apply vars_hold_set_scip. Qed.

Lemma chg_loop_is_Some chg m hs n indices vals :
  vars_hold m hs ->
  (n <= length indices)%nat -> (n <= length vals)%nat ->
  Forall (fun k => 0 <= k < nvars m) (take n indices) ->
  is_Some (for_loop n 0 (chg_step chg indices vals) m).
Proof.
  intros Hh Hi Hv Hr.
  apply (for_loop_is_Some (fun s => only_scip m s)); [| |done].
  - intros j s Hj Hs.
    destruct (lookup_lt_is_Some_2 indices (Z.to_nat j)) as [k Hk]; [lia|].
    destruct (lookup_lt_is_Some_2 vals (Z.to_nat j)) as [x Hx]; [lia|].
    assert (0 <= k < nvars m) as Hrange.
    { rewrite Forall_lookup in Hr. apply (Hr (Z.to_nat j)).
      rewrite lookup_take_lt by lia. done. }
    assert (nvars m = Z.of_nat (length hs)) as Hn by apply Hh.
    unfold SCIP_VAR in *.
    destruct (lookup_lt_is_Some_2 hs (Z.to_nat k)) as [v Hv']; [lia|].
    apply (chg_step_is_Some _ _ _ _ _ k v x).
    + unfold arg_get. by destruct (Z.ltb_spec j 0); [lia|].
    + rewrite (vars_hold_get s hs) by by eapply vars_hold_only_scip.
      by destruct (Z.ltb_spec k 0); [lia|].
    + unfold arg_get. by destruct (Z.ltb_spec j 0); [lia|].
  - intros j s rc s' Hs Hstep. etrans; [exact Hs|].
    by eapply chg_step_only_scip.
Qed.

Lemma chg_one_out_of_range chg m hs i x :
  vars_hold m hs -> ~ 0 <= i < nvars m ->
  for_loop (Z.to_nat 1) 0 (chg_step chg [i] [x]) m = None.
Proof.
  intros Hh Hi. simpl. unfold chg_step. simpl.
  rewrite (vars_hold_get m hs) by done.
  destruct (Z.ltb_spec i 0); [done|].
  rewrite lookup_ge_None_2; [done|].
  assert (nvars m = Z.of_nat (length hs)) as Hn by apply Hh.
  unfold SCIP_VAR in *. lia.
Qed.

(** X4.  No index is checked.  On a store that holds the handles [hs], a
    change of type returns exactly when its index is in [[0, nvars)]; the
    three index loops return when their arrays have at least [numindices]
    entries and the first [numindices] indices are in [[0, nvars)]; and a
    call of a loop on one index outside [[0, nvars)] does not return: it
    reads a cell that was never written, or one outside the block. *)
Theorem indices_are_not_checked m hs :
  vars_hold m hs ->
  (forall i t, is_Some (CSIPchgVarType m i t) <-> 0 <= i < nvars m) /\
  (forall n indices vals,
     (Z.to_nat n <= length indices)%nat -> (Z.to_nat n <= length vals)%nat ->
     Forall (fun k => 0 <= k < nvars m) (take (Z.to_nat n) indices) ->
     is_Some (CSIPchgVarLB m n indices vals) /\
     is_Some (CSIPchgVarUB m n indices vals) /\
     is_Some (CSIPsetObj m n indices vals)) /\
  (forall i x, ~ 0 <= i < nvars m ->
     CSIPchgVarLB m 1 [i] [x] = None /\ CSIPchgVarUB m 1 [i] [x] = None /\
     CSIPsetObj m 1 [i] [x] = None).
Proof.
  intros Hh. assert (nvars m = Z.of_nat (length hs)) as Hn by apply Hh.
  unfold SCIP_VAR in *. split; [|split].
  - intros i t. unfold CSIPchgVarType.
    rewrite (vars_hold_get m hs) by done. unfold SCIP_VAR in *. split.
    + destruct (Z.ltb_spec i 0); [by intros ?%is_Some_None|].
      destruct (hs !! Z.to_nat i) eqn:Hv; [|by intros ?%is_Some_None].
      intros _. apply lookup_lt_Some in Hv. lia.
    + intros Hi. destruct (Z.ltb_spec i 0); [lia|].
      destruct (lookup_lt_is_Some_2 hs (Z.to_nat i)) as [v ->]; [lia|].
      simpl. apply SCIP_in_CSIP_is_Some.
      apply CSIP_CALL_is_Some.
      { destruct (_ && _); [by apply SCIP_in_CSIP_is_Some|done]. }
      intros m2. apply CSIP_CALL_is_Some; [|done].
      destruct (_ && _); [by apply SCIP_in_CSIP_is_Some|done].
  - intros n indices vals Hi Hv Hr.
    unfold CSIPchgVarLB, CSIPchgVarUB, CSIPsetObj.
    repeat split; by eapply chg_loop_is_Some.
  - intros i x Hi. unfold CSIPchgVarLB, CSIPchgVarUB, CSIPsetObj.
    repeat split; by eapply chg_one_out_of_range.
Qed.

End Loops.

(** ** Setting the objective *)

Section SetObj.
Context {E : Engine}.
Implicit Types m model : csip_model E.

Lemma chg_step_OK_inv chg indices vals j m m' :
  chg_step chg indices vals j m = Some (CSIP_RETCODE_OK, m') ->
  exists k v x,
    arg_get indices j = Some k /\ array_get (vars m) k = Some v /\
    arg_get vals j = Some x /\ (chg (scip m) v x).1.1 = SCIP_OKAY /\
    m' = set_scip m ((chg (scip m) v x).2).
Proof.
  unfold chg_step.
  destruct (arg_get indices j) as [k|]; [|done]. simpl.
  destruct (array_get _ k) as [v|] eqn:Hv; [|done]. simpl.
  destruct (arg_get vals j) as [x|]; [|done]. simpl.
  intros [Hok H]%SCIP_in_CSIP_OK. simplify_eq. by exists k, v, x.
Qed.

Lemma setObj_loop_spec (L : ObjectiveLaws E) indices coefs n j m vs m' :
  mapM (fun i => idx ← arg_get indices (Z.of_nat i); array_get (vars m) idx)
    (seq j n) = Some vs ->
  for_loop n (Z.of_nat j) (chg_step SCIPchgVarObj indices coefs) m
    = Some (CSIP_RETCODE_OK, m') ->
  forall v,
    SCIPvarGetObj (scip m') v
    = default (SCIPvarGetObj (scip m) v) (last_assigned vs (drop j coefs) v).
Proof.
  revert j m vs. induction n as [|n IH]; intros j m vs Hvs Hloop v.
  - apply mapM_Some in Hvs. inversion Hvs; subst.
    simpl in Hloop. by simplify_eq.
  - apply mapM_Some in Hvs. simpl in Hvs.
    inversion Hvs as [|? v0 ? vs' Hv0 Hrest]; subst.
    simpl in Hloop. apply CSIP_CALL_OK in Hloop as (m1 & Hstep & Hloop).
    pose proof (chg_step_only_scip _ _ _ _ _ _ _ Hstep) as Hfr.
    apply chg_step_OK_inv in Hstep as (k & w & x & Hk & Hw & Hx & Hok & ->).
    rewrite Hk in Hv0. simpl in Hv0. assert (w = v0) as -> by congruence.
    replace (Z.of_nat j + 1) with (Z.of_nat (S j)) in Hloop by lia.
    assert (mapM
              (fun i => idx ← arg_get indices (Z.of_nat i);
                        array_get
                          (vars (set_scip m ((SCIPchgVarObj (scip m) v0 x).2)))
                          idx)
              (seq (S j) n) = Some vs') as Hvs'.
    { apply mapM_Some. eapply Forall2_impl; [exact Hrest|].
      intros ?? Hy. by destruct m. }
    rewrite (IH (S j) _ vs' Hvs' Hloop).
    unfold arg_get in Hx. destruct (Z.ltb_spec (Z.of_nat j) 0); [lia|].
    rewrite Nat2Z.id in Hx. rewrite (drop_S _ _ _ Hx). simpl.
    destruct (last_assigned vs' (drop (S j) coefs) v) as [y|]; [done|].
    simpl. destruct m; simpl in *. case_decide as Hv; subst.
    + by apply L.
    + apply L; done.
Qed.

(** X5.  The last write wins.  When [CSIPsetObj] returns OK, having written
    [coefs[i]] to the variable [model->vars[indices[i]]] for [i = 0, ...,
    numindices-1] in this order, every variable has the coefficient of the
    last write that named it, and a variable that no write named has the
    coefficient it had; nothing of the model but the solver session has
    changed.  The solver is any engine that meets [ObjectiveLaws]. *)
Theorem CSIPsetObj_last_write_wins (L : ObjectiveLaws E) m n indices coefs
    vs m' :
  indexed_vars m n indices = Some vs ->
  CSIPsetObj m n indices coefs = Some (CSIP_RETCODE_OK, m') ->
  only_scip m m' /\
  forall v,
    SCIPvarGetObj (scip m') v
    = default (SCIPvarGetObj (scip m) v) (last_assigned vs coefs v).
Proof.
  intros Hvs Hset. split; [by eapply chg_loop_only_scip|].
  intros v.
  by apply (setObj_loop_spec L indices coefs (Z.to_nat n) 0%nat m vs m').
Qed.

End SetObj.

(** ** Solving: failures and the initial solution *)

Section SolveMore.
Context {E : Engine}.
Implicit Types m model : csip_model E.

Lemma only_scip_initialsol m m' : only_scip m m' -> initialsol m' = initialsol m.
Proof. intros ->. by destruct m. Qed.

Lemma negated_on_same_objs vs (s s1 s2 : SCIP) :
  negated_on vs s s1 -> same_objs s1 s2 -> negated_on vs s s2.
Proof. intros H1 H2 v. by rewrite H2, (H1 v). Qed.

(** X6.  No rollback of the sign.  In a solve of a MAXIMIZE model that has
    negated the objective and reached the search, a failure of the search
    makes [CSIPsolve] return the translated code at once, and so does a
    failure of the discard of the transformed problem: in both cases the
    model is returned with the objective coefficient of every stored
    variable still multiplied by [-1.0], and still marked MAXIMIZE.  In the
    first case the cached status and bound are what they were; in the
    second they are those of the search.  The stored handles are pairwise
    distinct; the solver is any engine that meets [ObjectiveLaws]. *)
Theorem CSIPsolve_failure_keeps_the_negation (L : ObjectiveLaws E) m m2 vs :
  sense m = SCIP_OBJSENSE_MAXIMIZE ->
  stored_vars m = Some vs -> NoDup vs ->
  search_reached m m2 ->
  ((SCIPsolve (scip m2)).1.1 <> SCIP_OKAY ->
   exists rc m',
     CSIPsolve m = Some (rc, m') /\
     rc = retCodeSCIPtoCSIP ((SCIPsolve (scip m2)).1.1) /\
     rc <> CSIP_RETCODE_OK /\
     negated_on vs (scip m) (scip m') /\
     sense m' = SCIP_OBJSENSE_MAXIMIZE /\ same_cache m m') /\
  ((SCIPsolve (scip m2)).1.1 = SCIP_OKAY ->
   (SCIPfreeTransform (scip (after_search m2))).1.1 <> SCIP_OKAY ->
   exists rc m',
     CSIPsolve m = Some (rc, m') /\
     rc = retCodeSCIPtoCSIP ((SCIPfreeTransform (scip (after_search m2))).1.1) /\
     rc <> CSIP_RETCODE_OK /\
     negated_on vs (scip m) (scip m') /\
     sense m' = SCIP_OBJSENSE_MAXIMIZE /\
     same_cache (after_search m2) m').
Proof.
  intros Hs Hvs Hnd Hreach.
  pose proof (search_reached_sense _ _ Hreach) as Hs2.
  pose proof (search_reached_cache _ _ Hreach) as Hc2.
  destruct Hreach as (m1 & H1 & H2).
  pose proof (reformSenseMinimize_spec L _ _ _ Hs Hvs Hnd H1) as Hneg1.
  pose proof (CSIPsolve_addsol_objs L _ _ _ H2) as Hob2.
  pose proof (negated_on_same_objs _ _ _ _ Hneg1 Hob2) as Hneg2.
  split.
  - intros Hfail.
    exists (retCodeSCIPtoCSIP ((SCIPsolve (scip m2)).1.1)),
      (set_scip m2 ((SCIPsolve (scip m2)).2)).
    split.
    { unfold CSIPsolve. rewrite H1. simpl. rewrite H2. simpl.
      unfold SCIP_in_CSIP, CSIP_CALL. simpl.
      destruct ((SCIPsolve (scip m2)).1.1); done. }
    split; [done|]. split; [by rewrite retCodeSCIPtoCSIP_OK|].
    split.
    { eapply negated_on_same_objs; [exact Hneg2|].
      intros v. destruct m2; simpl. apply L. }
    split; [rewrite <- Hs, <- Hs2; by destruct m2|].
    etrans; [exact Hc2|]. by destruct m2.
  - intros Hok Hfail.
    exists (retCodeSCIPtoCSIP ((SCIPfreeTransform (scip (after_search m2))).1.1)),
      (after_discard m2).
    split.
    { rewrite (CSIPsolve_from_search _ _ _ H1 H2 Hok).
      by destruct ((SCIPfreeTransform (scip (after_search m2))).1.1). }
    split; [done|]. split; [by rewrite retCodeSCIPtoCSIP_OK|].
    split.
    { eapply negated_on_same_objs; [exact Hneg2|].
      apply (after_discard_objs L). }
    split; [rewrite <- Hs, <- Hs2; by destruct m2|].
    by destruct m2.
Qed.

(** X7.  An initial solution is used by one solve.  For a solver whose
    [SCIPaddSolFree] clears the pointer it is given when it returns OKAY, a
    solve that returns OK leaves no initial solution pending: a pending one
    was handed to the solver, after the objective was normalised and
    before the search, and a solve that follows hands over nothing. *)
Theorem initial_solution_is_used_once m m' :
  (forall s sol,
     (SCIPaddSolFree s sol).1.1 = SCIP_OKAY ->
     (SCIPaddSolFree s sol).1.2.1 = None) ->
  CSIPsolve m = Some (CSIP_RETCODE_OK, m') ->
  initialsol m' = None /\
  CSIPsolve_addsol m' = Some (CSIP_RETCODE_OK, m') /\
  (forall sol,
     initialsol m = Some sol ->
     exists m1,
       reformSenseMinimize m = Some (CSIP_RETCODE_OK, m1) /\
       (SCIPaddSolFree (scip m1) sol).1.1 = SCIP_OKAY /\
       CSIPsolve_addsol m1
       = Some (CSIP_RETCODE_OK,
               set_initialsol (set_scip m1 ((SCIPaddSolFree (scip m1) sol).2))
                 None)).
Proof.
  intros Hlaw (m1 & m2 & H1 & H2 & H3 & H4 & H5)%CSIPsolve_OK_inv.
  pose proof (only_scip_initialsol _ _ (reformSenseMinimize_only_scip _ _ _ H1))
    as Hi1.
  assert (initialsol m2 = None /\
          forall sol, initialsol m1 = Some sol ->
            (SCIPaddSolFree (scip m1) sol).1.1 = SCIP_OKAY /\
            m2 = set_initialsol
                   (set_scip m1 ((SCIPaddSolFree (scip m1) sol).2)) None)
    as [Hi2 Hhand].
  { revert H2. unfold CSIPsolve_addsol.
    destruct (initialsol m1) as [sol|] eqn:Hsol.
    - intros [Hok H]%SCIP_in_CSIP_OK. simplify_eq.
      rewrite (Hlaw _ _ Hok). split; [by destruct m1|].
      intros sol' ?. by simplify_eq.
    - intros ?. by simplify_eq. }
  assert (initialsol m' = None) as Hi.
  { rewrite (only_scip_initialsol _ _ (reformSenseMinimize_only_scip _ _ _ H5)).
    rewrite <- Hi2. by destruct m2. }
  split; [done|]. split.
  - unfold CSIPsolve_addsol. by rewrite Hi.
  - intros sol Hsol. exists m1. rewrite Hi1 in Hhand.
    destruct (Hhand sol Hsol) as [Hok ->]. split; [done|]. split; [done|].
    rewrite <- Hi1 in Hsol. unfold CSIPsolve_addsol. rewrite Hsol.
    rewrite SCIP_in_CSIP_OKAY by done. by rewrite (Hlaw _ _ Hok).
Qed.

End SolveMore.

(** ** Linear constraints and the constraint store *)

Section LinCons.
Context {E : Engine}.
Implicit Types m model : csip_model E.

Lemma createLinCons_handle m n indices coefs lhs rhs rc m1 c :
  createLinCons m n indices coefs lhs rhs = Some (rc, (m1, c)) ->
  c = (SCIPcreateConsBasicLinear (scip m) "lincons" lhs rhs).1.2.
Proof.
  unfold createLinCons.
  intros [[_ H]|(_ & _ & ?)]%SCIP_in_CSIP_inv; [|by simplify_eq].
  apply CSIP_CALL_inv in H as [m2 [[_ ?]|(_ & _ & ?)]]; by simplify_eq.
Qed.

Lemma createLinCons_is_Some m hs n indices coefs lhs rhs :
  vars_hold m hs ->
  (Z.to_nat n <= length indices)%nat -> (Z.to_nat n <= length coefs)%nat ->
  Forall (fun k => 0 <= k < nvars m) (take (Z.to_nat n) indices) ->
  is_Some (createLinCons m n indices coefs lhs rhs).
Proof.
  intros Hh Hi Hc Hr. unfold createLinCons.
  apply SCIP_in_CSIP_is_Some. apply CSIP_CALL_is_Some; [|done].
  set (r := SCIPcreateConsBasicLinear (scip m) "lincons" lhs rhs).
  change (createLinCons_step indices coefs (r.1.2))
    with (chg_step (fun s v x => SCIPaddCoefLinear s (r.1.2) v x) indices coefs).
  apply (chg_loop_is_Some _ _ hs); [by apply vars_hold_set_scip|done..|].
  by destruct m.
Qed.

Lemma conss_hold_only_scip m m' cs :
  only_scip m m' -> conss_hold m cs -> conss_hold m' cs.
Proof. intros -> H. by apply conss_hold_set_scip. Qed.

(** What [CSIPaddLinCons] does to stores that hold [hs] and [cs]. *)
Lemma CSIPaddLinCons_inv ok m cs n indices coefs lhs rhs idx rc m' o :
  conss_hold m cs ->
  CSIPaddLinCons ok m n indices coefs lhs rhs idx = Some (rc, (m', o)) ->
  m' = set_nconss
         (set_conss (set_consssize (set_scip m (scip m')) (consssize m'))
            (conss m'))
         (nconss m') /\
  (rc = CSIP_RETCODE_OK ->
   conss_hold m'
     (cs ++ [(SCIPcreateConsBasicLinear (scip m) "lincons" lhs rhs).1.2]) /\
   nconss m' = nconss m + 1 /\
   consssize m' = grown (nconss m) (consssize m) /\
   o = (if idx then Some (nconss m) else None)) /\
  (rc <> CSIP_RETCODE_OK ->
   o = None /\ nconss m' = nconss m /\ (ok = true -> conss_hold m' cs)).
Proof.
  intros Hh. unfold CSIPaddLinCons.
  intros [[m1 c] [[Hc H]|(Hrc & Hc & ?)]]%CSIP_CALL_inv.
  - pose proof (createLinCons_handle _ _ _ _ _ _ _ _ _ Hc) as ->.
    apply createLinCons_only_scip in Hc. simpl in H.
    pose proof (conss_hold_only_scip _ _ _ Hc Hh) as Hh1.
    destruct (addCons_appends ok m1 cs
                ((SCIPcreateConsBasicLinear (scip m) "lincons" lhs rhs).1.2)
                idx Hh1) as [_ Hinv].
    assert (addCons ok m1
              ((SCIPcreateConsBasicLinear (scip m) "lincons" lhs rhs).1.2) idx
            = Some (rc, (m', o))) as Hadd.
    { apply CSIP_CALL_inv in H as [[m2 o2] [[Ha ?]|(_ & Ha & ?)]];
        by simplify_eq/=. }
    destruct (Hinv rc m' o Hadd) as (Hfr & Hok & Herr).
    rewrite Hc in Hfr, Hok, Herr. split; [etrans; [exact Hfr|by destruct m]|].
    split.
    + intros Hrc. destruct (Hok Hrc) as (? & ? & ? & ?).
      split; [done|]. split; [by destruct m|]. split; by destruct m.
    + intros Hrc. destruct (Herr Hrc) as (? & ? & ?).
      split; [done|]. split; [by destruct m|done].
  - simplify_eq. apply createLinCons_only_scip in Hc. simpl.
    split; [rewrite Hc; by destruct m|]. split; [done|]. intros _.
    split; [done|]. split; [rewrite Hc; by destruct m|].
    intros _. by eapply conss_hold_only_scip.
Qed.

(** X8.  Registering a linear constraint on stores that hold the variables
    [hs] and the constraints [cs].  The call returns when its arrays have
    at least [numindices] entries, the first [numindices] indices are in
    [[0, nvars)], and a doubled capacity is still an [int].  Whatever it
    returns, it changes nothing of the model but the solver session and
    the constraint store: the variable store holds [hs] as before.  When
    it returns OK, the constraint store holds [cs] followed by the handle
    the solver created: the index reported is the old count, it denotes
    the new constraint, and every earlier index denotes the constraint it
    did.  When it returns another code, no index is reported and the count
    is what it was; unless [realloc] failed, the store still holds
    [cs]. *)
Theorem CSIPaddLinCons_appends ok m hs cs n indices coefs lhs rhs idx :
  vars_hold m hs -> conss_hold m cs ->
  ((Z.to_nat n <= length indices)%nat -> (Z.to_nat n <= length coefs)%nat ->
   Forall (fun k => 0 <= k < nvars m) (take (Z.to_nat n) indices) ->
   GROWFACTOR * consssize m <= INT_MAX ->
   is_Some (CSIPaddLinCons ok m n indices coefs lhs rhs idx)) /\
  (forall rc m' o,
     CSIPaddLinCons ok m n indices coefs lhs rhs idx = Some (rc, (m', o)) ->
     m' = set_nconss
            (set_conss (set_consssize (set_scip m (scip m')) (consssize m'))
               (conss m'))
            (nconss m') /\
     vars_hold m' hs /\
     (rc = CSIP_RETCODE_OK ->
      let c := (SCIPcreateConsBasicLinear (scip m) "lincons" lhs rhs).1.2 in
      conss_hold m' (cs ++ [c]) /\
      nconss m' = nconss m + 1 /\
      o = (if idx then Some (nconss m) else None) /\
      array_get (conss m') (nconss m) = Some c /\
      (forall i, 0 <= i < nconss m ->
         array_get (conss m') i = array_get (conss m) i)) /\
     (rc <> CSIP_RETCODE_OK ->
      o = None /\ nconss m' = nconss m /\ (ok = true -> conss_hold m' cs))).
Proof.
  intros Hv Hc. split.
  - intros Hi Hco Hr Hmax. unfold CSIPaddLinCons.
    destruct (createLinCons_is_Some m hs n indices coefs lhs rhs Hv Hi Hco Hr)
      as [[rc [m1 c]] Hcr].
    rewrite Hcr. destruct rc; simpl; [|done..].
    apply createLinCons_only_scip in Hcr.
    destruct (addCons_appends ok m1 cs c idx
                (conss_hold_only_scip _ _ _ Hcr Hc)) as [Htot _].
    destruct Htot as [[rc2 r2] ->]; [rewrite Hcr; by destruct m|].
    by destruct rc2.
  - intros rc m' o Hadd.
    destruct (CSIPaddLinCons_inv _ _ _ _ _ _ _ _ _ _ _ _ Hc Hadd)
      as (Hfr & Hok & Herr).
    split; [done|]. split; [rewrite Hfr; by destruct m|]. split; [|done].
    intros Hrc c. destruct (Hok Hrc) as (Hh' & Hn & Hsz & Ho).
    destruct (conss_hold_extend _ _ _ _ Hc Hh') as [Hold Hnew].
    split; [exact Hh'|]. split; [done|]. split; [done|].
    split; [exact Hnew|exact Hold].
Qed.

End LinCons.

(** ** Building keeps the indices *)

Section Stable.
Context {E : Engine}.
Implicit Types m model : csip_model E.

Lemma vars_hold_same_store m m' hs :
  same_store m m' -> vars_hold m hs -> vars_hold m' hs.
Proof.
  intros (Hn & Hs & Hv & _) H. unfold vars_hold. by rewrite Hn, Hs, Hv.
Qed.

Lemma conss_hold_same_store m m' cs :
  same_store m m' -> conss_hold m cs -> conss_hold m' cs.
Proof.
  intros (_ & _ & _ & Hn & Hs & Hv & _) H. unfold conss_hold.
  by rewrite Hn, Hs, Hv.
Qed.

Lemma CSIPsetInitialSolution_same_store m values rc m' :
  CSIPsetInitialSolution m values = Some (rc, m') -> same_store m m'.
Proof.
  unfold CSIPsetInitialSolution.
  intros [m1 [[H1 H]|(_ & H1 & ->)]]%CSIP_CALL_inv.
  - assert (same_store m m1) as Hc1.
    { destruct (initialsol m); [|by simplify_eq].
      apply SCIP_in_CSIP_inv in H1 as [[_ ?]|(_ & _ & ?)]; simplify_eq;
        by destruct m. }
    etrans; [exact Hc1|]. case_decide; [|done].
    apply SCIP_in_CSIP_inv in H as [[_ H]|(_ & _ & ?)];
      [|simplify_eq; by destruct m1].
    apply bind_Some in H as (vs & _ & H).
    apply SCIP_in_CSIP_inv in H as [[_ ?]|(_ & _ & ?)]; simplify_eq;
      by destruct m1.
  - destruct (initialsol m); [|by simplify_eq].
    apply SCIP_in_CSIP_inv in H1 as [[_ ?]|(_ & _ & ?)]; simplify_eq;
      by destruct m.
Qed.

Lemma run_op_holds op m m' hs cs :
  vars_hold m hs -> conss_hold m cs -> no_alloc_failure [op] = true ->
  run_op op m = Some m' ->
  exists hs' cs', vars_hold m' (hs ++ hs') /\ conss_hold m' (cs ++ cs').
Proof.
  intros Hv Hc Hok Hrun.
  assert (forall m0, only_scip m m0 ->
            exists hs' cs',
              vars_hold m0 (hs ++ hs') /\ conss_hold m0 (cs ++ cs')) as Hscip.
  { intros m0 H0. exists [], []. rewrite !app_nil_r.
    split; [by eapply vars_hold_only_scip|by eapply conss_hold_only_scip]. }
  assert (forall m0, same_store m m0 ->
            exists hs' cs',
              vars_hold m0 (hs ++ hs') /\ conss_hold m0 (cs ++ cs')) as Hstore.
  { intros m0 H0. exists [], []. rewrite !app_nil_r.
    split; [by eapply vars_hold_same_store|by eapply conss_hold_same_store]. }
  destruct op; simpl in Hrun, Hok;
    try (apply fmap_Some in Hrun as ([rc r] & Hrun & ->); simpl).
  - destruct r as [m1 o]. rewrite andb_true_r in Hok. subst realloc_ok.
    destruct (CSIPaddVar_inv true m hs lowerbound upperbound vartype idx Hv)
      as [_ Hinv].
    destruct (Hinv _ _ _ Hrun) as (Hfr & Hgood & Hbad). simpl.
    assert (conss_hold m1 cs) as Hc1 by (rewrite Hfr; by destruct m).
    destruct (decide (rc = CSIP_RETCODE_OK)) as [Hrc|Hrc].
    + destruct (Hgood Hrc) as (H1 & _). eexists [_], []. by rewrite app_nil_r.
    + destruct (Hbad Hrc) as (_ & _ & H1). exists [], [].
      rewrite !app_nil_r. split; [by apply H1|done].
  - by apply chg_loop_only_scip, Hscip in Hrun.
  - by apply chg_loop_only_scip, Hscip in Hrun.
  - by apply CSIPchgVarType_only_scip, Hscip in Hrun.
  - destruct r as [m1 o]. rewrite andb_true_r in Hok. subst realloc_ok.
    destruct (CSIPaddLinCons_inv _ _ _ _ _ _ _ _ _ _ _ _ Hc Hrun)
      as (Hfr & Hgood & Hbad). simpl.
    assert (vars_hold m1 hs) as Hv1 by (rewrite Hfr; by destruct m).
    destruct (decide (rc = CSIP_RETCODE_OK)) as [Hrc|Hrc].
    + destruct (Hgood Hrc) as (H1 & _). eexists [], [_]. by rewrite app_nil_r.
    + destruct (Hbad Hrc) as (_ & _ & H1). exists [], [].
      rewrite !app_nil_r. split; [done|by apply H1].
  - by apply chg_loop_only_scip, Hscip in Hrun.
  - simplify_eq. exists [], []. rewrite !app_nil_r. split; by destruct m.
  - simplify_eq. exists [], []. rewrite !app_nil_r. split; by destruct m.
  - by apply CSIPsetInitialSolution_same_store, Hstore in Hrun.
  - apply Hscip. unfold CSIPsetParameterGeneric in Hrun.
    apply SCIP_in_CSIP_inv in Hrun as [[_ ?]|(_ & _ & ->)]; simplify_eq;
      apply only_scip_set_scip.
Qed.

Lemma run_ops_holds ops m m' hs cs :
  vars_hold m hs -> conss_hold m cs -> no_alloc_failure ops = true ->
  run_ops ops m = Some m' ->
  exists hs' cs', vars_hold m' (hs ++ hs') /\ conss_hold m' (cs ++ cs').
Proof.
  revert m hs cs. induction ops as [|op ops IH]; intros m hs cs Hv Hc Hok Hrun.
  - simpl in Hrun. simplify_eq. exists [], []. by rewrite !app_nil_r.
  - simpl in Hrun. apply bind_Some in Hrun as (m1 & H1 & Hrun).
    simpl in Hok. apply andb_prop in Hok as [Hok1 Hok2].
    assert (no_alloc_failure [op] = true) as Hop
      by (simpl; rewrite andb_true_r; exact Hok1).
    destruct (run_op_holds op m m1 hs cs Hv Hc Hop H1)
      as (hs1 & cs1 & Hv1 & Hc1).
    destruct (IH m1 _ _ Hv1 Hc1 Hok2 Hrun) as (hs2 & cs2 & Hv2 & Hc2).
    exists (hs1 ++ hs2), (cs1 ++ cs2). by rewrite !app_assoc.
Qed.

(** X9.  Indices are stable.  Take stores that hold the variables [hs] and
    the constraints [cs], and any sequence of building calls (adding
    variables and linear constraints, changing bounds, types and
    objective, setting the sense, an initial solution or a parameter) in
    which [realloc] never fails; whatever codes the calls return, if they
    all return, the stores then hold [hs] and [cs] followed by what was
    added: every index of the old stores denotes the variable or
    constraint it denoted, and the counts have not decreased. *)
Theorem building_keeps_the_indices ops m m' hs cs :
  vars_hold m hs -> conss_hold m cs -> no_alloc_failure ops = true ->
  run_ops ops m = Some m' ->
  exists hs' cs',
    vars_hold m' (hs ++ hs') /\ conss_hold m' (cs ++ cs') /\
    nvars m' = nvars m + Z.of_nat (length hs') /\
    nconss m' = nconss m + Z.of_nat (length cs') /\
    (forall i, 0 <= i < nvars m ->
       array_get (vars m') i = array_get (vars m) i) /\
    (forall i, 0 <= i < nconss m ->
       array_get (conss m') i = array_get (conss m) i).
Proof.
  intros Hv Hc Hok Hrun.
  destruct (run_ops_holds _ _ _ _ _ Hv Hc Hok Hrun) as (hs' & cs' & Hv' & Hc').
  exists hs', cs'. split; [done|]. split; [done|].
  destruct (vars_hold_extend _ _ _ _ Hv Hv') as [Hvi _].
  destruct (conss_hold_extend _ _ _ _ Hc Hc') as [Hci _].
  destruct Hv as (Hn & _), Hv' as (Hn' & _), Hc as (Hk & _), Hc' as (Hk' & _).
  rewrite length_app in Hn', Hk'. repeat split; try done; lia.
Qed.

End Stable.

(** ** Creating a model *)

Section Create.
Context {E : Engine}.
Implicit Types m model : csip_model E.

(** X10.  [CSIPcreateModel] always returns, and it returns OK exactly
    when the three allocations succeed and its four solver calls return
    OKAY.  It leaves [NULL] in [*modelptr] exactly when the first
    allocation fails, and then returns OUT_OF_MEMORY.  On every later
    failure the struct stays allocated and is left in [*modelptr], not
    freed: with neither store written when one of the first three solver
    calls failed, with the variable array [NULL] and the constraint store
    not written when the second allocation failed, with the constraint
    array [NULL] when the third failed; in these cases the six fields
    after the stores are not written either.  When every field was
    written, that is on OK and when only the last solver call (the one
    that sets the display width) failed, the struct is a fresh model:
    both stores are empty with capacity 64, no callback is counted, the
    sense is MINIMIZE, no initial solution is pending, the cached status
    is UNKNOWN and the cached bound is NaN. *)
Theorem CSIPcreateModel_fresh (a b c : bool) :
  let r1 := SCIPcreate (Engine:=E) in
  let r2 := SCIPincludeDefaultPlugins (r1.2) in
  let r3 := SCIPcreateProbBasic (r2.2) "name" in
  let r4 := SCIPsetParam (r3.2) "display/width" 80 in
  exists rc p,
    CSIPcreateModel (E:=E) a b c = Some (rc, p) /\
    (p = Null <-> a = false) /\
    (a = false -> rc = CSIP_RETCODE_NOMEMORY) /\
    (rc = CSIP_RETCODE_OK <->
     a = true /\ b = true /\ c = true /\
     r1.1.1 = SCIP_OKAY /\ r2.1.1 = SCIP_OKAY /\ r3.1.1 = SCIP_OKAY /\
     r4.1.1 = SCIP_OKAY) /\
    (forall u,
       p = Unfinished u ->
       rc <> CSIP_RETCODE_OK /\
       match vars_written u, conss_written u with
       | None, None =>
           ~ (r1.1.1 = SCIP_OKAY /\ r2.1.1 = SCIP_OKAY /\ r3.1.1 = SCIP_OKAY)
       | Some v, None =>
           b = false /\ rc = CSIP_RETCODE_NOMEMORY /\
           v = (0, INITIALSIZE, None)
       | Some v, Some w =>
           b = true /\ c = false /\ rc = CSIP_RETCODE_NOMEMORY /\
           v = (0, INITIALSIZE, malloc true INITIALSIZE) /\
           w = (0, INITIALSIZE, None)
       | None, Some _ => False
       end) /\
    (forall m,
       p = Finished m ->
       rc = retCodeSCIPtoCSIP (r4.1.1) /\ scip m = r4.2 /\
       vars_hold m [] /\ conss_hold m [] /\
       varssize m = INITIALSIZE /\ consssize m = INITIALSIZE /\
       CSIPgetNumVars m = 0 /\ nlazycb m = 0 /\ nheur m = 0 /\
       sense m = SCIP_OBJSENSE_MINIMIZE /\ initialsol m = None /\
       CSIPgetStatus m = CSIP_STATUS_UNKNOWN /\ CSIPgetObjBound m = dbl_NaN).
Proof.
  intros r1 r2 r3 r4. unfold CSIPcreateModel.
  destruct a; last first.
  { eexists _, _. split; [reflexivity|]. split; [done|]. split; [done|].
    split; [split; [done|by intros (? & _)]|]. split; by intros ? ?. }
  cbv zeta. fold r1. fold r2. fold r3.
  destruct (r1.1.1) eqn:H1.
  2-4: eexists _, _; (split; [reflexivity|]); (split; [done|]);
    (split; [done|]); (split; [split; [done|by intros (_ & _ & _ & ? & _)]|]);
    (split; [|by intros ? ?]); intros ? [= <-]; (split; [done|]);
    by intros (? & _).
  destruct (r2.1.1) eqn:H2.
  2-4: eexists _, _; (split; [reflexivity|]); (split; [done|]);
    (split; [done|]);
    (split; [split; [done|by intros (_ & _ & _ & _ & ? & _)]|]);
    (split; [|by intros ? ?]); intros ? [= <-]; (split; [done|]);
    by intros (_ & ? & _).
  destruct (r3.1.1) eqn:H3.
  2-4: eexists _, _; (split; [reflexivity|]); (split; [done|]);
    (split; [done|]);
    (split; [split; [done|by intros (_ & _ & _ & _ & _ & ? & _)]|]);
    (split; [|by intros ? ?]); intros ? [= <-]; (split; [done|]);
    by intros (_ & _ & ?).
  simpl. destruct b; simpl; last first.
  { eexists _, _. split; [reflexivity|]. split; [done|]. split; [done|].
    split; [split; [done|by intros (_ & ? & _)]|].
    split; [|by intros ? ?]. by intros ? [= <-]. }
  destruct c; simpl; last first.
  { eexists _, _. split; [reflexivity|]. split; [done|]. split; [done|].
    split; [split; [done|by intros (_ & _ & ? & _)]|].
    split; [|by intros ? ?]. by intros ? [= <-]. }
  unfold CSIPsetParameter, CSIPsetParameterGeneric, SCIP_in_CSIP, CSIP_CALL.
  simpl. fold r4.
  destruct (r4.1.1) eqn:H4; simpl;
    eexists _, _; (split; [reflexivity|]); (split; [done|]);
    (split; [done|]);
    (split; [split; [done|by intros (_ & _ & _ & _ & _ & _ & ?)]|]);
    (split; [by intros ? ?|]); intros m [= <-];
    unfold vars_hold, conss_hold; simpl; repeat split; done.
Qed.

End Create.

(** ** Reading values *)

Section Values.
Context {E : Engine}.
Implicit Types m model : csip_model E.

(** X11.  The value readers follow the store.  On a store that holds the
    handles [hs], [CSIPgetVarValues] without a best solution returns ERROR
    and writes nothing; with one it returns OK and writes one value per
    stored variable, in index order, read from the best solution.
    [CSIPcbGetVarValues] always returns OK and writes one value per stored
    variable, read from the session's solution: in a check the solution
    under check, in enforcement the solver's current one, whatever
    solution the plugin data still names.  Both write [CSIPgetNumVars]
    values. *)
Theorem value_readers_follow_the_store m hs :
  vars_hold m hs ->
  (SCIPgetBestSol (scip m) = None ->
   CSIPgetVarValues m = Some (CSIP_RETCODE_ERROR, [])) /\
  (forall best,
     SCIPgetBestSol (scip m) = Some best ->
     CSIPgetVarValues m
     = Some (CSIP_RETCODE_OK, map (SCIPgetSolVal (scip m) (Some best)) hs)) /\
  (forall d,
     CSIPcbGetVarValues m d
     = Some (CSIP_RETCODE_OK,
             map (SCIPgetSolVal (scip m)
                    (if ConshdlrData.checkonly d then ConshdlrData.sol d
                     else None)) hs)) /\
  (forall rc out d,
     CSIPgetVarValues m = Some (CSIP_RETCODE_OK, out) \/
     CSIPcbGetVarValues m d = Some (rc, out) ->
     Z.of_nat (length out) = CSIPgetNumVars m).
Proof.
  intros Hh. pose proof (vars_hold_stored _ _ Hh) as Hst.
  assert (nvars m = Z.of_nat (length hs)) as Hn by apply Hh.
  unfold CSIPgetVarValues, CSIPcbGetVarValues, CSIPgetNumVars, cb_sol.
  rewrite Hst. simpl. split; [|split; [|split]].
  - intros ->. by rewrite decide_True.
  - intros best ->. by rewrite decide_False.
  - done.
  - intros rc out d [H|H].
    + case_decide; simplify_eq. by rewrite length_map.
    + simplify_eq. by rewrite length_map.
Qed.

End Values.

(** ** What a callback can see of the plugin data *)

Section CallbackView.
Context {E : Engine}.
Implicit Types m model : csip_model E.
Implicit Types d : CSIP_CBDATA.

Lemma same_run_refl (r : outcome (csip_model E * CSIP_CBDATA)) : same_run r r.
Proof. destruct r as [[rc [m d]]|]; simpl; [|done]. by repeat split. Qed.

Lemma CSIPcbAddLinCons_agree m d1 d2 n indices coefs lhs rhs islocal :
  cb_agree d1 d2 ->
  same_run (CSIPcbAddLinCons m d1 n indices coefs lhs rhs islocal)
    (CSIPcbAddLinCons m d2 n indices coefs lhs rhs islocal).
Proof.
  destruct d1 as [c1 f1 s1], d2 as [c2 f2 s2]. unfold cb_agree, cb_sol. simpl.
  intros (-> & -> & Hs). destruct c2.
  { subst. apply same_run_refl. }
  unfold CSIPcbAddLinCons, cb_sol. simpl. case_decide; [done|].
  destruct (createLinCons _ _ _ _ _ _) as [[rc [m1 c]]|]; [|done].
  destruct rc; simpl; [|by repeat split..].
  unfold SCIP_in_CSIP, CSIP_CALL. simpl.
  destruct (retCodeSCIPtoCSIP _); simpl; [|by repeat split..].
  case_decide; simpl.
  - destruct (retCodeSCIPtoCSIP _); simpl; [|by repeat split..].
    destruct (retCodeSCIPtoCSIP _); simpl; by repeat split.
  - destruct (retCodeSCIPtoCSIP _); simpl; [|by repeat split..].
    destruct (retCodeSCIPtoCSIP _); simpl; by repeat split.
Qed.

Lemma CSIPcbAddLinCons_sol m d n indices coefs lhs rhs islocal rc m' d' :
  CSIPcbAddLinCons m d n indices coefs lhs rhs islocal = Some (rc, (m', d')) ->
  ConshdlrData.sol d' = ConshdlrData.sol d.
Proof.
  unfold CSIPcbAddLinCons. case_decide as Hst.
  { destruct (ConshdlrData.checkonly d); [|done]. intros. by simplify_eq. }
  intros [[m1 c] [[Hc H]|(_ & _ & ?)]]%CSIP_CALL_inv; [|by simplify_eq].
  simpl in H.
  apply SCIP_in_CSIP_inv in H as [[_ H]|(_ & _ & ?)]; [|by simplify_eq].
  apply CSIP_CALL_inv in H as [m3 [[_ H]|(_ & _ & ?)]];
    [|simplify_eq; by case_decide].
  apply SCIP_in_CSIP_inv in H as [[_ ?]|(_ & _ & ?)]; simplify_eq;
    by case_decide.
Qed.

Lemma run_cb_agree (p : cb_prog) m d1 d2 :
  cb_agree d1 d2 -> same_run (run_cb p m d1) (run_cb p m d2).
Proof.
  revert m d1 d2. induction p as [rc|k IH|n indices coefs lhs rhs islocal k IH|A f k IH];
    intros m d1 d2 Hd; simpl.
  - split; [done|]. by split.
  - unfold CSIPcbGetVarValues.
    pose proof Hd as (Hc & Hf & Hs). rewrite Hs.
    destruct (stored_vars m) as [vs|]; [|done]. simpl. by apply IH.
  - pose proof (CSIPcbAddLinCons_agree m d1 d2 n indices coefs lhs rhs islocal Hd)
      as Hadd.
    destruct (CSIPcbAddLinCons m d1 _ _ _ _ _ _) as [[rc1 [m1 e1]]|],
      (CSIPcbAddLinCons m d2 _ _ _ _ _ _) as [[rc2 [m2 e2]]|];
      simpl in *; try done.
    destruct Hadd as (-> & -> & He). by apply IH.
  - destruct (f m) as [[a m1]|]; [|done]. simpl. by apply IH.
Qed.

Lemma run_cb_sol (p : cb_prog) m d rc m' d' :
  run_cb p m d = Some (rc, (m', d')) ->
  ConshdlrData.sol d' = ConshdlrData.sol d.
Proof.
  revert m d. induction p as [rc0|k IH|n indices coefs lhs rhs islocal k IH|A f k IH];
    intros m d; simpl.
  - intros. by simplify_eq.
  - intros (r & _ & H)%bind_Some. by apply IH in H.
  - intros ([rc1 [m1 d1]] & Hadd & H)%bind_Some. apply IH in H. simpl in H.
    rewrite H. by apply CSIPcbAddLinCons_sol in Hadd.
  - intros ([a m1] & _ & H)%bind_Some. by apply IH in H.
Qed.

(** X12.  Enforcement never sees a stale solution, and no handler sees what
    the plugin data held before.  For a callback that works on the plugin
    data through the interface, two invocations of the enforcement handler
    on the same model that differ only in the plugin data they find
    (whatever mode, verdict and solution an earlier invocation left
    there) either both fail to return or return the same code, the same
    result and the same model, and leave plugin data that no accessor can
    tell apart: the solution field alone still differs, each invocation
    having left it as it found it.  Two such invocations of the check
    handler on the same solution are equal in everything. *)
Theorem handlers_ignore_what_the_data_held {U} (p : U -> cb_prog) (u : U) m
    d1 d2 sol :
  match consEnfolpLazy (cb_of p) u m (Some d1),
        consEnfolpLazy (cb_of p) u m (Some d2) with
  | Some (rc1, res1, m1, e1), Some (rc2, res2, m2, e2) =>
      rc1 = rc2 /\ res1 = res2 /\ m1 = m2 /\ cb_agree e1 e2 /\
      ConshdlrData.sol e1 = ConshdlrData.sol d1 /\
      ConshdlrData.sol e2 = ConshdlrData.sol d2
  | None, None => True
  | _, _ => False
  end /\
  consCheckLazy (cb_of p) u m (Some d1) sol
  = consCheckLazy (cb_of p) u m (Some d2) sol.
Proof.
  split; [|done].
  unfold consEnfolpLazy, cb_of. cbn [mbind option_bind].
  set (e1 := ConshdlrData.set_feasible (ConshdlrData.set_checkonly d1 false) true).
  set (e2 := ConshdlrData.set_feasible (ConshdlrData.set_checkonly d2 false) true).
  assert (cb_agree e1 e2) as He by done.
  pose proof (run_cb_agree (p u) m e1 e2 He) as Hrun.
  pose proof (run_cb_sol (p u) m e1) as Hs1.
  pose proof (run_cb_sol (p u) m e2) as Hs2.
  destruct (run_cb (p u) m e1) as [[rc1 [m1 f1]]|],
    (run_cb (p u) m e2) as [[rc2 [m2 f2]]|]; simpl in *; try done.
  destruct Hrun as (-> & -> & Hf).
  specialize (Hs1 _ _ _ eq_refl). specialize (Hs2 _ _ _ eq_refl).
  pose proof Hf as (Hc & Hfe & Hsol).
  case_decide; simpl; rewrite ?Hfe; (split; [done|]); (split; [done|]);
    (split; [done|]); split; done.
Qed.

End CallbackView.

(** ** Variable types read back *)

Section GetVarType.
Context {X : EngineExt}.
Implicit Types m model : csip_model engine_base.

(** X13.  [CSIPgetVarType] checks its index, with an [assert].  It
    returns only for an index in [[0, nvars)], and on a store that holds
    the handles [hs] it returns for every such index.  What it returns is
    the wrapper's type whose name the solver's type of the variable has:
    a type [t] exactly when the solver's type is the one named like [t],
    and [-1] exactly when the solver's type is none of the four. *)
Theorem CSIPgetVarType_checks_its_index m hs i :
  vars_hold m hs ->
  (is_Some (CSIPgetVarType m i) <-> 0 <= i < nvars m) /\
  (forall r,
     CSIPgetVarType m i = Some r ->
     exists v,
       hs !! Z.to_nat i = Some v /\
       (forall t, r = Some t <-> SCIPvarGetType (scip m) v = scip_vartype t) /\
       (r = None <-> exists tag,
                       SCIPvarGetType (scip m) v = SCIP_VARTYPE_OTHER tag)).
Proof.
  intros Hh. assert (nvars m = Z.of_nat (length hs)) as Hn by apply Hh.
  unfold CSIPgetVarType. rewrite (vars_hold_get m hs) by done.
  unfold SCIP_VAR in *.
  destruct (Z.leb_spec 0 i) as [H0|H0]; simpl; last first.
  { split; [|done]. split; [by intros ?%is_Some_None|lia]. }
  destruct (Z.ltb_spec i (nvars m)) as [H1|H1]; simpl; last first.
  { split; [|done]. split; [by intros ?%is_Some_None|lia]. }
  destruct (Z.ltb_spec i 0); [lia|].
  destruct (lookup_lt_is_Some_2 hs (Z.to_nat i)) as [v Hv]; [lia|].
  rewrite Hv. simpl. split; [split; [lia|by eexists]|].
  intros r ?. simplify_eq. exists v. split; [done|].
  destruct (SCIPvarGetType (scip m) v) eqn:Ht; (split; [intros []|]);
    split; try done; try (intros [? ?]; done); try by eexists.
Qed.

End GetVarType.

(** ** Quadratic and SOS constraints *)

Section OtherCons.
Context {X : EngineExt}.
Implicit Types m model : csip_model engine_base.

Lemma CSIPaddQuadCons_bilin_only_scip rows cols coefs c i m rc m' :
  CSIPaddQuadCons_bilin rows cols coefs c i m = Some (rc, m') ->
  only_scip m m'.
Proof.
  unfold CSIPaddQuadCons_bilin.
  destruct (arg_get rows i) as [row|]; [|done]. simpl.
  destruct (array_get _ row) as [v1|]; [|done]. simpl.
  destruct (arg_get cols i) as [col|]; [|done]. simpl.
  destruct (array_get _ col) as [v2|]; [|done]. simpl.
  destruct (arg_get coefs i) as [x|]; [|done]. simpl.
  intros [[_ ?]|(_ & _ & ->)]%SCIP_in_CSIP_inv; [simplify_eq|];
    apply only_scip_set_scip.
Qed.

(** What [CSIPaddQuadCons] reaches [addCons] with. *)
Lemma CSIPaddQuadCons_inv ok m nl li lc nq qr qc qx lhs rhs idx rc m' o :
  CSIPaddQuadCons ok m nl li lc nq qr qc qx lhs rhs idx = Some (rc, (m', o)) ->
  let c := (SCIPcreateConsBasicQuadratic (scip m) "quadcons" lhs rhs).1.2 in
  (exists m1, only_scip m m1 /\ addCons ok m1 c idx = Some (rc, (m', o))) \/
  (rc <> CSIP_RETCODE_OK /\ only_scip m m' /\ o = None).
Proof.
  intros H c. unfold CSIPaddQuadCons in H.
  apply SCIP_in_CSIP_inv in H as [[_ H]|(Hrc & _ & ?)]; last first.
  { right. simplify_eq. split; [done|]. split; [apply only_scip_set_scip|done]. }
  fold c in H.
  apply CSIP_CALL_inv in H as [m1 [[H1 H]|(Hrc & H1 & ?)]]; last first.
  { right. simplify_eq. split; [done|]. split; [|done].
    etrans; [apply only_scip_set_scip|].
    by apply (chg_loop_only_scip
                (fun s v x => SCIPaddLinearVarQuadratic s c v x)) in H1. }
  apply (chg_loop_only_scip
           (fun s v x => SCIPaddLinearVarQuadratic s c v x)) in H1.
  apply CSIP_CALL_inv in H as [m2 [[H2 H]|(Hrc & H2 & ?)]]; last first.
  { right. simplify_eq. split; [done|]. split; [|done].
    etrans; [apply only_scip_set_scip|]. etrans; [exact H1|].
    eapply (for_loop_rel only_scip); [|exact H2].
    intros ????. apply CSIPaddQuadCons_bilin_only_scip. }
  assert (only_scip m1 m2) as H12.
  { eapply (for_loop_rel only_scip); [|exact H2].
    intros ????. apply CSIPaddQuadCons_bilin_only_scip. }
  left. exists m2. split.
  { etrans; [apply only_scip_set_scip|]. by etrans. }
  apply CSIP_CALL_inv in H as [[m3 o3] [[Ha ?]|(_ & Ha & ?)]]; by simplify_eq/=.
Qed.

(** X14.  A quadratic constraint is stored like a linear one.  On a
    constraint store that holds [cs], a call of [CSIPaddQuadCons] that
    returns changes nothing of the model but the solver session and the
    constraint store.  When it returns OK the store holds [cs] followed by
    the handle the solver created, the index reported is the old count
    and denotes the new constraint, and every earlier index denotes the
    constraint it did.  When it returns another code, no index is
    reported and the count is what it was; unless [realloc] failed, the
    store still holds [cs]. *)
Theorem CSIPaddQuadCons_appends ok m cs nl li lc nq qr qc qx lhs rhs idx
    rc m' o :
  conss_hold m cs ->
  CSIPaddQuadCons ok m nl li lc nq qr qc qx lhs rhs idx = Some (rc, (m', o)) ->
  m' = set_nconss
         (set_conss (set_consssize (set_scip m (scip m')) (consssize m'))
            (conss m'))
         (nconss m') /\
  (rc = CSIP_RETCODE_OK ->
   let c := (SCIPcreateConsBasicQuadratic (scip m) "quadcons" lhs rhs).1.2 in
   conss_hold m' (cs ++ [c]) /\
   nconss m' = nconss m + 1 /\
   o = (if idx then Some (nconss m) else None) /\
   array_get (conss m') (nconss m) = Some c /\
   (forall i, 0 <= i < nconss m ->
      array_get (conss m') i = array_get (conss m) i)) /\
  (rc <> CSIP_RETCODE_OK ->
   o = None /\ nconss m' = nconss m /\ (ok = true -> conss_hold m' cs)).
Proof.
  intros Hc Hadd.
  apply CSIPaddQuadCons_inv in Hadd as [(m1 & H1 & Hadd)|(Hrc & H1 & ->)].
  - destruct (addCons_appends ok m1 cs
                ((SCIPcreateConsBasicQuadratic (scip m) "quadcons" lhs rhs).1.2)
                idx (conss_hold_only_scip _ _ _ H1 Hc))
      as [_ Hinv].
    destruct (Hinv _ _ _ Hadd) as (Hfr & Hok & Herr).
    rewrite H1 in Hfr, Hok, Herr. split; [etrans; [exact Hfr|by destruct m]|].
    split.
    + intros Hrc c. destruct (Hok Hrc) as (Hh' & Hn & _ & Ho).
      destruct (conss_hold_extend _ _ _ _ Hc Hh') as [Hold Hnew].
      split; [exact Hh'|]. split; [by destruct m|]. split; [by destruct m|].
      split; [exact Hnew|exact Hold].
    + intros Hrc. destruct (Herr Hrc) as (? & ? & ?).
      split; [done|]. split; [by destruct m|done].
  - split; [rewrite H1; by destruct m|]. split; [done|]. intros _.
    split; [done|]. split; [rewrite H1; by destruct m|].
    intros _. by eapply conss_hold_only_scip.
Qed.

(** What [CSIPaddSOS] does on stores that hold [hs] and [cs]. *)
Lemma CSIPaddSOS_inv create name ok m hs cs n indices weights idx rc m' o live :
  vars_hold m hs -> conss_hold m cs ->
  CSIPaddSOS create name true ok m n indices weights idx
    = Some (rc, (m', o, live)) ->
  exists vs,
    indexed_vars m n indices = Some vs /\
    Forall2 (fun i v => 0 <= i /\ hs !! Z.to_nat i = Some v)
      (take (Z.to_nat n) indices) vs /\
    live = bool_decide (rc <> CSIP_RETCODE_OK) /\
    vars_hold m' hs /\
    (rc = CSIP_RETCODE_OK ->
     let c := (create (scip m) name n vs weights).1.2 in
     conss_hold m' (cs ++ [c]) /\ nconss m' = nconss m + 1 /\
     o = (if idx then Some (nconss m) else None) /\
     array_get (conss m') (nconss m) = Some c) /\
    (rc <> CSIP_RETCODE_OK ->
     o = None /\ nconss m' = nconss m /\ (ok = true -> conss_hold m' cs)).
Proof.
  intros Hv Hc. unfold CSIPaddSOS. simpl.
  destruct (indexed_vars m n indices) as [vs|] eqn:Hvs; [|done]. simpl.
  intros H. exists vs. split; [done|]. split.
  { unfold indexed_vars in Hvs. apply mapM_Some in Hvs.
    pose proof (Forall2_length _ _ _ Hvs) as Hlen0.
    rewrite length_seq in Hlen0. rewrite Forall2_lookup in Hvs.
    assert (Z.to_nat n <= length indices)%nat as Hlen.
    { destruct (decide (Z.to_nat n <= length indices)%nat) as [|Hgt]; [done|].
      specialize (Hvs (length indices)).
      rewrite lookup_seq_lt in Hvs by lia. simpl in Hvs.
      inversion Hvs as [? ? Hbad|]; subst. unfold arg_get in Hbad.
      destruct (Z.ltb_spec (Z.of_nat (length indices)) 0); [done|].
      rewrite Nat2Z.id, lookup_ge_None_2 in Hbad by lia. done. }
    apply Forall2_same_length_lookup_2.
    - rewrite length_take. lia.
    - intros j i v Hi Hj. apply lookup_take_Some in Hi as [Hi Hlt].
      specialize (Hvs j).
      rewrite lookup_seq_lt, Hj in Hvs by lia. simpl in Hvs.
      inversion Hvs as [? ? Hjv|]; subst. unfold arg_get in Hjv.
      destruct (Z.ltb_spec (Z.of_nat j) 0); [lia|].
      rewrite Nat2Z.id, Hi in Hjv. simpl in Hjv.
      rewrite (vars_hold_get m hs) in Hjv by done.
      by destruct (Z.ltb_spec i 0). }
  apply SCIP_in_CSIP_inv in H as [[_ H]|(Hrc & _ & ?)]; last first.
  { simplify_eq. split; [by rewrite bool_decide_true|].
    split; [by apply vars_hold_set_scip|]. split; [done|]. intros _.
    split; [done|]. split; [by destruct m|].
    intros _. by apply conss_hold_set_scip. }
  set (r := create (scip m) name n vs weights) in *.
  destruct (addCons_appends ok (set_scip m (r.2)) cs (r.1.2) idx
              (conss_hold_set_scip _ _ _ Hc)) as [_ Hinv].
  assert (addCons ok (set_scip m (r.2)) (r.1.2) idx = Some (rc, (m', o)) /\
          live = bool_decide (rc <> CSIP_RETCODE_OK)) as [Hadd ->].
  { apply CSIP_CALL_inv in H as [[m3 o3] [[Ha ?]|(Hrc & Ha & ?)]];
      simplify_eq/=; (split; [done|]); [done|by rewrite bool_decide_true]. }
  destruct (Hinv _ _ _ Hadd) as (Hfr & Hok & Herr).
  split; [done|]. split; [rewrite Hfr; by destruct m|]. split.
  - intros Hrc. cbv zeta. destruct (Hok Hrc) as (Hh' & Hn & _ & Ho).
    destruct (conss_hold_extend _ _ _ _ (conss_hold_set_scip _ _ (r.2) Hc) Hh')
      as [_ Hnew].
    split; [exact Hh'|]. split; [by destruct m|]. split; [by destruct m|].
    etrans; [|exact Hnew]. by destruct m.
  - intros Hrc. destruct (Herr Hrc) as (? & ? & Hk).
    split; [done|]. split; [by destruct m|]. intros Hok'.
    specialize (Hk Hok'). done.
Qed.

(** X15.  SOS constraints.  [CSIPaddSOS1] and [CSIPaddSOS2] return
    OUT_OF_MEMORY, with the model untouched and no solver call made, when
    the temporary array cannot be allocated.  Otherwise, on stores that
    hold [hs] and [cs], a call that returns has handed the solver the
    variables the first [numindices] indices denote, in the order of the
    index array; the variable store still holds [hs]; when it returns OK
    the constraint store holds [cs] followed by the handle the solver
    created, the index reported being the old count; when it returns
    another code, the count is what it was, and the temporary array is
    still allocated: it is freed on the OK path only. *)
Theorem CSIPaddSOS_hands_over_the_indexed_variables ok m hs cs n indices
    weights idx (first_kind : bool) :
  vars_hold m hs -> conss_hold m cs ->
  let sos := if first_kind then CSIPaddSOS1 else CSIPaddSOS2 in
  let create :=
    if first_kind then SCIPcreateConsBasicSOS1 else SCIPcreateConsBasicSOS2 in
  let name := (if first_kind then "sos1" else "sos2")%string in
  sos false ok m n indices weights idx
  = Some (CSIP_RETCODE_NOMEMORY, (m, None, false)) /\
  (forall rc m' o live,
     sos true ok m n indices weights idx = Some (rc, (m', o, live)) ->
     exists vs,
       Forall2 (fun i v => 0 <= i /\ hs !! Z.to_nat i = Some v)
         (take (Z.to_nat n) indices) vs /\
       live = bool_decide (rc <> CSIP_RETCODE_OK) /\
       vars_hold m' hs /\
       (rc = CSIP_RETCODE_OK ->
        let c := (create (scip m) name n vs weights).1.2 in
        conss_hold m' (cs ++ [c]) /\ nconss m' = nconss m + 1 /\
        o = (if idx then Some (nconss m) else None) /\
        array_get (conss m') (nconss m) = Some c) /\
       (rc <> CSIP_RETCODE_OK ->
        o = None /\ nconss m' = nconss m /\ (ok = true -> conss_hold m' cs))).
Proof.
  intros Hv Hc sos create name. split; [by destruct first_kind|].
  intros rc m' o live Hrun. subst sos create name.
  destruct first_kind;
    destruct (CSIPaddSOS_inv _ _ _ _ _ _ _ _ _ _ _ _ _ _ Hv Hc Hrun)
      as (vs & _ & H); by exists vs.
Qed.

End OtherCons.

(** ** Freeing a model *)

Section Free.
Context {X : EngineExt}.
Implicit Types m model : csip_model engine_base.

Lemma CSIPfreeModel_vars_spec hs k j m :
  vars_hold m hs -> (j + k = length hs)%nat ->
  exists rc m',
    for_loop k (Z.of_nat j) CSIPfreeModel_var m = Some (rc, m') /\
    only_scip m m' /\
    (rc = CSIP_RETCODE_OK ->
     release_all SCIPreleaseVar (scip m) (drop j hs) = Some (scip m')).
Proof.
  unfold SCIP_VAR in *.
  revert j m. induction k as [|k IH]; intros j m Hh Hjk.
  - exists CSIP_RETCODE_OK, m. split; [done|]. split; [done|].
    intros _. by rewrite drop_ge by lia.
  - destruct (lookup_lt_is_Some_2 hs j) as [v Hv]; [lia|].
    rewrite (drop_S _ _ _ Hv). simpl. unfold CSIPfreeModel_var at 1.
    rewrite (vars_hold_get m hs) by done. unfold SCIP_VAR in *.
    destruct (Z.ltb_spec (Z.of_nat j) 0); [lia|]. rewrite Nat2Z.id, Hv. simpl.
    unfold SCIP_in_CSIP, CSIP_CALL. simpl.
    destruct ((SCIPreleaseVar (scip m) v).1.1) eqn:Hrc; simpl;
      try (eexists _, _; split; [done|]; split;
           [apply only_scip_set_scip|done]).
    destruct (IH (S j) (set_scip m ((SCIPreleaseVar (scip m) v).2)))
      as (rc & m' & Hloop & Hfr & Hok);
      [by apply vars_hold_set_scip|lia|].
    exists rc, m'. replace (Z.of_nat j + 1) with (Z.of_nat (S j)) by lia.
    split; [done|]. split; [by etrans; [apply only_scip_set_scip|]|].
    intros Hrc'. rewrite <- (Hok Hrc'). by destruct m.
Qed.

Lemma CSIPfreeModel_conss_spec cs k j m a :
  conss m = Some a -> (j + k = length cs)%nat ->
  (forall i, (j <= i)%nat -> mjoin (a !! i) = cs !! i) ->
  exists rc m',
    for_loop k (Z.of_nat j) CSIPfreeModel_cons m = Some (rc, m') /\
    conss_cleared m m' /\
    (rc = CSIP_RETCODE_OK ->
     release_all SCIPreleaseCons (scip m) (drop j cs) = Some (scip m')).
Proof.
  unfold SCIP_CONS in *.
  revert j m a. induction k as [|k IH]; intros j m a Ha Hjk Hcells.
  - exists CSIP_RETCODE_OK, m. split; [done|]. split; [by destruct m|].
    intros _. by rewrite drop_ge by lia.
  - destruct (lookup_lt_is_Some_2 cs j) as [c Hc]; [lia|].
    rewrite (drop_S _ _ _ Hc). simpl. unfold CSIPfreeModel_cons at 1.
    unfold array_get. rewrite Ha.
    destruct (Z.ltb_spec (Z.of_nat j) 0); [lia|].
    rewrite Nat2Z.id, (Hcells j), Hc by lia. simpl.
    unfold SCIP_in_CSIP, CSIP_CALL. simpl.
    set (r := SCIPreleaseCons (scip m) c).
    set (m1 := set_scip (set_conss m (Some (<[j:=None]> a))) (r.2)).
    destruct (r.1.1) eqn:Hrc; simpl;
      try (eexists _, m1; split; [done|]; split; [by destruct m|done]).
    destruct (IH (S j) m1 (<[j:=None]> a)) as (rc & m' & Hloop & Hfr & Hok);
      [done|lia| |].
    { intros i Hi. unfold array in *.
      rewrite list_lookup_insert_ne by lia. apply Hcells. lia. }
    exists rc, m'. replace (Z.of_nat j + 1) with (Z.of_nat (S j)) by lia.
    split; [done|]. split.
    { unfold conss_cleared in *. rewrite Hfr. by destruct m. }
    intros Hrc'. by rewrite <- (Hok Hrc').
Qed.

(** X16.  Everything is released once, in order, or nothing is freed.  On
    stores that hold the variables [hs] and the constraints [cs],
    [CSIPfreeModel] always returns.  It returns OK exactly when it frees
    the two arrays and the struct; then a pending initial solution was
    released, and after it every stored variable, in index order, then
    every stored constraint, in index order, each once and each with code
    OKAY, and last the solver session.  When it returns another code,
    none of the three blocks is freed. *)
Theorem CSIPfreeModel_releases_everything_once m hs cs :
  vars_hold m hs -> conss_hold m cs ->
  exists rc m' freed,
    CSIPfreeModel m = Some (rc, (m', freed)) /\
    (freed = true <-> rc = CSIP_RETCODE_OK) /\
    (rc = CSIP_RETCODE_OK ->
     (forall sol, initialsol m = Some sol ->
        (SCIPfreeSol (scip m) sol).1.1 = SCIP_OKAY) /\
     exists s1 s2,
       release_all SCIPreleaseVar (after_freeSol m) hs = Some s1 /\
       release_all SCIPreleaseCons s1 cs = Some s2 /\
       (SCIPfree s2).1.1 = SCIP_OKAY /\
       scip m' = (SCIPfree s2).2).
Proof.
  intros Hv Hc. unfold CSIPfreeModel.
  (* the pending initial solution *)
  set (first :=
         match initialsol m with
         | Some sol =>
             SCIP_in_CSIP m (SCIPfreeSol (scip m) sol)
               (fun p m0 => set_initialsol m0 p)
               (fun p m0 => Some (CSIP_RETCODE_OK, set_initialsol m0 p))
         | None => Some (CSIP_RETCODE_OK, m)
         end).
  assert (exists rc0 m0,
            first = Some (rc0, m0) /\
            (rc0 = CSIP_RETCODE_OK ->
             scip m0 = after_freeSol m /\ vars_hold m0 hs /\ conss_hold m0 cs /\
             forall sol, initialsol m = Some sol ->
               (SCIPfreeSol (scip m) sol).1.1 = SCIP_OKAY))
    as (rc0 & m0 & -> & H0).
  { subst first. unfold after_freeSol.
    destruct (initialsol m) as [sol|] eqn:Hsol.
    - unfold SCIP_in_CSIP, CSIP_CALL. simpl.
      destruct ((SCIPfreeSol (scip m) sol).1.1) eqn:Hrc; simpl;
        eexists _, _; (split; [done|]); try done.
      intros _. split; [by destruct m|]. split; [by destruct m|].
      split; [by destruct m|]. intros ? ?. by simplify_eq.
    - exists CSIP_RETCODE_OK, m. split; [done|]. intros _.
      split; [done|]. split; [exact Hv|]. split; [exact Hc|]. done. }
  destruct (decide (rc0 = CSIP_RETCODE_OK)) as [->|Hrc0]; last first.
  { exists rc0, m0, false. destruct rc0; simpl; done. }
  destruct (H0 eq_refl) as (Hs0 & Hv0 & Hc0 & Hsol). simpl.
  (* the variables *)
  assert (Z.to_nat (nvars m0) = length hs) as -> by (destruct Hv0 as [-> _]; lia).
  destruct (CSIPfreeModel_vars_spec hs (length hs) 0 m0 Hv0 eq_refl)
    as (rc1 & m1 & Hl1 & Hfr1 & Hok1).
  change (Z.of_nat 0) with 0 in Hl1. rewrite Hl1.
  destruct (decide (rc1 = CSIP_RETCODE_OK)) as [->|Hrc1]; last first.
  { exists rc1, m1, false. destruct rc1; simpl; done. }
  simpl. specialize (Hok1 eq_refl). rewrite drop_0, Hs0 in Hok1.
  (* the constraints *)
  pose proof (conss_hold_only_scip _ _ _ Hfr1 Hc0) as Hc1.
  assert (Z.to_nat (nconss m1) = length cs) as -> by (destruct Hc1 as [-> _]; lia).
  destruct Hc1 as (_ & _ & _ & Ha1).
  destruct (CSIPfreeModel_conss_spec cs (length cs) 0 m1 _ Ha1 eq_refl)
    as (rc2 & m2 & Hl2 & Hfr2 & Hok2).
  { intros i _. pose proof (array_get_block cs (consssize m1) (Z.of_nat i)) as Hg.
    unfold array_get in Hg. destruct (Z.ltb_spec (Z.of_nat i) 0); [lia|].
    by rewrite Nat2Z.id in Hg. }
  change (Z.of_nat 0) with 0 in Hl2. rewrite Hl2.
  destruct (decide (rc2 = CSIP_RETCODE_OK)) as [->|Hrc2]; last first.
  { exists rc2, m2, false. destruct rc2; simpl; done. }
  simpl. specialize (Hok2 eq_refl). rewrite drop_0 in Hok2.
  (* the session *)
  unfold SCIP_in_CSIP, CSIP_CALL. simpl.
  destruct ((SCIPfree (scip m2)).1.1) eqn:Hrc3; simpl;
    eexists _, _, _; (split; [done|]); try done.
  split; [done|]. intros _. split; [done|].
  exists (scip m1), (scip m2). by destruct m2.
Qed.

End Free.

(** ** Registering callbacks *)

Lemma nb_digits_double (d : Decimal.uint) :
  (Decimal.nb_digits (Decimal.Little.double d) <= S (Decimal.nb_digits d) /\
   Decimal.nb_digits (Decimal.Little.succ_double d) <= S (Decimal.nb_digits d))%nat.
Proof. induction d; simpl; lia. Qed.

Lemma nb_digits_to_little_uint (p : positive) :
  (Decimal.nb_digits (Pos.to_little_uint p) <= Pos.size_nat p)%nat.
Proof.
  induction p as [p IH|p IH|]; simpl; [| |lia].
  - pose proof (proj2 (nb_digits_double (Pos.to_little_uint p))). lia.
  - pose proof (proj1 (nb_digits_double (Pos.to_little_uint p))). lia.
Qed.

Lemma length_string_of_uint (d : Decimal.uint) :
  String.length (NilEmpty.string_of_uint d) = Decimal.nb_digits d.
Proof. induction d; simpl; congruence. Qed.

Lemma size_nat_bound (p : positive) (k : nat) :
  Z.pos p < 2 ^ Z.of_nat k -> (Pos.size_nat p <= k)%nat.
Proof.
  revert k. induction p as [p IH|p IH|]; intros k Hk; simpl.
  - destruct k as [|k]; [simpl in Hk; lia|].
    rewrite Nat2Z.inj_succ, Z.pow_succ_r in Hk by lia.
    specialize (IH k). rewrite Pos2Z.inj_xI in Hk. lia.
  - destruct k as [|k]; [simpl in Hk; lia|].
    rewrite Nat2Z.inj_succ, Z.pow_succ_r in Hk by lia.
    specialize (IH k). rewrite Pos2Z.inj_xO in Hk. lia.
  - destruct k as [|k]; [simpl in Hk; lia|lia].
Qed.

Lemma length_decimal_pos (p : positive) :
  Z.pos p <= 2147483648 ->
  (String.length (NilZero.string_of_uint (Pos.to_uint p)) <= 32)%nat.
Proof.
  intros Hz.
  assert (Pos.size_nat p <= 32)%nat as Hlt.
  { apply size_nat_bound. change (2 ^ Z.of_nat 32) with 4294967296. lia. }
  pose proof (nb_digits_to_little_uint p) as Hd.
  unfold Pos.to_uint. rewrite <- DecimalFacts.nb_digits_rev in Hd.
  unfold NilZero.string_of_uint.
  destruct (Decimal.rev (Pos.to_little_uint p));
    [simpl; lia|rewrite length_string_of_uint; lia..].
Qed.

Lemma length_decimal (z : Z) :
  INT_MIN <= z <= INT_MAX ->
  (String.length (NilZero.string_of_int (Z.to_int z)) <= 33)%nat.
Proof.
  unfold INT_MIN, INT_MAX. intros Hz. destruct z as [|p|p].
  - simpl. lia.
  - pose proof (length_decimal_pos p). unfold Z.to_int, NilZero.string_of_int.
    lia.
  - pose proof (length_decimal_pos p). unfold Z.to_int, NilZero.string_of_int.
    cbn [String.length]. lia.
Qed.

Lemma substring_all (s : string) (n : nat) :
  (String.length s <= n)%nat -> substring 0 n s = s.
Proof.
  revert n. induction s as [|c s IH]; intros n H.
  - by destruct n.
  - destruct n as [|n]; simpl in *; [lia|]. rewrite IH by lia. done.
Qed.

Lemma length_append (s1 s2 : string) :
  String.length (s1 ++ s2) = (String.length s1 + String.length s2)%nat.
Proof. induction s1; simpl; congruence. Qed.

Lemma append_inj_r (s s1 s2 : string) :
  (s ++ s1 = s ++ s2)%string -> s1 = s2.
Proof. induction s; simpl; intros H; [done|]. injection H. auto. Qed.

Lemma decimal_inj (a b : Z) :
  NilZero.string_of_int (Z.to_int a) = NilZero.string_of_int (Z.to_int b) ->
  a = b.
Proof.
  assert (forall z, NilZero.int_of_string (NilZero.string_of_int (Z.to_int z))
                    = Some (Z.to_int z)) as Hisi.
  { intros z. apply NilZero.isi; destruct z; simpl; try done;
      intros H; injection H; apply DecimalPos.Unsigned.to_uint_nonnil. }
  intros H. apply DecimalZ.to_int_inj.
  pose proof (Hisi a) as Ha. rewrite H, Hisi in Ha. congruence.
Qed.

(** A name is not cut when its prefix has at most 900 characters. *)
Lemma SCIPsnprintf_short (prefix : string) (n : Z) :
  (String.length prefix <= 900)%nat -> INT_MIN <= n <= INT_MAX ->
  SCIPsnprintf SCIP_MAXSTRLEN prefix n
  = (prefix ++ NilZero.string_of_int (Z.to_int n))%string.
Proof.
  intros Hp Hn. unfold SCIPsnprintf. apply substring_all.
  rewrite length_append. pose proof (length_decimal n Hn).
  change (Z.to_nat (SCIP_MAXSTRLEN - 1)) with 1023%nat. lia.
Qed.

(** X17.  Plugin names are unique.  The name a registration builds from a
    counter value, the prefix followed by the decimal form of the
    counter, fits the solver's name buffer for every [int], so it is not
    cut; and two counter values that give the same name, for lazy
    callbacks or for heuristics, are the same value. *)
Theorem plugin_names_are_unique (a b : Z) :
  INT_MIN <= a <= INT_MAX -> INT_MIN <= b <= INT_MAX ->
  SCIPsnprintf SCIP_MAXSTRLEN "lazycons_" a
  = ("lazycons_" ++ NilZero.string_of_int (Z.to_int a))%string /\
  SCIPsnprintf SCIP_MAXSTRLEN "heur_" a
  = ("heur_" ++ NilZero.string_of_int (Z.to_int a))%string /\
  (SCIPsnprintf SCIP_MAXSTRLEN "lazycons_" a
   = SCIPsnprintf SCIP_MAXSTRLEN "lazycons_" b -> a = b) /\
  (SCIPsnprintf SCIP_MAXSTRLEN "heur_" a
   = SCIPsnprintf SCIP_MAXSTRLEN "heur_" b -> a = b).
Proof.
  intros Ha Hb.
  rewrite !SCIPsnprintf_short by (done || (simpl; lia)).
  split; [done|]. split; [done|]. split.
  - intros H%append_inj_r. by apply decimal_inj.
  - intros H%append_inj_r. by apply decimal_inj.
Qed.

Section Register.
Context {X : EngineExt}.
Implicit Types m model : csip_model engine_base.

(** X18.  Registrations are counted.  A call of [CSIPaddLazyCallback] or of
    [CSIPaddHeuristicCallback] that returns changes nothing of the model
    but the solver session and its own counter.  When it returns OK, the
    three solver calls returned OKAY: the plugin was included under the
    name built from the counter as it was before the call (and, for a
    lazy callback, with enforcement priority -1 when [fractional] is not
    zero and 1 when it is), and the counter is one more.  When it returns another code the counter is what it
    was.  The plugin data of a heuristic that was included has an empty
    slot and names the heuristic the solver created. *)
Theorem registrations_are_counted m fractional :
  (forall rc m',
     CSIPaddLazyCallback m fractional = Some (rc, m') ->
     let s1 := (SCIPallocMemory (scip m)).2 in
     let inc :=
       SCIPincludeConshdlrBasic s1
         (SCIPsnprintf SCIP_MAXSTRLEN "lazycons_" (nlazycb m))
         "lazy constraint callback" (if decide (fractional = 0) then 1 else -1)
         (-1) (-1) false in
     m' = set_nlazycb (set_scip m (scip m')) (nlazycb m') /\
     (rc = CSIP_RETCODE_OK ->
      (SCIPallocMemory (scip m)).1.1 = SCIP_OKAY /\ inc.1.1 = SCIP_OKAY /\
      (SCIPsetConshdlrFree (inc.2) (inc.1.2)).1.1 = SCIP_OKAY /\
      scip m' = (SCIPsetConshdlrFree (inc.2) (inc.1.2)).2 /\
      nlazycb m' = nlazycb m + 1) /\
     (rc <> CSIP_RETCODE_OK -> nlazycb m' = nlazycb m)) /\
  (forall rc m' od,
     CSIPaddHeuristicCallback m = Some (rc, (m', od)) ->
     let s1 := (SCIPallocMemory (scip m)).2 in
     let inc :=
       SCIPincludeHeurBasic s1 (SCIPsnprintf SCIP_MAXSTRLEN "heur_" (nheur m))
         "heuristic callback" "x"%char 1 1 0 (-1) SCIP_HEURTIMING_AFTERNODE
         false in
     m' = set_nheur (set_scip m (scip m')) (nheur m') /\
     (rc = CSIP_RETCODE_OK ->
      (SCIPallocMemory (scip m)).1.1 = SCIP_OKAY /\ inc.1.1 = SCIP_OKAY /\
      (SCIPsetHeurFree (inc.2) (inc.1.2)).1.1 = SCIP_OKAY /\
      scip m' = (SCIPsetHeurFree (inc.2) (inc.1.2)).2 /\
      nheur m' = nheur m + 1 /\
      od = Some (HeurData.mk (inc.1.2) None)) /\
     (rc <> CSIP_RETCODE_OK -> nheur m' = nheur m) /\
     (forall d, od = Some d ->
        HeurData.sol d = None /\ HeurData.heur d = inc.1.2 /\
        inc.1.1 = SCIP_OKAY)).
Proof.
  split.
  - intros rc m' Hrun s1 inc. unfold CSIPaddLazyCallback in Hrun.
    apply SCIP_in_CSIP_inv in Hrun as [[H1 Hrun]|(Hrc & _ & ->)]; last first.
    { split; [by destruct m|]. split; [done|]. intros _. by destruct m. }
    apply SCIP_in_CSIP_inv in Hrun as [[H2 Hrun]|(Hrc & _ & ->)]; last first.
    { split; [by destruct m|]. split; [done|]. intros _. by destruct m. }
    apply SCIP_in_CSIP_inv in Hrun as [[H3 Hrun]|(Hrc & _ & ->)]; last first.
    { split; [by destruct m|]. split; [done|]. intros _. by destruct m. }
    apply bind_Some in Hrun as (n & Hn & ?). simplify_eq.
    apply int_val_inv in Hn as [-> _].
    split; [by destruct m|]. split; [|done]. intros _.
    split; [done|]. split; [by destruct m|]. split; by destruct m.
  - intros rc m' od Hrun s1 inc. unfold CSIPaddHeuristicCallback in Hrun.
    apply SCIP_in_CSIP_inv in Hrun as [[H1 Hrun]|(Hrc & _ & ?)]; last first.
    { simplify_eq. split; [by destruct m|]. split; [done|].
      split; [intros _; by destruct m|done]. }
    apply SCIP_in_CSIP_inv in Hrun as [[H2 Hrun]|(Hrc & _ & ?)]; last first.
    { simplify_eq. split; [by destruct m|]. split; [done|].
      split; [intros _; by destruct m|done]. }
    assert (inc.1.1 = SCIP_OKAY) as Hinc by (by destruct m).
    apply SCIP_in_CSIP_inv in Hrun as [[H3 Hrun]|(Hrc & _ & ?)]; last first.
    { simplify_eq. split; [by destruct m|]. split; [done|].
      split; [intros _; by destruct m|]. intros d ?. simplify_eq.
      split; [done|]. split; [by destruct m|done]. }
    apply bind_Some in Hrun as (n & Hn & ?). simplify_eq.
    apply int_val_inv in Hn as [-> _].
    split; [by destruct m|]. split; [|split; [done|]].
    + intros _. split; [done|]. split; [done|]. split; [by destruct m|].
      split; [by destruct m|]. split; by destruct m.
    + intros d ?. simplify_eq. split; [done|]. split; [by destruct m|done].
Qed.

End Register.

(** ** Replacing the initial solution *)

Section InitialSol.
Context {E : Engine}.
Implicit Types m model : csip_model E.

(** X19.  Setting an initial solution replaces the pending one.  On a store
    that holds the handles [hs], a call of [CSIPsetInitialSolution] that
    returns changes nothing of the model but the solver session and the
    pending solution.  When it returns OK, a solution that was pending
    was freed first, the solver clearing the pointer, and the pending
    solution is now the one the solver created after that, to which it
    was given the values for exactly the stored variables, in index
    order.  When it returns another code, either freeing the old solution
    failed, or the old solution is gone and what [SCIPcreateSol] wrote is
    pending, its values not set if [SCIPsetSolVals] failed. *)
Theorem CSIPsetInitialSolution_replaces m hs values rc m' :
  vars_hold m hs ->
  CSIPsetInitialSolution m values = Some (rc, m') ->
  let made := SCIPcreateSol (after_freeSol m) None in
  let filled := SCIPsetSolVals (made.2) (made.1.2) hs values in
  m' = set_initialsol (set_scip m (scip m')) (initialsol m') /\
  (rc = CSIP_RETCODE_OK ->
   (forall old, initialsol m = Some old ->
      (SCIPfreeSol (scip m) old).1.1 = SCIP_OKAY /\
      (SCIPfreeSol (scip m) old).1.2 = None) /\
   made.1.1 = SCIP_OKAY /\ filled.1.1 = SCIP_OKAY /\
   initialsol m' = made.1.2 /\ scip m' = filled.2) /\
  (rc <> CSIP_RETCODE_OK ->
   (exists old,
      initialsol m = Some old /\
      (SCIPfreeSol (scip m) old).1.1 <> SCIP_OKAY /\
      initialsol m' = (SCIPfreeSol (scip m) old).1.2 /\
      scip m' = (SCIPfreeSol (scip m) old).2) \/
   (initialsol m' = made.1.2 /\
    (made.1.1 <> SCIP_OKAY /\ scip m' = made.2 \/
     made.1.1 = SCIP_OKAY /\ filled.1.1 <> SCIP_OKAY /\ scip m' = filled.2))).
Proof.
  intros Hv Hrun made filled.
  unfold CSIPsetInitialSolution in Hrun.
  apply CSIP_CALL_inv in Hrun as [m1 [[H1 H]|(Hrc & H1 & ->)]].
  - assert (m1 = set_initialsol (set_scip m (after_freeSol m)) None /\
            forall old, initialsol m = Some old ->
              (SCIPfreeSol (scip m) old).1.1 = SCIP_OKAY /\
              (SCIPfreeSol (scip m) old).1.2 = None) as [-> Hfree].
    { case_decide as Hnull; [|done]. clear H.
      unfold after_freeSol. destruct (initialsol m) as [old|] eqn:Hi.
      - apply SCIP_in_CSIP_OK in H1 as [Hok ?]. simplify_eq.
        simpl in Hnull. rewrite Hnull. split; [done|].
        by intros ? [= <-].
      - injection H1 as <-. split; [|done]. destruct m; simpl in *. by subst. }
    rewrite decide_True in H by done.
    apply SCIP_in_CSIP_inv in H as [[Hmade H]|(Hrc & -> & ->)].
    + assert (stored_vars
                (set_initialsol
                   (set_scip (set_initialsol (set_scip m (after_freeSol m)) None)
                      ((SCIPcreateSol (after_freeSol m) None).2))
                   ((SCIPcreateSol (after_freeSol m) None).1.2)) = Some hs)
        as Hst.
      { apply vars_hold_stored. by destruct m. }
      simpl in H. rewrite Hst in H. simpl in H.
      apply SCIP_in_CSIP_inv in H as [[Hfilled H]|(Hrc & -> & ->)].
      * simplify_eq. split; [done|]. split; [|done]. intros _.
        split; [exact Hfree|]. done.
      * split; [done|]. split; [done|]. intros _. right.
        split; [done|]. right. split; [done|]. split; [|done].
        intros Hok. apply Hrc. unfold filled, made in Hok. by rewrite Hok.
    + split; [done|]. split; [done|]. intros _. right.
      split; [done|]. left. split; [|done].
      intros Hok. apply Hrc. unfold made in Hok. simpl. by rewrite Hok.
  - destruct (initialsol m) as [old|] eqn:Hi; [|by simplify_eq].
    apply SCIP_in_CSIP_inv in H1 as [[_ ?]|(_ & -> & ->)]; [by simplify_eq|].
    split; [by destruct m|]. split; [done|]. intros _. left.
    exists old. split; [done|]. split; [|done].
    intros Hok. apply Hrc. by rewrite Hok.
Qed.

End InitialSol.

(** ** More runs on the solver doubles *)

Ltac by_compute :=
  vm_compute; repeat split;
  first [reflexivity | discriminate | (intros; discriminate)].

Lemma two_vars_hold : vars_hold Toy.two_vars [0; 1]%nat /\ conss_hold Toy.two_vars [].
Proof. split; by_compute. Qed.

(** Witness of X2: a third variable added to the two-variable model gets
    index 2. *)
Lemma CSIPaddVar_appends_witness :
  CSIPaddVar true Toy.two_vars dbl_0 dbl_1 CSIP_VARTYPE_BINARY true
    = Some (CSIP_RETCODE_OK, (Samples.third_var.1, Some 2)) /\
  vars_hold Samples.third_var.1 [0; 1; 2]%nat /\
  array_get (vars Samples.third_var.1) 2 = Some 2%nat /\
  array_get (vars Samples.third_var.1) 1 = array_get (vars Toy.two_vars) 1.
Proof.
  destruct (CSIPaddVar_appends true Toy.two_vars [0; 1]%nat dbl_0 dbl_1
              CSIP_VARTYPE_BINARY true (proj1 two_vars_hold)) as [_ Hinv].
  assert (CSIPaddVar true Toy.two_vars dbl_0 dbl_1 CSIP_VARTYPE_BINARY true
          = Some (CSIP_RETCODE_OK, (Samples.third_var.1, Some 2))) as Hrun
    by (vm_compute; reflexivity).
  destruct (Hinv _ _ _ Hrun) as (_ & Hok & _).
  destruct (Hok eq_refl) as (H1 & _ & _ & _ & H2 & H3).
  split; [exact Hrun|]. split; [|split].
  - vm_compute in H1 |- *. exact H1.
  - vm_compute in H2 |- *. exact H2.
  - apply H3. by_compute.
Defined.

(** Witness of X3: two objective coefficients set by one call and by two. *)
Lemma batched_changes_compose_witness :
  CSIPsetObj Toy.two_vars 2 [0; 1] [Toy.dbl_2; Toy.dbl_3]
  = CSIP_CALL (CSIPsetObj Toy.two_vars 1 [0] [Toy.dbl_2]) id
      (fun m1 => CSIPsetObj m1 1 [1] [Toy.dbl_3]) /\
  CSIPchgVarLB Toy.two_vars 2 [0; 1] [dbl_0; dbl_1]
  = CSIP_CALL (CSIPchgVarLB Toy.two_vars 1 [0] [dbl_0]) id
      (fun m1 => CSIPchgVarLB m1 1 [1] [dbl_1]).
Proof.
  split.
  - exact (proj2 (proj2 (batched_changes_compose Toy.two_vars [0] [1]
                           [Toy.dbl_2] [Toy.dbl_3] 1 eq_refl ltac:(lia)))).
  - exact (proj1 (batched_changes_compose Toy.two_vars [0] [1] [dbl_0] [dbl_1]
                    1 eq_refl ltac:(lia))).
Defined.

(** Witness of X4: on the two-variable model: a change of type at index
    1 returns, a change of bound at index 2 and of objective at index -1
    do not. *)
Lemma indices_are_not_checked_witness :
  is_Some (CSIPchgVarType Toy.two_vars 1 CSIP_VARTYPE_BINARY) /\
  CSIPchgVarType Toy.two_vars 2 CSIP_VARTYPE_BINARY = None /\
  is_Some (CSIPsetObj Toy.two_vars 2 [1; 0] [dbl_1; dbl_1]) /\
  CSIPchgVarLB Toy.two_vars 1 [2] [dbl_0] = None /\
  CSIPsetObj Toy.two_vars 1 [-1] [dbl_0] = None.
Proof.
  destruct (indices_are_not_checked Toy.two_vars [0; 1]%nat
              (proj1 two_vars_hold)) as (H1 & H2 & H3).
  split; [apply H1; by_compute|].
  split.
  { destruct (CSIPchgVarType Toy.two_vars 2 CSIP_VARTYPE_BINARY) eqn:Hrun;
      [|reflexivity].
    assert (0 <= 2 < nvars Toy.two_vars) as [_ Hlt]
      by (apply (H1 2 CSIP_VARTYPE_BINARY); rewrite Hrun; by eexists).
    vm_compute in Hlt. discriminate Hlt. }
  split.
  { apply (H2 2 [1; 0] [dbl_1; dbl_1]); [vm_compute; lia|vm_compute; lia|].
    repeat constructor; by_compute. }
  split.
  - apply (H3 2 dbl_0). intros [_ Hlt]. vm_compute in Hlt. discriminate Hlt.
  - apply (H3 (-1) dbl_0). intros [Hle _]. vm_compute in Hle. by apply Hle.
Defined.

(** Witness of X5: the objective [3 x1 + 2 x0] with [x1] set again, to
    1, in the same call: [x1] has coefficient 1 and [x0] has 2. *)
Lemma CSIPsetObj_last_write_wins_witness :
  CSIPsetObj Toy.two_vars 3 [1; 0; 1] [Toy.dbl_3; Toy.dbl_2; dbl_1]
    = Some (CSIP_RETCODE_OK, Samples.obj_twice) /\
  SCIPvarGetObj (scip Samples.obj_twice) 1%nat = dbl_1 /\
  SCIPvarGetObj (scip Samples.obj_twice) 0%nat = Toy.dbl_2.
Proof.
  assert (CSIPsetObj Toy.two_vars 3 [1; 0; 1] [Toy.dbl_3; Toy.dbl_2; dbl_1]
          = Some (CSIP_RETCODE_OK, Samples.obj_twice)) as Hrun
    by (vm_compute; reflexivity).
  destruct (CSIPsetObj_last_write_wins toy_objective_laws Toy.two_vars 3
              [1; 0; 1] [Toy.dbl_3; Toy.dbl_2; dbl_1] [1; 0; 1]%nat
              Samples.obj_twice ltac:(vm_compute; reflexivity) Hrun)
    as [_ H].
  split; [exact Hrun|]. split.
  - rewrite (H 1%nat). vm_compute. reflexivity.
  - rewrite (H 0%nat). vm_compute. reflexivity.
Defined.

Lemma faulty_objective_laws : ObjectiveLaws Faulty.engine.
Proof.
  split; simpl; unfold Toy.set_var; simpl; intros; try done.
  - by rewrite decide_True.
  - by rewrite decide_False.
Qed.

(** Witness of X6: a MAXIMIZE solve on the solver whose search fails:
    ERROR, with both coefficients still negated. *)
Lemma CSIPsolve_failure_keeps_the_negation_witness :
  CSIPsolve Faulty.max_model = Some (CSIP_RETCODE_ERROR, Faulty.after_solve) /\
  SCIPvarGetObj (scip Faulty.after_solve) 0%nat = dbl_neg Toy.dbl_2 /\
  SCIPvarGetObj (scip Faulty.after_solve) 1%nat = dbl_neg Toy.dbl_3 /\
  SCIPvarGetObj (scip Faulty.max_model) 0%nat = Toy.dbl_2 /\
  sense Faulty.after_solve = SCIP_OBJSENSE_MAXIMIZE.
Proof.
  destruct (proj1 (CSIPsolve_failure_keeps_the_negation faulty_objective_laws
              Faulty.max_model Faulty.at_search [0; 1]%nat
              ltac:(vm_compute; reflexivity) ltac:(vm_compute; reflexivity)
              ltac:(apply (bool_decide_unpack _); vm_compute; exact I)
              ltac:(exists Faulty.at_search; split; vm_compute; reflexivity)))
    as (rc & m' & Hrun & _ & _ & Hneg & Hsense & _).
  { vm_compute. discriminate. }
  assert (rc = CSIP_RETCODE_ERROR /\ m' = Faulty.after_solve) as [-> ->].
  { vm_compute in Hrun. injection Hrun as <- <-. vm_compute.
    split; reflexivity. }
  split; [exact Hrun|].
  split; [rewrite (Hneg 0%nat); vm_compute; reflexivity|].
  split; [rewrite (Hneg 1%nat); vm_compute; reflexivity|].
  split; [vm_compute; reflexivity|exact Hsense].
Defined.

(** Witness of X7: an initial solution set on the two-variable model,
    and the solve that uses it. *)
Lemma initial_solution_is_used_once_witness :
  initialsol Samples.with_initial = Some 2%nat /\
  CSIPsolve Samples.with_initial
    = Some (CSIP_RETCODE_OK, Samples.with_initial_solved) /\
  initialsol Samples.with_initial_solved = None /\
  CSIPsolve_addsol Samples.with_initial_solved
    = Some (CSIP_RETCODE_OK, Samples.with_initial_solved).
Proof.
  assert (CSIPsolve Samples.with_initial
          = Some (CSIP_RETCODE_OK, Samples.with_initial_solved)) as Hrun
    by (vm_compute; reflexivity).
  destruct (initial_solution_is_used_once Samples.with_initial
              Samples.with_initial_solved ltac:(intros; reflexivity) Hrun)
    as (H1 & H2 & _).
  split; [vm_compute; reflexivity|]. split; [exact Hrun|].
  split; [exact H1|exact H2].
Defined.

(** Witness of X8: the first constraint of the two-variable model gets
    index 0. *)
Lemma CSIPaddLinCons_appends_witness :
  CSIPaddLinCons true Toy.two_vars 2 [0; 1] [dbl_1; dbl_1] dbl_0 Toy.dbl_3 true
    = Some (CSIP_RETCODE_OK, (Samples.first_cons.1, Some 0)) /\
  vars_hold Samples.first_cons.1 [0; 1]%nat /\
  conss_hold Samples.first_cons.1 [2]%nat /\
  array_get (conss Samples.first_cons.1) 0 = Some 2%nat.
Proof.
  destruct (CSIPaddLinCons_appends true Toy.two_vars [0; 1]%nat [] 2 [0; 1]
              [dbl_1; dbl_1] dbl_0 Toy.dbl_3 true (proj1 two_vars_hold)
              (proj2 two_vars_hold)) as [_ Hinv].
  assert (CSIPaddLinCons true Toy.two_vars 2 [0; 1] [dbl_1; dbl_1] dbl_0
            Toy.dbl_3 true
          = Some (CSIP_RETCODE_OK, (Samples.first_cons.1, Some 0))) as Hrun
    by (vm_compute; reflexivity).
  destruct (Hinv _ _ _ Hrun) as (_ & Hv & Hok & _).
  pose proof (Hok eq_refl) as Hok'. cbv zeta in Hok'.
  destruct Hok' as (Hc & _ & _ & Hget & _).
  split; [exact Hrun|]. split; [exact Hv|]. split.
  - vm_compute in Hc |- *. exact Hc.
  - vm_compute in Hget |- *. exact Hget.
Defined.

(** Witness of X9: a constraint, a third variable and a change of type on the
    two-variable model: indices 0 and 1 denote the variables they did. *)
Lemma building_keeps_the_indices_witness :
  run_ops Samples.more_calls Toy.two_vars = Some Samples.built /\
  nvars Samples.built = 3 /\ nconss Samples.built = 1 /\
  array_get (vars Samples.built) 0 = array_get (vars Toy.two_vars) 0 /\
  array_get (vars Samples.built) 1 = array_get (vars Toy.two_vars) 1.
Proof.
  assert (run_ops Samples.more_calls Toy.two_vars = Some Samples.built)
    as Hrun by (vm_compute; reflexivity).
  destruct (building_keeps_the_indices Samples.more_calls Toy.two_vars
              Samples.built [0; 1]%nat [] (proj1 two_vars_hold)
              (proj2 two_vars_hold) ltac:(vm_compute; reflexivity) Hrun)
    as (hs' & cs' & _ & _ & _ & _ & Hvars & _).
  split; [exact Hrun|]. split; [vm_compute; reflexivity|].
  split; [vm_compute; reflexivity|].
  split; apply Hvars; by_compute.
Defined.

(** Witness of X11: the readers on the two-variable model: before a
    solve, after one, and in a callback. *)
Lemma value_readers_follow_the_store_witness :
  CSIPgetVarValues Toy.two_vars = Some (CSIP_RETCODE_ERROR, []) /\
  CSIPgetVarValues Toy.min_solved
    = Some (CSIP_RETCODE_OK,
            map (SCIPgetSolVal (scip Toy.min_solved) (Some 7%nat)) [0; 1]%nat) /\
  CSIPcbGetVarValues Toy.cb_model Toy.check_session
    = Some (CSIP_RETCODE_OK,
            map (SCIPgetSolVal (scip Toy.cb_model) (Some 3%nat)) [0; 1]%nat).
Proof.
  split; [|split].
  - apply (value_readers_follow_the_store Toy.two_vars [0; 1]%nat
             (proj1 two_vars_hold)).
    vm_compute. reflexivity.
  - apply (proj1 (proj2 (value_readers_follow_the_store Toy.min_solved
                           [0; 1]%nat ltac:(by_compute))) 7%nat).
    vm_compute. reflexivity.
  - apply (proj1 (proj2 (proj2 (value_readers_follow_the_store Toy.cb_model
                                  [0; 1]%nat ltac:(by_compute))))
             Toy.check_session).
Defined.

(** Witness of X13: the types of the two-variable model, and an index
    past the end. *)
Lemma CSIPgetVarType_checks_its_index_witness :
  CSIPgetVarType (X:=ToyExt.engine) Toy.two_vars 1
    = Some (Some CSIP_VARTYPE_INTEGER) /\
  CSIPgetVarType (X:=ToyExt.engine) Toy.two_vars 2 = None.
Proof.
  split.
  - destruct (CSIPgetVarType (X:=ToyExt.engine) Toy.two_vars 1) as [r|] eqn:Hrun;
      [|vm_compute in Hrun; discriminate].
    destruct (proj2 (CSIPgetVarType_checks_its_index (X:=ToyExt.engine)
                       Toy.two_vars [0; 1]%nat 1 (proj1 two_vars_hold))
                r Hrun) as (v & Hv & Ht & _).
    vm_compute in Hv. injection Hv as <-.
    f_equal. apply Ht. vm_compute. reflexivity.
  - destruct (CSIPgetVarType (X:=ToyExt.engine) Toy.two_vars 2) eqn:Hrun;
      [|reflexivity].
    assert (0 <= 2 < nvars Toy.two_vars) as [_ Hlt].
    { apply (CSIPgetVarType_checks_its_index (X:=ToyExt.engine) Toy.two_vars
               [0; 1]%nat 2 (proj1 two_vars_hold)).
      rewrite Hrun. by eexists. }
    vm_compute in Hlt. discriminate Hlt.
Defined.

(** Witness of X14: the first constraint of the two-variable model,
    quadratic. *)
Lemma CSIPaddQuadCons_appends_witness :
  CSIPaddQuadCons (X:=ToyExt.engine) true Toy.two_vars 1 [0] [dbl_1]
    1 [0] [1] [dbl_1] dbl_0 Toy.dbl_3 true
    = Some (CSIP_RETCODE_OK, (Samples.quad_cons.1, Some 0)) /\
  conss_hold Samples.quad_cons.1 [2]%nat /\
  array_get (conss Samples.quad_cons.1) 0 = Some 2%nat.
Proof.
  assert (CSIPaddQuadCons (X:=ToyExt.engine) true Toy.two_vars 1 [0] [dbl_1]
            1 [0] [1] [dbl_1] dbl_0 Toy.dbl_3 true
          = Some (CSIP_RETCODE_OK, (Samples.quad_cons.1, Some 0))) as Hrun
    by (vm_compute; reflexivity).
  destruct (CSIPaddQuadCons_appends (X:=ToyExt.engine) true Toy.two_vars []
              1 [0] [dbl_1] 1 [0] [1] [dbl_1] dbl_0 Toy.dbl_3 true _ _ _
              (proj2 two_vars_hold) Hrun) as (_ & Hok & _).
  pose proof (Hok eq_refl) as Hok'. cbv zeta in Hok'.
  destruct Hok' as (Hc & _ & _ & Hget & _).
  split; [exact Hrun|]. split.
  - vm_compute in Hc |- *. exact Hc.
  - vm_compute in Hget |- *. exact Hget.
Defined.

(** Witness of X15: an SOS1 constraint on [x1, x0] of the two-variable
    model, and the same call when the temporary array cannot be
    allocated. *)
Lemma CSIPaddSOS_hands_over_the_indexed_variables_witness :
  CSIPaddSOS1 (X:=ToyExt.engine) false true Toy.two_vars 2 [1; 0] None true
    = Some (CSIP_RETCODE_NOMEMORY, (Toy.two_vars, None, false)) /\
  CSIPaddSOS1 (X:=ToyExt.engine) true true Toy.two_vars 2 [1; 0] None true
    = Some (CSIP_RETCODE_OK, (Samples.sos_cons.1.1, Some 0, false)) /\
  conss_hold Samples.sos_cons.1.1 [2]%nat /\
  vars_hold Samples.sos_cons.1.1 [0; 1]%nat.
Proof.
  destruct (CSIPaddSOS_hands_over_the_indexed_variables (X:=ToyExt.engine)
              true Toy.two_vars [0; 1]%nat [] 2 [1; 0] None true true
              (proj1 two_vars_hold) (proj2 two_vars_hold)) as [Hno Hrest].
  assert (CSIPaddSOS1 (X:=ToyExt.engine) true true Toy.two_vars 2 [1; 0] None
            true
          = Some (CSIP_RETCODE_OK, (Samples.sos_cons.1.1, Some 0, false)))
    as Hrun by (vm_compute; reflexivity).
  destruct (Hrest _ _ _ _ Hrun) as (vs & Hvs & _ & Hv & Hok & _).
  pose proof (Hok eq_refl) as Hok'. cbv zeta in Hok'.
  destruct Hok' as (Hc & _).
  split; [exact Hno|]. split; [exact Hrun|]. split; [|exact Hv].
  vm_compute in Hc |- *. exact Hc.
Defined.

(** Witness of X16: freeing the two-variable model with one constraint. *)
Lemma CSIPfreeModel_releases_everything_once_witness :
  exists m',
    CSIPfreeModel (X:=ToyExt.engine) ToyExt.with_cons
      = Some (CSIP_RETCODE_OK, (m', true)) /\
    exists s1 s2,
      release_all SCIPreleaseVar (after_freeSol ToyExt.with_cons) [0; 1]%nat
        = Some s1 /\
      release_all SCIPreleaseCons s1 [2]%nat = Some s2 /\
      scip m' = (SCIPfree s2).2.
Proof.
  destruct (CSIPfreeModel_releases_everything_once (X:=ToyExt.engine)
              ToyExt.with_cons [0; 1]%nat [2]%nat
              ltac:(by_compute) ltac:(by_compute))
    as (rc & m' & freed & Hrun & _ & Hok).
  assert (rc = CSIP_RETCODE_OK /\ freed = true) as [-> ->].
  { vm_compute in Hrun. injection Hrun as <- _ <-. split; reflexivity. }
  destruct (Hok eq_refl) as (_ & s1 & s2 & H1 & H2 & _ & H3).
  exists m'. split; [exact Hrun|]. exists s1, s2.
  split; [exact H1|]. split; [exact H2|exact H3].
Defined.

(** Witness of X17: the names of the first lazy callback and of the thirteenth
    heuristic, and two names that differ. *)
Lemma plugin_names_are_unique_witness :
  SCIPsnprintf SCIP_MAXSTRLEN "lazycons_" 0 = "lazycons_0"%string /\
  SCIPsnprintf SCIP_MAXSTRLEN "heur_" 12 = "heur_12"%string /\
  SCIPsnprintf SCIP_MAXSTRLEN "lazycons_" 0
    <> SCIPsnprintf SCIP_MAXSTRLEN "lazycons_" 1.
Proof.
  assert (INT_MIN <= 0 <= INT_MAX) as H0 by by_compute.
  assert (INT_MIN <= 1 <= INT_MAX) as H1 by by_compute.
  assert (INT_MIN <= 12 <= INT_MAX) as H12 by by_compute.
  split; [|split].
  - rewrite (proj1 (plugin_names_are_unique 0 1 H0 H1)). reflexivity.
  - rewrite (proj1 (proj2 (plugin_names_are_unique 12 1 H12 H1))).
    reflexivity.
  - intros Heq.
    apply (proj1 (proj2 (proj2 (plugin_names_are_unique 0 1 H0 H1)))) in Heq.
    discriminate Heq.
Defined.

(** Witness of X19: a second initial solution set on a model that has
    one pending. *)
Lemma CSIPsetInitialSolution_replaces_witness :
  initialsol Samples.with_initial = Some 2%nat /\
  exists m',
    CSIPsetInitialSolution Samples.with_initial [dbl_1; dbl_1]
      = Some (CSIP_RETCODE_OK, m') /\
    initialsol m' = Some 3%nat.
Proof.
  destruct (CSIPsetInitialSolution Samples.with_initial [dbl_1; dbl_1])
    as [[rc m']|] eqn:Hrun; [|vm_compute in Hrun; discriminate].
  pose proof (CSIPsetInitialSolution_replaces Samples.with_initial
                [0; 1]%nat [dbl_1; dbl_1] rc m' ltac:(by_compute) Hrun) as H.
  cbv zeta in H. destruct H as (_ & Hok & _).
  assert (rc = CSIP_RETCODE_OK) as ->.
  { vm_compute in Hrun. injection Hrun as <- _. reflexivity. }
  destruct (Hok eq_refl) as (_ & _ & _ & Hnew & _).
  split; [vm_compute; reflexivity|]. exists m'. split; [reflexivity|].
  rewrite Hnew. vm_compute. reflexivity.
Defined.

(** Witness of X10: the creation of a model on the solver double, and
    the same when the second allocation fails. *)
Lemma CSIPcreateModel_fresh_witness :
  CSIPcreateModel (E:=Toy.engine) true true true
    = Some (CSIP_RETCODE_OK, Finished Toy.created) /\
  vars_hold Toy.created [] /\ conss_hold Toy.created [] /\
  exists u,
    CSIPcreateModel (E:=Toy.engine) true false true
      = Some (CSIP_RETCODE_NOMEMORY, Unfinished u) /\
    vars_written u = Some (0, INITIALSIZE, None) /\ conss_written u = None.
Proof.
  pose proof (CSIPcreateModel_fresh (E:=Toy.engine) true true true) as H.
  cbv zeta in H. destruct H as (rc & p & Hrun & _ & _ & Hok & _ & Hfin).
  assert (rc = CSIP_RETCODE_OK) as -> by (apply Hok; vm_compute; repeat split).
  assert (p = Finished Toy.created) as ->.
  { pose proof Hrun as Hrun'. vm_compute in Hrun'. injection Hrun' as <-.
    vm_compute. reflexivity. }
  destruct (Hfin _ eq_refl) as (_ & _ & Hv & Hc & _).
  split; [exact Hrun|]. split; [exact Hv|]. split; [exact Hc|].
  pose proof (CSIPcreateModel_fresh (E:=Toy.engine) true false true) as H.
  cbv zeta in H. destruct H as (rc & p & Hrun2 & _ & _ & _ & Hunf & _).
  destruct p as [|u|m];
    [vm_compute in Hrun2; discriminate | | vm_compute in Hrun2; discriminate].
  destruct (Hunf u eq_refl) as [_ Hu]. exists u.
  destruct (vars_written u) as [v|], (conss_written u) as [w|].
  - destruct Hu as [Hb _]. discriminate Hb.
  - destruct Hu as (_ & -> & ->). split; [exact Hrun2|]. split; reflexivity.
  - destruct Hu.
  - exfalso. apply Hu. vm_compute. repeat split.
Defined.
